(** * Nachos MP4 file system: file headers, free map, directories, facade

    A shallow embedding of [code/filesys/filehdr.cc] and [filesys.cc]
    (constructor, [Create], [Open], [Remove], [FindSubDir]) together with
    the collaborators they call (sector device, bitmap, open-file handle,
    directory), and the properties of the specification stated over it.

    Conventions.
    - A C++ [int] is a [Z]; every addition and subtraction the source
      performs on [int]s is wrapped by [to_int] (two's complement, 32 bit).
    - A sector is a list of bytes, a byte is a [Z] in [0, 256).
    - The disk is the list of its sectors; objects that live on the heap
      (bitmaps, headers, directories) are passed and returned explicitly.
    - Code runs in the monad [M]: it threads the disk and stops at the
      first failed [ASSERT], null dereference or read of a cell that was
      never initialised.  Recursion that follows on-disk links takes fuel;
      running out of it is the outcome [Diverges]. *)

From Stdlib Require Import ZArith Lia String Ascii.
From stdpp Require Import base list.

Local Open Scope Z_scope.

(** ** Build-time constants

    [disk.h], [filehdr.h], [directory.h] and [filesys.h] are not part of
    the sources at hand, so the constants they define are parameters. *)

Class Geometry := {
  SectorSize : Z;        (* bytes per sector *)
  NumSectors : Z;        (* sectors on the disk *)
  NumDirect : Z;         (* direct pointers per header *)
  NumDirEntries : Z;     (* capacity of a directory *)
  FileNameMaxLen : Z;    (* characters kept of a name *)
  MAXFILENUM : Z;        (* size of the descriptor table *)
  stack_junk : nat -> Z  (* what an uninitialised local buffer holds *)
}.

(** ** Outcomes and the disk monad *)

Inductive Fault :=
| AssertionFailed             (* ASSERT(...) was false: Abort() *)
| NullDereference             (* a method called through a NULL pointer *)
| WildIndex (index : Z)       (* a cell outside an array, or never given a value *)
| Diverges.                   (* fuel exhausted: the recursion does not end *)

Inductive Res (A : Type) :=
| Ret (a : A)
| Stop (f : Fault).
Arguments Ret {A} a.
Arguments Stop {A} f.

Abbreviation Sector := (list Z).
Abbreviation Disk := (list (list Z)).
Definition M (A : Type) := Disk -> Res (A * Disk).

Definition ret {A} (a : A) : M A := fun d => Ret (a, d).
Definition stop {A} (f : Fault) : M A := fun _ => Stop f.
Definition bind {A B} (m : M A) (k : A -> M B) : M B :=
  fun d => match m d with
           | Ret (a, d') => k a d'
           | Stop f => Stop f
           end.
Definition lift {A} (r : Res A) : M A :=
  fun d => match r with
           | Ret a => Ret (a, d)
           | Stop f => Stop f
           end.
Definition ASSERT (c : bool) : M unit :=
  if c then ret tt else stop AssertionFailed.

Notation "'let*' p ':=' m 'in' k" := (bind m (fun p => k))
  (at level 10, p pattern, m at level 100, k at level 200).

(** ** Machine integers and their bytes *)

Definition to_int (z : Z) : Z := (z + 2 ^ 31) mod 2 ^ 32 - 2 ^ 31.
Definition int_range (z : Z) : Prop := - 2 ^ 31 <= z < 2 ^ 31.

(** Modelled from the spec: [utility.h] is not at hand; [numSectors] is
    "ceil(numBytes / SectorSize)".  On C ints, whose division truncates
    towards zero: the quotient, plus one when a positive remainder is left. *)
Definition divRoundUp (n s : Z) : Z :=
  to_int (Z.quot n s + (if Z.rem n s >? 0 then 1 else 0)).
(** Modelled from the spec: [utility.h] is not at hand; the quotient of C
    ints, as OpenFile needs it to find the sector of a byte offset. *)
Definition divRoundDown (n s : Z) : Z := Z.quot n s.

(* memcpy of an int to and from a byte buffer (little endian). *)
Definition encode_int (v : Z) : list Z :=
  [v mod 256; (v / 256) mod 256; (v / 65536) mod 256; (v / 16777216) mod 256].
Definition byte_at (buf : list Z) (i : nat) : Z := default 0 (buf !! i).
Definition decode_int (buf : list Z) (off : nat) : Z :=
  to_int (byte_at buf off + 256 * byte_at buf (off + 1)
          + 65536 * byte_at buf (off + 2) + 16777216 * byte_at buf (off + 3)).

(* memcpy(buf + off, src, |src|) *)
Definition memcpy (buf : list Z) (off : nat) (src : list Z) : list Z :=
  take off buf ++ src ++ drop (off + length src) buf.

Definition encode_ints (vs : list Z) : list Z := concat (encode_int <$> vs).
Definition decode_ints (buf : list Z) (off count : nat) : list Z :=
  (fun k => decode_int buf (off + 4 * k)) <$> seq 0 count.

(* a[i] and a[i] = v on a C array whose cells are the elements of the list *)
Definition array_get {A} (a : list A) (i : Z) : Res A :=
  if 0 <=? i
  then match a !! Z.to_nat i with
       | Some v => Ret v
       | None => Stop (WildIndex i)
       end
  else Stop (WildIndex i).
Definition array_set {A} (a : list A) (i : Z) (v : A) : Res (list A) :=
  if (0 <=? i) && (i <? Z.of_nat (length a))
  then Ret (<[Z.to_nat i := v]> a)
  else Stop (WildIndex i).


(** ** The sector device *)

Module synchdisk.
Section Device.
Context `{G : Geometry}.

(** Modelled from the spec: [synchdisk.cc] and [disk.cc] are not at hand.
    "ReadSector(sector, buffer) / WriteSector(sector, buffer): synchronous,
    exactly SectorSize bytes.  Sectors are numbered 0..NumSectors-1;
    out-of-range is fatal." *)
Definition ReadSector (sectorNumber : Z) : M Sector :=
  fun d =>
    if (0 <=? sectorNumber) && (sectorNumber <? NumSectors)
    then match d !! Z.to_nat sectorNumber with
         | Some data => Ret (data, d)
         | None => Stop AssertionFailed
         end
    else Stop AssertionFailed.

(** Modelled from the spec: see [ReadSector]. *)
Definition WriteSector (sectorNumber : Z) (data : Sector) : M unit :=
  fun d =>
    if (0 <=? sectorNumber) && (sectorNumber <? NumSectors)
       && (Z.to_nat sectorNumber <? length d)%nat
    then Ret (tt, <[Z.to_nat sectorNumber := data]> d)
    else Stop AssertionFailed.

End Device.
End synchdisk.

(** ** The free map *)

Module bitmap.

(** Modelled from the spec: "a bit per sector", [true] when the sector is
    in use. *)
Abbreviation Bitmap := (list bool).

(** Modelled from the spec: [bitmap.cc] is not at hand.  A fresh map has
    every bit clear. *)
Definition new (numItems : Z) : Bitmap := replicate (Z.to_nat numItems) false.

(** Modelled from the spec: the range a bit number must lie in ("out of
    range" fails). *)
Definition valid (b : Bitmap) (which : Z) : bool :=
  (0 <=? which) && (which <? Z.of_nat (length b)).

(** Modelled from the spec: "Mark(s) / Clear(s): set/reset bit s.  Fails
    with InvalidSector if out of range." *)
Definition Mark (b : Bitmap) (which : Z) : Res Bitmap :=
  if valid b which then Ret (<[Z.to_nat which := true]> b)
  else Stop AssertionFailed.

(** Modelled from the spec: see [Mark]. *)
Definition Clear (b : Bitmap) (which : Z) : Res Bitmap :=
  if valid b which then Ret (<[Z.to_nat which := false]> b)
  else Stop AssertionFailed.

(** Modelled from the spec: "Test(s): query."  Out of range it fails like
    Mark and Clear. *)
Definition Test (b : Bitmap) (which : Z) : Res bool :=
  if valid b which then Ret (default false (b !! Z.to_nat which))
  else Stop AssertionFailed.

(** Modelled from the spec: "the smallest free sector", if any. *)
Fixpoint first_clear (b : Bitmap) : option nat :=
  match b with
  | [] => None
  | false :: _ => Some O
  | true :: b' => S <$> first_clear b'
  end.

(** Modelled from the spec: "FindAndSet(): return the smallest free sector
    and mark it; returns -1 when none free." *)
Definition FindAndSet (b : Bitmap) : Z * Bitmap :=
  match first_clear b with
  | Some i => (Z.of_nat i, <[i := true]> b)
  | None => (-1, b)
  end.

(** Modelled from the spec: the "number of free bits", counted. *)
Fixpoint count_clear (b : Bitmap) : nat :=
  match b with
  | [] => O
  | false :: b' => S (count_clear b')
  | true :: b' => count_clear b'
  end.

(** Modelled from the spec: "NumClear(): number of free bits." *)
Definition NumClear (b : Bitmap) : Z := Z.of_nat (count_clear b).

End bitmap.

(** ** File headers ([filehdr.cc]) *)

Module filehdr.

(* The private fields of class FileHeader; [nextFileHeader] is the owning
   pointer to the in-memory successor, [None] when NULL. *)
#[local] Unset Elimination Schemes.
Inductive FileHeader := mkFileHeader {
  numBytes : Z;
  numSectors : Z;
  dataSectors : list Z;
  nextFileHeader : option FileHeader;
  nextFileHeaderSector : Z
}.
#[local] Set Elimination Schemes.

Definition with_next (this : FileHeader) (next : option FileHeader) : FileHeader :=
  mkFileHeader (numBytes this) (numSectors this) (dataSectors this)
    next (nextFileHeaderSector this).

(* Induction along a chain: the last segment, then a segment before another. *)
Fixpoint chain_ind (P : FileHeader -> Prop)
    (Hlast : forall nb ns ds s, P (mkFileHeader nb ns ds None s))
    (Hnext : forall nb ns ds next s, P next -> P (mkFileHeader nb ns ds (Some next) s))
    (h : FileHeader) : P h :=
  match h with
  | mkFileHeader nb ns ds None s => Hlast nb ns ds s
  | mkFileHeader nb ns ds (Some next) s =>
      Hnext nb ns ds next s (chain_ind P Hlast Hnext next)
  end.

Section Header.
Context `{G : Geometry}.

(** Modelled from the spec: [filehdr.h] is not at hand.
    "MaxFileSize = NumDirect * SectorSize". *)
Definition MaxFileSize : Z := NumDirect * SectorSize.

(* FileHeader::FileHeader() *)
Definition new : FileHeader :=
  {| numBytes := -1;
     numSectors := -1;
     dataSectors := replicate (Z.to_nat NumDirect) (-1);
     nextFileHeader := None;
     nextFileHeaderSector := -1 |}.

(* char clean[SectorSize], every byte set to 0 *)
Definition clean : Sector := replicate (Z.to_nat SectorSize) 0.

(* The body of the loop of Allocate, run for i, i+1, ..., i+count-1. *)
Fixpoint allocate_sectors (count : nat) (i : Z) (dataSectors : list Z)
    (freeMap : bitmap.Bitmap) : M (list Z * bitmap.Bitmap) :=
  match count with
  | O => ret (dataSectors, freeMap)
  | S count' =>
      let '(s, freeMap) := bitmap.FindAndSet freeMap in
      let* dataSectors := lift (array_set dataSectors i s) in
      let* _ := ASSERT (0 <=? s) in
      let* _ := synchdisk.WriteSector s clean in
      allocate_sectors count' (i + 1) dataSectors freeMap
  end.

(* FileHeader::Allocate.  Every recursive call follows a successful
   FindAndSet, so the number of clear bits bounds the depth: [fuel]. *)
Fixpoint Allocate_rec (fuel : nat) (this : FileHeader) (freeMap : bitmap.Bitmap)
    (fileSize : Z) : M (Z * FileHeader * bitmap.Bitmap) :=
  match fuel with
  | O => stop Diverges
  | S fuel' =>
      let file_size := fileSize in
      let max_file_size := to_int MaxFileSize in
      let numBytes := if file_size >? max_file_size then max_file_size else file_size in
      let numSectors := divRoundUp numBytes SectorSize in
      let this := mkFileHeader numBytes numSectors (dataSectors this)
                    (nextFileHeader this) (nextFileHeaderSector this) in
      if bitmap.NumClear freeMap <? numSectors then ret (0, this, freeMap)
      else
        let* (ds, freeMap) :=
          allocate_sectors (Z.to_nat numSectors) 0 (dataSectors this) freeMap in
        let this := mkFileHeader numBytes numSectors ds
                      (nextFileHeader this) (nextFileHeaderSector this) in
        if to_int (file_size - max_file_size) >? 0 then
          let '(s, freeMap) := bitmap.FindAndSet freeMap in
          let this := mkFileHeader numBytes numSectors ds (nextFileHeader this) s in
          let* _ := ASSERT (0 <=? s) in
          let* (r, next, freeMap) :=
            Allocate_rec fuel' new freeMap (to_int (file_size - max_file_size)) in
          ret (to_int (SectorSize + r), with_next this (Some next), freeMap)
        else ret (SectorSize, this, freeMap)
  end.

Definition Allocate (this : FileHeader) (freeMap : bitmap.Bitmap) (fileSize : Z)
  : M (Z * FileHeader * bitmap.Bitmap) :=
  Allocate_rec (S (bitmap.count_clear freeMap)) this freeMap fileSize.

(* The loop of Deallocate. *)
Fixpoint deallocate_sectors (count : nat) (i : Z) (dataSectors : list Z)
    (freeMap : bitmap.Bitmap) : M bitmap.Bitmap :=
  match count with
  | O => ret freeMap
  | S count' =>
      let* s := lift (array_get dataSectors i) in
      let* marked := lift (bitmap.Test freeMap s) in
      let* _ := ASSERT marked in
      let* freeMap := lift (bitmap.Clear freeMap s) in
      deallocate_sectors count' (i + 1) dataSectors freeMap
  end.

(* FileHeader::Deallocate *)
Fixpoint Deallocate (this : FileHeader) (freeMap : bitmap.Bitmap) : M bitmap.Bitmap :=
  let* freeMap :=
    deallocate_sectors (Z.to_nat (numSectors this)) 0 (dataSectors this) freeMap in
  match nextFileHeader this with
  | Some next => Deallocate next freeMap
  | None => ret freeMap
  end.

(* Both FetchFrom and WriteBack copy 3 + NumDirect ints between the header
   and a buffer of SectorSize bytes. *)
Definition header_bytes : Z := 4 * (3 + NumDirect).
Definition within_buffer : M unit :=
  if header_bytes <=? SectorSize then ret tt else stop (WildIndex SectorSize).

(* FileHeader::FetchFrom.  The recursion follows the links found on the
   disk; [Diverges] when [fuel] headers did not reach the end. *)
Fixpoint FetchFrom_rec (fuel : nat) (this : FileHeader) (sector : Z) : M FileHeader :=
  match fuel with
  | O => stop Diverges
  | S fuel' =>
      let* buf := synchdisk.ReadSector sector in
      let* _ := within_buffer in
      let this :=
        {| numBytes := decode_int buf 0;
           numSectors := decode_int buf 4;
           nextFileHeaderSector := decode_int buf 8;
           dataSectors := decode_ints buf 12 (Z.to_nat NumDirect);
           nextFileHeader := nextFileHeader this |} in
      if negb (nextFileHeaderSector this =? -1) then
        let* next := FetchFrom_rec fuel' new (nextFileHeaderSector this) in
        ret (with_next this (Some next))
      else ret this
  end.

(* A chain of more than NumSectors headers visits some sector twice and,
   the disk being only read, never ends (lemma FetchFrom_diverges). *)
Definition FetchFrom (this : FileHeader) (sector : Z) : M FileHeader :=
  FetchFrom_rec (S (Z.to_nat NumSectors)) this sector.

(* char buf[SectorSize], not initialised *)
Definition uninitialised_buffer : list Z :=
  stack_junk <$> seq 0 (Z.to_nat SectorSize).

(* FileHeader::WriteBack *)
Fixpoint WriteBack (this : FileHeader) (sector : Z) : M unit :=
  let buf := uninitialised_buffer in
  let buf := memcpy buf 0 (encode_int (numBytes this)) in
  let buf := memcpy buf 4 (encode_int (numSectors this)) in
  let buf := memcpy buf 8 (encode_int (nextFileHeaderSector this)) in
  let buf := memcpy buf 12 (encode_ints (dataSectors this)) in
  let* _ := within_buffer in
  let* _ := synchdisk.WriteSector sector buf in
  if negb (nextFileHeaderSector this =? -1) then
    match nextFileHeader this with
    | Some next => WriteBack next (nextFileHeaderSector this)
    | None => stop NullDereference
    end
  else ret tt.

(* FileHeader::ByteToSector *)
Fixpoint ByteToSector (this : FileHeader) (offset : Z) : Res Z :=
  let sector := Z.quot offset SectorSize in
  if sector <? NumDirect then array_get (dataSectors this) sector
  else match nextFileHeader this with
       | Some next => ByteToSector next (to_int (offset - to_int MaxFileSize))
       | None => Stop NullDereference
       end.

(* FileHeader::FileLength *)
Fixpoint FileLength (this : FileHeader) : Z :=
  match nextFileHeader this with
  | Some next => to_int (numBytes this + FileLength next)
  | None => numBytes this
  end.

End Header.
End filehdr.

(** ** Open files *)

Module openfile.

(** Modelled from the spec: [openfile.h] is not at hand.  "Open-file
    handle: an in-memory cursor over one inode chain". *)
Record OpenFile := mkOpenFile {
  hdr : filehdr.FileHeader;
  seekPosition : Z
}.

Section Handle.
Context `{G : Geometry}.

(** Modelled from the spec: [openfile.cc] is not at hand.  "Open-file
    handle: an in-memory cursor over one inode chain"; opening a sector
    brings the header found there into memory. *)
Definition new (sector : Z) : M OpenFile :=
  let* h := filehdr.FetchFrom filehdr.new sector in
  ret {| hdr := h; seekPosition := 0 |}.

(** Modelled from the spec: part of [ReadAt]; the contents of the sectors
    that hold the bytes from i*SectorSize on, for [count] consecutive i,
    each found with ByteToSector. *)
Fixpoint read_sectors (count : nat) (i : Z) (h : filehdr.FileHeader) : M (list Z) :=
  match count with
  | O => ret []
  | S count' =>
      let* s := lift (filehdr.ByteToSector h (i * SectorSize)) in
      let* data := synchdisk.ReadSector s in
      let* rest := read_sectors count' (i + 1) h in
      ret (data ++ rest)
  end.

(** Modelled from the spec: part of [WriteAt]; [buf] written to the
    sectors [read_sectors] reads. *)
Fixpoint write_sectors (count : nat) (i : Z) (h : filehdr.FileHeader)
    (buf : list Z) : M unit :=
  match count with
  | O => ret tt
  | S count' =>
      let* s := lift (filehdr.ByteToSector h (i * SectorSize)) in
      let* _ := synchdisk.WriteSector s (take (Z.to_nat SectorSize) buf) in
      write_sectors count' (i + 1) h (drop (Z.to_nat SectorSize) buf)
  end.

(** Modelled from the spec: "Byte-level read/write over an inode": the
    bytes of the file from [position] on, at most [numBytes] of them and
    none beyond the file's length. *)
Definition ReadAt (f : OpenFile) (numBytes position : Z) : M (list Z) :=
  let fileLength := filehdr.FileLength (hdr f) in
  if (numBytes <=? 0) || (position >=? fileLength) || (position <? 0) then ret []
  else
    let numBytes :=
      if position + numBytes >? fileLength then fileLength - position else numBytes in
    let firstSector := divRoundDown position SectorSize in
    let lastSector := divRoundDown (position + numBytes - 1) SectorSize in
    let* buf := read_sectors (Z.to_nat (1 + lastSector - firstSector)) firstSector (hdr f) in
    ret (take (Z.to_nat numBytes)
           (drop (Z.to_nat (position - firstSector * SectorSize)) buf)).

(** Modelled from the spec: see [ReadAt]; the sectors touched are read,
    overlaid with the new bytes and written back.  Returns the number of
    bytes written. *)
Definition WriteAt (f : OpenFile) (from : list Z) (numBytes position : Z) : M Z :=
  let fileLength := filehdr.FileLength (hdr f) in
  if (numBytes <=? 0) || (position >=? fileLength) || (position <? 0) then ret 0
  else
    let numBytes :=
      if position + numBytes >? fileLength then fileLength - position else numBytes in
    let firstSector := divRoundDown position SectorSize in
    let lastSector := divRoundDown (position + numBytes - 1) SectorSize in
    let numSectors := Z.to_nat (1 + lastSector - firstSector) in
    let* buf := read_sectors numSectors firstSector (hdr f) in
    let buf := memcpy buf (Z.to_nat (position - firstSector * SectorSize))
                 (take (Z.to_nat numBytes) from) in
    let* _ := write_sectors numSectors firstSector (hdr f) buf in
    ret numBytes.

End Handle.
End openfile.

(** ** The free map as a file *)

Module pbitmap.
Section Persistent.
Context `{G : Geometry}.

(** Modelled from the spec: the byte of up to eight bits, "packed
    LSB-first". *)
Fixpoint pack_byte (bits : list bool) : Z :=
  match bits with
  | [] => 0
  | b :: bits' => Z.b2z b + 2 * pack_byte bits'
  end.

(** Modelled from the spec: [pbitmap.cc] is not at hand.  "Bitmap file
    contents: NumSectors bits packed LSB-first into bytes; file length =
    ceil(NumSectors/8)." *)
Definition num_bytes (numBits : nat) : nat := (numBits + 7) / 8.

(** Modelled from the spec: the bytes of a map, see [num_bytes]. *)
Definition pack (b : bitmap.Bitmap) : list Z :=
  (fun k => pack_byte (take 8 (drop (8 * k) b))) <$> seq 0 (num_bytes (length b)).

(** Modelled from the spec: the map of [numBits] bits held by bytes, see
    [num_bytes]. *)
Definition unpack (bytes : list Z) (numBits : nat) : bitmap.Bitmap :=
  (fun i => Z.testbit (byte_at bytes (i / 8)) (Z.of_nat (i mod 8))) <$> seq 0 numBits.

(** Modelled from the spec: "FetchFrom(openFile) / WriteBack(openFile):
    serialize the bit array as the body of a file". *)
Definition FetchFrom (b : bitmap.Bitmap) (file : openfile.OpenFile) : M bitmap.Bitmap :=
  let* bytes := openfile.ReadAt file (Z.of_nat (num_bytes (length b))) 0 in
  ret (unpack (memcpy (pack b) 0 bytes) (length b)).

(** Modelled from the spec: see [FetchFrom]. *)
Definition WriteBack (b : bitmap.Bitmap) (file : openfile.OpenFile) : M unit :=
  let* _ := openfile.WriteAt file (pack b) (Z.of_nat (num_bytes (length b))) 0 in
  ret tt.

(** Modelled from the spec: the constructor
    PersistentBitmap(file, numItems), "temporary bitmap loaded from disk":
    a fresh map of numItems bits fetched from the file. *)
Definition load (file : openfile.OpenFile) (numItems : Z) : M bitmap.Bitmap :=
  FetchFrom (bitmap.new numItems) file.

End Persistent.
End pbitmap.

(** ** Directories *)

Module directory.

(** Modelled from the spec: [directory.h] is not at hand.  "Directory
    entry: { inUse: bool, isDir: bool, sector: sector address of first
    inode, name: bounded string }". *)
Record DirectoryEntry := mkEntry {
  inUse : bool;
  isDir : bool;
  sector : Z;
  name : string
}.

(** Modelled from the spec: "Directory: a fixed-capacity array of
    NumDirEntries entries"; tableSize is the length of the list. *)
Abbreviation Directory := (list DirectoryEntry).

(** Modelled from the spec: the bytes of a name, for its "fixed-length
    zero-padded" image. *)
Definition string_bytes (s : string) : list Z :=
  (fun c => Z.of_nat (nat_of_ascii c)) <$> list_ascii_of_string s.

(** Modelled from the spec: the name held by a "zero-padded" field: the
    bytes before the first NUL. *)
Fixpoint c_string (bytes : list Z) : string :=
  match bytes with
  | [] => EmptyString
  | b :: bytes' =>
      if b =? 0 then EmptyString
      else String (ascii_of_nat (Z.to_nat b)) (c_string bytes')
  end.

Section Table.
Context `{G : Geometry}.

(** Modelled from the spec: [directory.cc] is not at hand.  "Directory file
    contents: array of NumDirEntries records, each {inUse: bool/byte,
    isDir: bool/byte, sector: int32, name: fixed-length zero-padded
    bytes}". *)
Definition entry_size : nat := 6 + Z.to_nat FileNameMaxLen + 1.

(** Modelled from the spec: a name's "maximum length is bounded by the
    entry record". *)
Definition truncate (s : string) : string := substring 0 (Z.to_nat FileNameMaxLen) s.

(** Modelled from the spec: "name: fixed-length zero-padded bytes". *)
Definition encode_name (s : string) : list Z :=
  let bytes := string_bytes (truncate s) in
  bytes ++ replicate (Z.to_nat FileNameMaxLen + 1 - length bytes) 0.

(** Modelled from the spec: the record of [entry_size] bytes, fields in
    the order given there. *)
Definition encode_entry (e : DirectoryEntry) : list Z :=
  [Z.b2z (inUse e); Z.b2z (isDir e)] ++ encode_int (sector e) ++ encode_name (name e).

(** Modelled from the spec: the entry held by the record at [off]. *)
Definition decode_entry (buf : list Z) (off : nat) : DirectoryEntry :=
  {| inUse := negb (byte_at buf off =? 0);
     isDir := negb (byte_at buf (off + 1) =? 0);
     sector := decode_int buf (off + 2);
     name := c_string (take (Z.to_nat FileNameMaxLen + 1) (drop (off + 6) buf)) |}.

(** Modelled from the spec: "array of NumDirEntries records". *)
Definition encode_table (table : Directory) : list Z := concat (encode_entry <$> table).

(** Modelled from the spec: see [encode_table]. *)
Definition decode_table (buf : list Z) (size : nat) : Directory :=
  (fun i => decode_entry buf (i * entry_size)) <$> seq 0 size.

(** Modelled from the spec: a fresh directory has no entry in use. *)
Definition new (size : Z) : Directory :=
  replicate (Z.to_nat size)
    {| inUse := false; isDir := false; sector := 0; name := EmptyString |}.

(** Modelled from the spec: "FetchFrom(openFile) / WriteBack(openFile):
    (de)serialize the entry array as the file's contents." *)
Definition FetchFrom (table : Directory) (file : openfile.OpenFile) : M Directory :=
  let* bytes := openfile.ReadAt file (Z.of_nat (length table * entry_size)) 0 in
  ret (decode_table (memcpy (encode_table table) 0 bytes) (length table)).

(** Modelled from the spec: see [FetchFrom]. *)
Definition WriteBack (table : Directory) (file : openfile.OpenFile) : M unit :=
  let* _ := openfile.WriteAt file (encode_table table)
              (Z.of_nat (length table * entry_size)) 0 in
  ret tt.

(** Modelled from the spec: "within one directory, names are compared
    byte-wise and case-sensitively; maximum length is bounded by the entry
    record." *)
Definition same_name (a b : string) : bool := String.eqb (truncate a) (truncate b).

(** Modelled from the spec: the index of the entry in use under the name,
    -1 when there is none; shared by [Find], [IsDir], [Add], [Remove]. *)
Fixpoint FindIndex (table : Directory) (name' : string) (i : Z) : Z :=
  match table with
  | [] => -1
  | e :: table' =>
      if inUse e && same_name (name e) name' then i
      else FindIndex table' name' (i + 1)
  end.

(** Modelled from the spec: "Find(name) -> sector or -1". *)
Definition Find (table : Directory) (name' : string) : Z :=
  let i := FindIndex table name' 0 in
  if negb (i =? -1) then
    match table !! Z.to_nat i with
    | Some e => sector e
    | None => -1
    end
  else -1.

(** Modelled from the spec: "IsDir(name) -> bool". *)
Definition IsDir (table : Directory) (name' : string) : bool :=
  let i := FindIndex table name' 0 in
  if negb (i =? -1) then
    match table !! Z.to_nat i with
    | Some e => isDir e
    | None => false
    end
  else false.

(** Modelled from the spec: "the first !inUse slot", if any. *)
Fixpoint first_free (table : Directory) : option nat :=
  match table with
  | [] => None
  | e :: table' => if inUse e then S <$> first_free table' else Some O
  end.

(** Modelled from the spec: "Add(name, sector, isDir) -> bool: find the
    first !inUse slot, populate it, set inUse; returns false when full or
    when name already present." *)
Definition Add (table : Directory) (name' : string) (newSector : Z) (dir : bool)
  : bool * Directory :=
  if negb (FindIndex table name' 0 =? -1) then (false, table)
  else match first_free table with
       | Some i =>
           (true, <[i := {| inUse := true; isDir := dir; sector := newSector;
                            name := truncate name' |}]> table)
       | None => (false, table)
       end.

(** Modelled from the spec: "Remove(name) -> bool: clear inUse on the
    matching slot." *)
Definition Remove (table : Directory) (name' : string) : bool * Directory :=
  let i := FindIndex table name' 0 in
  if i =? -1 then (false, table)
  else match table !! Z.to_nat i with
       | Some e =>
           (true, <[Z.to_nat i := {| inUse := false; isDir := isDir e;
                                     sector := sector e; name := name e |}]> table)
       | None => (false, table)
       end.

(** Modelled from the spec: "List(recursive, indent): print entries; when
    recursive and isDir, fetch the sub-directory file from the entry's
    sector and recurse."  What is printed is returned, a line per entry in
    use: its indentation and its name.  [Diverges] when the tree found on
    the disk is deeper than [fuel]. *)
Fixpoint List (fuel : nat) (table : Directory) (recursion : bool) (indent : Z)
  : M (list (Z * string)) :=
  match fuel with
  | O => stop Diverges
  | S fuel' =>
      (fix entries (es : Directory) : M (list (Z * string)) :=
         match es with
         | [] => ret []
         | e :: es' =>
             if inUse e then
               let* below :=
                 if recursion && isDir e then
                   let* file := openfile.new (sector e) in
                   let* sub := FetchFrom (new NumDirEntries) file in
                   List fuel' sub recursion (to_int (indent + 1))
                 else ret [] in
               let* rest := entries es' in
               ret ((indent, name e) :: below ++ rest)
             else entries es'
         end) table
  end.

End Table.
End directory.

(** ** The file system ([filesys.cc]) *)

Module filesys.

Record FileSystem := mkFileSystem {
  freeMapFile : openfile.OpenFile;
  directoryFile : openfile.OpenFile;
  fileDescriptorTable : list (option openfile.OpenFile);
  openedNum : Z
}.

(* strtok(path, "/"), strtok(NULL, "/"), ...: the maximal runs of characters
   other than '/'; [cur] is the run being read. *)
Fixpoint strtok_all (s : string) (cur : string) : list string :=
  match s with
  | EmptyString => if String.eqb cur EmptyString then [] else [cur]
  | String c s' =>
      if Ascii.eqb c "/"%char
      then if String.eqb cur EmptyString then strtok_all s' EmptyString
           else cur :: strtok_all s' EmptyString
      else strtok_all s' (cur ++ String c EmptyString)%string
  end.

Section Facade.
Context `{G : Geometry}.

(** Modelled from the spec: [filesys.h] is not at hand.  "FreeMapSector = 0,
    DirectorySector = 1"; the two files are "sized to FreeMapFileSize and
    DirectoryFileSize respectively, pre-computed from NumSectors and
    NumDirEntries". *)
Definition FreeMapSector : Z := 0.
Definition DirectorySector : Z := 1.
Definition FreeMapFileSize : Z := Z.of_nat (pbitmap.num_bytes (Z.to_nat NumSectors)).
Definition DirectoryFileSize : Z := Z.of_nat directory.entry_size * NumDirEntries.

(* char targetPath[500]; strcpy(targetPath, path); *)
Definition strcpy_500 (path : string) : M string :=
  if (String.length path <? 500)%nat then ret path else stop (WildIndex 500).

(* FileSystem::FileSystem.  The loop gives a value to the cells
   0 .. MAXFILENUM-1 of fileDescriptorTable: those are the cells of the
   list. *)
Definition FileSystem_new (format : bool) : M FileSystem :=
  let table := replicate (Z.to_nat MAXFILENUM) None in
  if format then
    let freeMap := bitmap.new NumSectors in
    let directory := directory.new NumDirEntries in
    let* freeMap := lift (bitmap.Mark freeMap FreeMapSector) in
    let* freeMap := lift (bitmap.Mark freeMap DirectorySector) in
    let* (r, mapHdr, freeMap) := filehdr.Allocate filehdr.new freeMap FreeMapFileSize in
    let* _ := ASSERT (negb (r =? 0)) in
    let* (r, dirHdr, freeMap) := filehdr.Allocate filehdr.new freeMap DirectoryFileSize in
    let* _ := ASSERT (negb (r =? 0)) in
    let* _ := filehdr.WriteBack mapHdr FreeMapSector in
    let* _ := filehdr.WriteBack dirHdr DirectorySector in
    let* freeMapFile := openfile.new FreeMapSector in
    let* directoryFile := openfile.new DirectorySector in
    let* _ := pbitmap.WriteBack freeMap freeMapFile in
    let* _ := directory.WriteBack directory directoryFile in
    ret (mkFileSystem freeMapFile directoryFile table 0)
  else
    let* freeMapFile := openfile.new FreeMapSector in
    let* directoryFile := openfile.new DirectorySector in
    ret (mkFileSystem freeMapFile directoryFile table 0).

(* The while loop of FindSubDir: [token] is the current token, [rest] the
   tokens strtok has still to yield, so nextToken is its head. *)
Fixpoint walk (rest : list string) (token : string)
    (curDirFile : openfile.OpenFile) (curDir : directory.Directory)
  : M (option (openfile.OpenFile * string)) :=
  match rest with
  | nextToken :: rest' =>
      if directory.IsDir curDir token then
        let sector := directory.Find curDir token in
        if sector =? -1 then ret None
        else
          let* curDirFile := openfile.new sector in
          let* curDir := directory.FetchFrom curDir curDirFile in
          walk rest' nextToken curDirFile curDir
      else ret (Some (curDirFile, token))
  | [] => ret (Some (curDirFile, token))
  end.

(* FileSystem::FindSubDir.  The result is the handle returned, paired with
   what the call leaves in subDirPath; [None] is the NULL handle. *)
Definition FindSubDir (fs : FileSystem) (subDirPath : string)
  : M (option (openfile.OpenFile * string)) :=
  let* curDir := directory.FetchFrom (directory.new NumDirEntries) (directoryFile fs) in
  match strtok_all subDirPath EmptyString with
  | [] => ret None
  | token :: rest => walk rest token (directoryFile fs) curDir
  end.

(* FileSystem::Create *)
Definition Create (fs : FileSystem) (path : string) (initialSize : Z) (isDir : bool)
  : M bool :=
  let initialSize := if isDir then DirectoryFileSize else initialSize in
  let directory := directory.new NumDirEntries in
  let* targetPath := strcpy_500 path in
  let* found := FindSubDir fs targetPath in
  match found with
  | None => ret false
  | Some (curDirFile, targetPath) =>
      let* directory := directory.FetchFrom directory curDirFile in
      if negb (directory.Find directory targetPath =? -1) then ret false
      else
        let* freeMap := pbitmap.load (freeMapFile fs) NumSectors in
        let '(sector, freeMap) := bitmap.FindAndSet freeMap in
        if sector =? -1 then ret false
        else
          let '(added, directory) := directory.Add directory targetPath sector isDir in
          if negb added then ret false
          else
            let* (totalSize, hdr, freeMap) :=
              filehdr.Allocate filehdr.new freeMap initialSize in
            if totalSize =? 0 then ret false
            else
              let* _ := filehdr.WriteBack hdr sector in
              let* _ := directory.WriteBack directory curDirFile in
              let* _ := pbitmap.WriteBack freeMap (freeMapFile fs) in
              ret true
  end.

(* for (int ID = 1; ID <= MAXFILENUM; ID++) if (fileDescriptorTable[ID] == NULL) ...
   [count] is the number of values of ID still to try. *)
Fixpoint free_slot (count : nat) (ID : Z) (table : list (option openfile.OpenFile))
  : Res (option Z) :=
  match count with
  | O => Ret None
  | S count' =>
      match array_get table ID with
      | Ret None => Ret (Some ID)
      | Ret (Some _) => free_slot count' (ID + 1) table
      | Stop f => Stop f
      end
  end.

(* FileSystem::Open *)
Definition Open (fs : FileSystem) (path : string)
  : M (FileSystem * (option openfile.OpenFile * Z)) :=
  let directory := directory.new NumDirEntries in
  let* targetPath := strcpy_500 path in
  let* found := FindSubDir fs targetPath in
  match found with
  | None => ret (fs, (None, -1))
  | Some (curDirFile, targetPath) =>
      let* directory := directory.FetchFrom directory curDirFile in
      let sector := directory.Find directory targetPath in
      if openedNum fs =? MAXFILENUM then ret (fs, (None, -1))
      else if negb (0 <=? sector) then ret (fs, (None, -1))
      else
        let* openFile := openfile.new sector in
        let* slot := lift (free_slot (Z.to_nat MAXFILENUM) 1 (fileDescriptorTable fs)) in
        match slot with
        | Some ID =>
            let* table := lift (array_set (fileDescriptorTable fs) ID (Some openFile)) in
            ret (mkFileSystem (freeMapFile fs) (directoryFile fs) table
                   (to_int (openedNum fs + 1)),
                 (Some openFile, ID))
        | None => ret (fs, (None, -1))
        end
  end.

(* The for loop of Remove over the table of the sub-directory. *)
Fixpoint remove_entries (rm : string -> M bool) (path : string)
    (table : directory.Directory) : M unit :=
  match table with
  | [] => ret tt
  | e :: table' =>
      let* _ :=
        if directory.inUse e
        then rm (path ++ "/" ++ directory.name e)%string
        else ret false in
      remove_entries rm path table'
  end.

(* FileSystem::Remove.  The recursion follows the directory tree found on
   the disk; [Diverges] when it is deeper than [fuel]. *)
Fixpoint Remove (fuel : nat) (fs : FileSystem) (recursion : bool) (path : string)
  : M bool :=
  match fuel with
  | O => stop Diverges
  | S fuel' =>
      let directory := directory.new NumDirEntries in
      let* targetPath := strcpy_500 path in
      let* found := FindSubDir fs targetPath in
      match found with
      | None => ret false
      | Some (curDirFile, targetPath) =>
          let* directory := directory.FetchFrom directory curDirFile in
          let sector := directory.Find directory targetPath in
          if sector =? -1 then ret false
          else
            let* _ :=
              if directory.IsDir directory targetPath && recursion then
                let* subDirFile := openfile.new sector in
                let* subDir :=
                  directory.FetchFrom (directory.new NumDirEntries) subDirFile in
                let* childPath := strcpy_500 path in
                remove_entries (Remove fuel' fs recursion) childPath subDir
              else ret tt in
            let* fileHdr := filehdr.FetchFrom filehdr.new sector in
            let* freeMap := pbitmap.load (freeMapFile fs) NumSectors in
            let* freeMap := filehdr.Deallocate fileHdr freeMap in
            let* freeMap := lift (bitmap.Clear freeMap sector) in
            let '(_, directory) := directory.Remove directory targetPath in
            let* _ := pbitmap.WriteBack freeMap (freeMapFile fs) in
            let* _ := directory.WriteBack directory curDirFile in
            ret false
      end
  end.

(* FileSystem::List.  The result is what Directory::List prints, [None]
   when the call returns without listing anything; [fuel] bounds the depth
   of the tree Directory::List goes down. *)
Definition List (fuel : nat) (fs : FileSystem) (recursion : bool) (dirPath : string)
  : M (option (list (Z * string))) :=
  if String.eqb dirPath "/" then
    let* directory :=
      directory.FetchFrom (directory.new NumDirEntries) (directoryFile fs) in
    let* lines := directory.List fuel directory recursion 0 in
    ret (Some lines)
  else
    let* targetPath := strcpy_500 dirPath in
    let* found := FindSubDir fs targetPath in
    match found with
    | None => ret None
    | Some (conDirFile, targetPath) =>
        let* conDir := directory.FetchFrom (directory.new NumDirEntries) conDirFile in
        let targetSector := directory.Find conDir targetPath in
        let* _ := ASSERT (0 <=? targetSector) in
        let* targetDirFile := openfile.new targetSector in
        let* targetDir :=
          directory.FetchFrom (directory.new NumDirEntries) targetDirFile in
        let* lines := directory.List fuel targetDir recursion 0 in
        ret (Some lines)
    end.

End Facade.
End filesys.

(** ** A concrete build

    128-byte sectors, 64 of them; 29 direct pointers, the most that fit a
    sector next to the three scalar fields; 10 directory entries; names of
    9 characters; 20 descriptors; local buffers start out filled with 0xAA. *)

Definition nachos : Geometry :=
  {| SectorSize := 128;
     NumSectors := 64;
     NumDirect := 29;
     NumDirEntries := 10;
     FileNameMaxLen := 9;
     MAXFILENUM := 20;
     stack_junk := fun _ => 170 |}.

(* A disk of [n] sectors with nothing but zeros on it. *)
Definition blank_disk `{Geometry} (n : Z) : Disk :=
  replicate (Z.to_nat n) (replicate (Z.to_nat SectorSize) 0).

(** ** What the statements speak of *)

(** What the theorems ask of the constants: sizes are positive and the
    quantities the code computes from them fit an [int]. *)
Definition ints_fit `{Geometry} : Prop :=
  0 < SectorSize /\ 0 < NumDirect /\ 0 <= NumSectors /\
  NumDirect * SectorSize < 2 ^ 31 /\ SectorSize * (NumSectors + 1) < 2 ^ 31.

(** A header, as FetchFrom and WriteBack lay it out, fits one sector. *)
Definition header_fits `{Geometry} : Prop := filehdr.header_bytes <= SectorSize.

(** A disk of NumSectors sectors. *)
Definition disk_ok `{Geometry} (d : Disk) : Prop := Z.of_nat (length d) = NumSectors.

(** The [numBytes] of the segments of a chain, head first. *)
Fixpoint segment_bytes (h : filehdr.FileHeader) : list Z :=
  filehdr.numBytes h ::
  match filehdr.nextFileHeader h with
  | Some next => segment_bytes next
  | None => []
  end.

(** Every segment that names a successor sector holds MaxFileSize bytes. *)
Fixpoint nonterminal_full `{Geometry} (h : filehdr.FileHeader) : Prop :=
  (filehdr.nextFileHeaderSector h <> -1 -> filehdr.numBytes h = filehdr.MaxFileSize) /\
  match filehdr.nextFileHeader h with
  | Some next => nonterminal_full next
  | None => True
  end.

(** The sectors WriteBack writes for the successors of a chain. *)
Fixpoint successor_sectors (h : filehdr.FileHeader) : list Z :=
  match filehdr.nextFileHeader h with
  | Some next => filehdr.nextFileHeaderSector h :: successor_sectors next
  | None => []
  end.

(** The in-memory pointer and the on-disk link agree, the fields are
    [int]s and the table has NumDirect cells: what holds of every header
    the code builds. *)
Fixpoint chain_ok `{Geometry} (h : filehdr.FileHeader) : Prop :=
  int_range (filehdr.numBytes h) /\ int_range (filehdr.numSectors h) /\
  int_range (filehdr.nextFileHeaderSector h) /\
  length (filehdr.dataSectors h) = Z.to_nat NumDirect /\
  Forall int_range (filehdr.dataSectors h) /\
  match filehdr.nextFileHeader h with
  | Some next => filehdr.nextFileHeaderSector h <> -1 /\ chain_ok next
  | None => filehdr.nextFileHeaderSector h = -1
  end.

(** The sector WriteBack writes for the head of a chain. *)
Definition header_image `{Geometry} (h : filehdr.FileHeader) : Sector :=
  memcpy (memcpy (memcpy (memcpy filehdr.uninitialised_buffer
    0 (encode_int (filehdr.numBytes h)))
    4 (encode_int (filehdr.numSectors h)))
    8 (encode_int (filehdr.nextFileHeaderSector h)))
    12 (encode_ints (filehdr.dataSectors h)).

(** The sectors a chain written at [sector] occupies all lie on the disk
    and no two of them coincide. *)
Definition placed `{Geometry} (sector : Z) (h : filehdr.FileHeader) : Prop :=
  NoDup (sector :: successor_sectors h) /\
  Forall (fun s => 0 <= s < NumSectors) (sector :: successor_sectors h).

(** The cells of the dataSectors tables of a chain, head first. *)
Fixpoint all_data (h : filehdr.FileHeader) : list Z :=
  filehdr.dataSectors h ++
  match filehdr.nextFileHeader h with
  | Some next => all_data next
  | None => []
  end.

(** Sector [v] was clear in the map [before] and is in use in [after]. *)
Definition taken (before after : bitmap.Bitmap) (v : Z) : Prop :=
  0 <= v /\ before !! Z.to_nat v = Some false /\ after !! Z.to_nat v = Some true.

(** The successor FetchFrom goes on to from sector [s]: the link stored
    there, when the sector can be read and the link is not -1. *)
Definition link `{Geometry} (d : Disk) (s : Z) : option Z :=
  match synchdisk.ReadSector s d with
  | Ret (buf, _) =>
      if filehdr.header_bytes <=? SectorSize
      then if decode_int buf 8 =? -1 then None else Some (decode_int buf 8)
      else None
  | Stop _ => None
  end.

(** The sector reached from [s] along [k] links, when there are that many. *)
Fixpoint follow `{Geometry} (d : Disk) (k : nat) (s : Z) : option Z :=
  match k with
  | O => Some s
  | S k' =>
      match link d s with
      | Some n => follow d k' n
      | None => None
      end
  end.

(** A computation that only reads the disk. *)
Definition readonly {A} (m : M A) : Prop :=
  forall d a d', m d = Ret (a, d') -> d' = d.

(** The cells of a dataSectors table that name a sector; the others hold
    the -1 the constructor put there. *)
Fixpoint named (cells : list Z) : list Z :=
  match cells with
  | [] => []
  | v :: cells' => if 0 <=? v then v :: named cells' else named cells'
  end.

(** The sectors a chain holds, in the order Allocate takes them from the
    free map: the data sectors of a segment, then the sector of the header
    of its successor. *)
Fixpoint sectors_held (h : filehdr.FileHeader) : list Z :=
  named (filehdr.dataSectors h) ++
  match filehdr.nextFileHeader h with
  | Some next => filehdr.nextFileHeaderSector h :: sectors_held next
  | None => []
  end.

(** The data sectors among them. *)
Fixpoint data_held (h : filehdr.FileHeader) : list Z :=
  named (filehdr.dataSectors h) ++
  match filehdr.nextFileHeader h with
  | Some next => data_held next
  | None => []
  end.

(** The headers and the sectors a file of [size] bytes needs: a header for
    every MaxFileSize bytes (one at least), a sector for every SectorSize
    bytes, and a sector for every header but the first. *)
Definition segments_for `{Geometry} (size : Z) : Z :=
  Z.max 1 ((size + filehdr.MaxFileSize - 1) / filehdr.MaxFileSize).
Definition sectors_for `{Geometry} (size : Z) : Z :=
  (size + SectorSize - 1) / SectorSize + (segments_for size - 1).

(** A chain that holds a file of [size] bytes: each segment has the bytes
    and the sectors Allocate computes for it, its first numSectors cells
    name sectors and the others are unset, and the chain goes on exactly
    while more than MaxFileSize bytes are left. *)
Fixpoint laid_out `{Geometry} (h : filehdr.FileHeader) (size : Z) : Prop :=
  filehdr.numBytes h = Z.min size filehdr.MaxFileSize /\
  filehdr.numSectors h = (filehdr.numBytes h + SectorSize - 1) / SectorSize /\
  length (named (filehdr.dataSectors h)) = Z.to_nat (filehdr.numSectors h) /\
  filehdr.dataSectors h =
    named (filehdr.dataSectors h) ++
    replicate (Z.to_nat NumDirect - Z.to_nat (filehdr.numSectors h)) (-1) /\
  match filehdr.nextFileHeader h with
  | Some next => filehdr.MaxFileSize < size /\ laid_out next (size - filehdr.MaxFileSize)
  | None => size <= filehdr.MaxFileSize
  end.

(** The number of cells of a descriptor table that hold a file. *)
Fixpoint open_count (table : list (option openfile.OpenFile)) : Z :=
  match table with
  | [] => 0
  | Some _ :: table' => 1 + open_count table'
  | None :: table' => open_count table'
  end.

(** The descriptor table as the constructor and Open keep it: MAXFILENUM
    cells, cell 0 free, and openedNum the number of cells in use. *)
Definition descriptors_ok `{Geometry} (fs : filesys.FileSystem) : Prop :=
  Z.of_nat (length (filesys.fileDescriptorTable fs)) = MAXFILENUM /\
  filesys.fileDescriptorTable fs !! O = Some None /\
  filesys.openedNum fs = open_count (filesys.fileDescriptorTable fs).

(** An entry as a fresh table has it and as Add fills it: the sector is an
    [int], the name fits the record and holds no NUL. *)
Definition normal_entry `{Geometry} (e : directory.DirectoryEntry) : Prop :=
  int_range (directory.sector e) /\
  (String.length (directory.name e) <= Z.to_nat FileNameMaxLen)%nat /\
  ("000"%char ∉ list_ascii_of_string (directory.name e)).

(** The data sectors of the free-map file and of the root directory file. *)
Definition system_data (fs : filesys.FileSystem) : list Z :=
  data_held (openfile.hdr (filesys.freeMapFile fs)) ++
  data_held (openfile.hdr (filesys.directoryFile fs)).

(** The file whose first header is at [sector] is on the disk with the
    chain [h]: FetchFrom finds [h] there, [h] is laid out for some size,
    and the header sector and the sectors the chain holds are pairwise
    distinct, in use in [freeMap] and none of them a data sector of the
    two system files. *)
Definition stored `{Geometry} (fs : filesys.FileSystem) (d : Disk)
    (freeMap : bitmap.Bitmap) (sector : Z) (h : filehdr.FileHeader) : Prop :=
  filehdr.FetchFrom filehdr.new sector d = Ret (h, d) /\
  (exists size, 0 <= size < 2 ^ 31 /\ laid_out h size) /\
  NoDup (sector :: sectors_held h) /\
  Forall (fun s => 0 <= s /\ freeMap !! Z.to_nat s = Some true /\ (s ∉ system_data fs))
    (sector :: sectors_held h).

(** Two entries are apart: their names differ within the length a record
    keeps, and the files they name have no sector in common. *)
Definition apart `{Geometry} (fs : filesys.FileSystem) (d : Disk)
    (freeMap : bitmap.Bitmap) (e1 e2 : directory.DirectoryEntry) : Prop :=
  directory.same_name (directory.name e1) (directory.name e2) = false /\
  forall h1 h2,
    stored fs d freeMap (directory.sector e1) h1 ->
    stored fs d freeMap (directory.sector e2) h2 ->
    forall s, s ∈ directory.sector e1 :: sectors_held h1 ->
              s ∉ directory.sector e2 :: sectors_held h2.

(** The two system files of [fs] are laid out over separate sectors of
    the disk [d], each holding SectorSize bytes. *)
Definition system_files `{Geometry} (fs : filesys.FileSystem) (d : Disk) : Prop :=
  disk_ok d /\
  laid_out (openfile.hdr (filesys.freeMapFile fs)) filesys.FreeMapFileSize /\
  laid_out (openfile.hdr (filesys.directoryFile fs)) filesys.DirectoryFileSize /\
  NoDup (system_data fs) /\
  Forall (fun s => 0 <= s < NumSectors /\
            exists data, d !! Z.to_nat s = Some data /\
                         length data = Z.to_nat SectorSize)
    (system_data fs).

(** The disk [d] holds the file system [fs] has open, with the free map
    [freeMap] and the root directory [root]: the data sectors of the two
    system files are in use in [freeMap]; the free-map file holds
    [freeMap] and the directory file holds [root]; every entry of [root]
    that is in use names a file that is stored; and any two entries in use
    are apart. *)
Definition mounted `{Geometry} (fs : filesys.FileSystem) (d : Disk)
    (freeMap : bitmap.Bitmap) (root : directory.Directory) : Prop :=
  system_files fs d /\
  Forall (fun s => freeMap !! Z.to_nat s = Some true) (system_data fs) /\
  pbitmap.load (filesys.freeMapFile fs) NumSectors d = Ret (freeMap, d) /\
  directory.FetchFrom (directory.new NumDirEntries) (filesys.directoryFile fs) d
    = Ret (root, d) /\
  Forall normal_entry root /\
  Forall (fun e => directory.inUse e = true ->
            exists h, stored fs d freeMap (directory.sector e) h) root /\
  forall i j ei ej,
    i <> j -> root !! i = Some ei -> root !! j = Some ej ->
    directory.inUse ei = true -> directory.inUse ej = true ->
    apart fs d freeMap ei ej.

(** ** Fixtures for the concrete build *)

(* A free map of 64 bits: the first [64 - n] in use, the last [n] clear. *)
Definition map_with_clear (n : nat) : bitmap.Bitmap :=
  replicate (64 - n) true ++ replicate n false.

(* What a computation returns and the disk it leaves; [dflt] and the disk
   as it was when the computation stops. *)
Definition run {A} (m : M A) (d : Disk) (dflt : A) : A * Disk :=
  match m d with
  | Ret x => x
  | Stop _ => (dflt, d)
  end.

Definition no_file : openfile.OpenFile :=
  openfile.mkOpenFile (filehdr.mkFileHeader 0 0 [] None (-1)) 0.
Definition no_fs : filesys.FileSystem := filesys.mkFileSystem no_file no_file [] 0.

Section Fixtures.
#[local] Existing Instance nachos.

(* The number of clear bits in the free map stored on the disk. *)
Definition free_on_disk (fs : filesys.FileSystem) (d : Disk) : option Z :=
  match pbitmap.load (filesys.freeMapFile fs) NumSectors d with
  | Ret (b, _) => Some (bitmap.NumClear b)
  | Stop _ => None
  end.

(* Whether the free map stored on the disk has sector [s] in use. *)
Definition used_on_disk (fs : filesys.FileSystem) (d : Disk) (s : Z) : option bool :=
  match pbitmap.load (filesys.freeMapFile fs) NumSectors d with
  | Ret (b, _) => b !! Z.to_nat s
  | Stop _ => None
  end.

(* What Find answers in the root directory stored on the disk. *)
Definition root_lookup (fs : filesys.FileSystem) (d : Disk) (name : string) : option Z :=
  match directory.FetchFrom (directory.new NumDirEntries) (filesys.directoryFile fs) d with
  | Ret (dir, _) => Some (directory.Find dir name)
  | Stop _ => None
  end.

(* new FileSystem(TRUE) on a blank disk *)
Definition formatted : filesys.FileSystem * Disk :=
  run (filesys.FileSystem_new true) (blank_disk 64) no_fs.
Definition fs0 : filesys.FileSystem := fst formatted.
Definition disk0 : Disk := snd formatted.

(* ... then Create("/a", 100, FALSE) *)
Definition disk_a : Disk := snd (run (filesys.Create fs0 "/a" 100 false) disk0 false).

(* ... or Create("/big", MaxFileSize + 1, FALSE) *)
Definition disk_big : Disk :=
  snd (run (filesys.Create fs0 "/big" (filehdr.MaxFileSize + 1) false) disk0 false).

(* Open(path) called [n] times in a row *)
Fixpoint open_times (n : nat) (fs : filesys.FileSystem) (path : string)
  : M filesys.FileSystem :=
  match n with
  | O => ret fs
  | S n' =>
      let* (fs', _) := filesys.Open fs path in
      open_times n' fs' path
  end.

(* ... "/a" opened MAXFILENUM - 1 = 19 times *)
Definition fs_19 : filesys.FileSystem := fst (run (open_times 19 fs0 "/a") disk_a no_fs).

(* A chain of two segments, as Allocate builds it for MaxFileSize + 1 bytes
   out of a map whose sectors 0 and 1 are in use. *)
Definition two_segments : filehdr.FileHeader :=
  snd (fst (fst (run (filehdr.Allocate filehdr.new
                        ([true; true] ++ replicate 62 false)
                        (filehdr.MaxFileSize + 1))
                   (blank_disk 64) (0, filehdr.new, [])))).

(* A free map whose sectors 0 and 1 are in use. *)
Definition map_01 : bitmap.Bitmap := [true; true] ++ replicate 62 false.

(* Allocate(freeMap, 5000) on a fresh header, out of that map: the header,
   the map and the disk it leaves. *)
Definition allocated_5000 : Z * filehdr.FileHeader * bitmap.Bitmap * Disk :=
  run (filehdr.Allocate filehdr.new map_01 5000) (blank_disk 64) (0, filehdr.new, []).
Definition hdr_5000 : filehdr.FileHeader := snd (fst (fst allocated_5000)).
Definition map_5000 : bitmap.Bitmap := snd (fst allocated_5000).
Definition disk_5000 : Disk := snd allocated_5000.

(* ... then Deallocate(freeMap) *)
Definition map_freed : bitmap.Bitmap :=
  fst (run (filehdr.Deallocate hdr_5000 map_5000) disk_5000 []).

(* The chain of two segments written at sector 1 of a blank disk. *)
Definition disk_two : Disk :=
  snd (run (filehdr.WriteBack two_segments 1) (blank_disk 64) tt).

(* A disk whose sector 5 holds a header that names sector 5 as its
   successor. *)
Definition looping_disk : Disk :=
  <[5%nat := header_image (filehdr.mkFileHeader 0 0 (replicate 29 (-1)) None 5)]>
    (blank_disk 64).

(* The root directory of the disk that holds "/a". *)
Definition root_a : directory.Directory :=
  fst (run (directory.FetchFrom (directory.new NumDirEntries)
              (filesys.directoryFile fs0)) disk_a []).

(* Open("/a") on that disk. *)
Definition opened_a : filesys.FileSystem * (option openfile.OpenFile * Z) :=
  fst (run (filesys.Open fs0 "/a") disk_a (no_fs, (None, -1))).

Definition fs_1 : filesys.FileSystem := fst opened_a.
Definition file_a : openfile.OpenFile := default no_file (fst (snd opened_a)).

(* A path of 500 characters. *)
Definition long_path : string := string_of_list_ascii (replicate 500 "a"%char).

End Fixtures.

(** * Properties *)

(** ** The monad *)

Lemma bind_Ret {A B} (m : M A) (k : A -> M B) d b d' :
  bind m k d = Ret (b, d') ->
  exists a d1, m d = Ret (a, d1) /\ k a d1 = Ret (b, d').
Proof.
  unfold bind. destruct (m d) as [[a d1]|f]; [eauto | discriminate].
Qed.

Lemma bind_eq {A B} (m : M A) (k : A -> M B) d a d1 :
  m d = Ret (a, d1) -> bind m k d = k a d1.
Proof. unfold bind. now intros ->. Qed.

Lemma bind_Stop {A B} (m : M A) (k : A -> M B) d f :
  m d = Stop f -> bind m k d = Stop f.
Proof. unfold bind. now intros ->. Qed.

Lemma lift_Ret {A} (r : Res A) d a d' :
  lift r d = Ret (a, d') -> r = Ret a /\ d' = d.
Proof. unfold lift. destruct r; [|discriminate]. now intros [= -> ->]. Qed.

Lemma ASSERT_Ret c d u d' : ASSERT c d = Ret (u, d') -> c = true /\ d' = d.
Proof. destruct c; cbn; [|discriminate]. now intros [= _ ->]. Qed.

Lemma ret_Ret {A} (a b : A) d d' : ret a d = Ret (b, d') -> a = b /\ d' = d.
Proof. now intros [= -> ->]. Qed.

(* From "(let* x := m in k) d = Ret r": the result [a] of m, the disk [d1]
   it leaves, the equation [H1] saying so; H becomes the one of k. *)
Tactic Notation "bind_inv" hyp(H) "as" simple_intropattern(a) ident(d1) ident(H1) :=
  apply bind_Ret in H as (a & d1 & H1 & H); cbv beta in H.
Tactic Notation "lift_inv" hyp(H) "as" simple_intropattern(a) ident(H1) :=
  let d1 := fresh "d" in
  apply bind_Ret in H as (a & d1 & H1 & H); cbv beta in H;
  apply lift_Ret in H1 as [H1 ->].
Tactic Notation "assert_inv" hyp(H) "as" ident(H1) :=
  let d1 := fresh "d" in let u := fresh "u" in
  apply bind_Ret in H as (u & d1 & H1 & H); cbv beta in H;
  apply ASSERT_Ret in H1 as [H1 ->].

Lemma readonly_ret {A} (a : A) : readonly (ret a).
Proof. intros d b d' [= _ ->]. reflexivity. Qed.

Lemma readonly_stop {A} f : readonly (@stop A f).
Proof. intros d b d'. discriminate. Qed.

Lemma readonly_lift {A} (r : Res A) : readonly (lift r).
Proof. intros d b d' E. now apply lift_Ret in E. Qed.

Lemma readonly_ASSERT c : readonly (ASSERT c).
Proof. intros d b d' E. now apply ASSERT_Ret in E. Qed.

Lemma readonly_bind {A B} (m : M A) (k : A -> M B) :
  readonly m -> (forall a, readonly (k a)) -> readonly (bind m k).
Proof.
  intros Hm Hk d b d' E. apply bind_Ret in E as (a & d1 & E1 & E2).
  apply Hm in E1 as ->. now apply Hk in E2.
Qed.

Create HintDb readonly.
#[local] Hint Resolve readonly_ret readonly_stop readonly_lift readonly_ASSERT : readonly.

(** ** Machine integers *)

Lemma to_int_id z : int_range z -> to_int z = z.
Proof.
  unfold int_range, to_int. intros Hz.
  rewrite Z.mod_small by lia. lia.
Qed.

Lemma to_int_range z : int_range (to_int z).
Proof.
  unfold int_range, to_int.
  pose proof (Z.mod_pos_bound (z + 2 ^ 31) (2 ^ 32) ltac:(lia)). lia.
Qed.

Lemma encode_int_length v : length (encode_int v) = 4%nat.
Proof. reflexivity. Qed.

Lemma decode_encode_int v :
  int_range v ->
  to_int (v mod 256 + 256 * ((v / 256) mod 256) + 65536 * ((v / 65536) mod 256)
          + 16777216 * ((v / 16777216) mod 256)) = v.
Proof.
  intros Hv.
  assert (E : v mod 256 + 256 * ((v / 256) mod 256) + 65536 * ((v / 65536) mod 256)
              + 16777216 * ((v / 16777216) mod 256) = v mod 2 ^ 32).
  { change 65536 with (256 * 256). change 16777216 with (256 * 256 * 256).
    change (2 ^ 32) with (256 * (256 * (256 * 256))).
    rewrite <- !Z.div_div by lia.
    rewrite !Z.rem_mul_r by lia. lia. }
  rewrite E. unfold to_int, int_range in *.
  rewrite Zplus_mod_idemp_l.
  rewrite Z.mod_small by lia. lia.
Qed.

(** ** The free map *)

Lemma first_clear_Some b i :
  bitmap.first_clear b = Some i ->
  (i < length b)%nat /\ b !! i = Some false /\
  S (bitmap.count_clear (<[i := true]> b)) = bitmap.count_clear b.
Proof.
  revert i. induction b as [|[] b IH]; intros i E; cbn in *.
  - discriminate.
  - destruct (bitmap.first_clear b) as [j|]; [|discriminate].
    injection E as <-. destruct (IH j eq_refl) as (? & ? & ?).
    cbn. repeat split; [lia | assumption | assumption].
  - injection E as <-. cbn. repeat split; lia.
Qed.

Lemma first_clear_None b :
  bitmap.first_clear b = None -> bitmap.count_clear b = O.
Proof.
  induction b as [|[] b IH]; cbn; intros E; [reflexivity | | discriminate].
  destruct (bitmap.first_clear b); [discriminate | auto].
Qed.

Lemma count_clear_le b : (bitmap.count_clear b <= length b)%nat.
Proof. induction b as [|[] b IH]; cbn; lia. Qed.

Lemma FindAndSet_cases b s b' :
  bitmap.FindAndSet b = (s, b') ->
  (s = -1 /\ b' = b /\ bitmap.count_clear b = O) \/
  (0 <= s < Z.of_nat (length b) /\ b' = <[Z.to_nat s := true]> b /\
   b !! Z.to_nat s = Some false /\
   S (bitmap.count_clear b') = bitmap.count_clear b /\ length b' = length b).
Proof.
  unfold bitmap.FindAndSet. destruct (bitmap.first_clear b) as [i|] eqn:E.
  - intros [= <- <-]. right. apply first_clear_Some in E as (? & ? & ?).
    rewrite Nat2Z.id, length_insert. repeat split; auto; lia.
  - intros [= <- <-]. left. auto using first_clear_None.
Qed.

Section AllocateProps.
Context `{G : Geometry}.

Lemma WriteSector_Ret s data d u d' :
  synchdisk.WriteSector s data d = Ret (u, d') ->
  0 <= s < NumSectors /\ d' = <[Z.to_nat s := data]> d /\ (Z.to_nat s < length d)%nat.
Proof.
  unfold synchdisk.WriteSector.
  destruct (0 <=? s) eqn:E1, (s <? NumSectors) eqn:E2,
    (Z.to_nat s <? length d)%nat eqn:E3; cbn; try discriminate.
  intros [= _ <-]. apply Nat.ltb_lt in E3. repeat split; auto; lia.
Qed.

Lemma WriteSector_ok s data d :
  disk_ok d -> 0 <= s < NumSectors ->
  synchdisk.WriteSector s data d = Ret (tt, <[Z.to_nat s := data]> d).
Proof.
  unfold disk_ok, synchdisk.WriteSector. intros Hd Hs.
  destruct (0 <=? s) eqn:E1; [|lia].
  destruct (s <? NumSectors) eqn:E2; [|lia].
  destruct (Z.to_nat s <? length d)%nat eqn:E3; [reflexivity|].
  apply Nat.ltb_ge in E3. lia.
Qed.

Lemma disk_ok_insert d i x : disk_ok d -> disk_ok (<[i := x]> d).
Proof. unfold disk_ok. now rewrite length_insert. Qed.

Lemma array_set_Ret {A} (a : list A) i v a' :
  array_set a i v = Ret a' ->
  0 <= i < Z.of_nat (length a) /\ a' = <[Z.to_nat i := v]> a.
Proof.
  unfold array_set. destruct (0 <=? i) eqn:E1, (i <? Z.of_nat (length a)) eqn:E2;
    cbn; try discriminate.
  intros [= <-]. split; [lia | reflexivity].
Qed.

Lemma array_set_ok {A} (a : list A) i v :
  0 <= i < Z.of_nat (length a) -> array_set a i v = Ret (<[Z.to_nat i := v]> a).
Proof.
  unfold array_set. intros Hi.
  destruct (0 <=? i) eqn:E1; [|lia].
  destruct (i <? Z.of_nat (length a)) eqn:E2; [reflexivity | lia].
Qed.

(* What a completed run of the loop has done. *)
Lemma allocate_sectors_Ret count : forall i ds fm d ds' fm' d',
  filehdr.allocate_sectors count i ds fm d = Ret ((ds', fm'), d') ->
  (bitmap.count_clear fm' + count = bitmap.count_clear fm)%nat /\
  length fm' = length fm /\ length ds' = length ds /\ length d' = length d.
Proof.
  induction count as [|count IH]; intros i ds fm d ds' fm' d' E; cbn in E.
  - apply ret_Ret in E as [[= <- <-] ->]. repeat split; lia.
  - destruct (bitmap.FindAndSet fm) as [s fm1] eqn:Efs.
    lift_inv E as ds1 E0. apply array_set_Ret in E0 as [Hi ->].
    assert_inv E as E1. apply Z.leb_le in E1.
    bind_inv E as [] d2 E2. apply WriteSector_Ret in E2 as (Hs & -> & _).
    apply IH in E as (Hc & Hl & Hds & Hd).
    apply FindAndSet_cases in Efs as [(-> & _)|(_ & _ & _ & Hc1 & Hl1)]; [lia|].
    rewrite length_insert in Hds. rewrite length_insert in Hd.
    repeat split; lia.
Qed.

(* With enough clear bits, cells and sectors the loop completes. *)
Lemma allocate_sectors_ok count : forall i ds fm d,
  0 <= i -> i + Z.of_nat count <= Z.of_nat (length ds) ->
  (count <= bitmap.count_clear fm)%nat ->
  Z.of_nat (length fm) <= NumSectors -> disk_ok d ->
  exists ds' fm' d',
    filehdr.allocate_sectors count i ds fm d = Ret ((ds', fm'), d') /\ disk_ok d'.
Proof.
  induction count as [|count IH]; intros i ds fm d Hi Hds Hc Hfm Hd; cbn.
  - eauto.
  - destruct (bitmap.FindAndSet fm) as [s fm1] eqn:Efs.
    apply FindAndSet_cases in Efs as [(_ & _ & Hz)|(Hs & _ & _ & Hc1 & Hl1)]; [lia|].
    destruct (IH (i + 1) (<[Z.to_nat i := s]> ds) fm1 (<[Z.to_nat s := filehdr.clean]> d))
      as (ds' & fm' & d' & E & Hd'); try lia.
    { rewrite length_insert. lia. }
    { now apply disk_ok_insert. }
    exists ds', fm', d'. split; [|assumption].
    erewrite bind_eq; [|unfold lift; rewrite array_set_ok by lia; reflexivity].
    erewrite bind_eq; [|unfold ASSERT; destruct (0 <=? s) eqn:E0; [reflexivity | lia]].
    erewrite bind_eq; [|apply WriteSector_ok; [assumption | lia]].
    exact E.
Qed.

End AllocateProps.

(** ** Allocate *)

Section AllocateChain.
Context `{G : Geometry}.

(* The ways in which one call of Allocate returns. *)
Lemma Allocate_rec_Ret fuel this fm size d r h fm' d' :
  filehdr.Allocate_rec (S fuel) this fm size d = Ret ((r, h, fm'), d') ->
  let max := to_int filehdr.MaxFileSize in
  let nb := if size >? max then max else size in
  let ns := divRoundUp nb SectorSize in
  (bitmap.NumClear fm < ns /\ r = 0 /\ fm' = fm /\ d' = d /\
   h = filehdr.mkFileHeader nb ns (filehdr.dataSectors this)
         (filehdr.nextFileHeader this) (filehdr.nextFileHeaderSector this))
  \/
  (ns <= bitmap.NumClear fm /\
   exists ds1 fm1 d1,
     filehdr.allocate_sectors (Z.to_nat ns) 0 (filehdr.dataSectors this) fm d
       = Ret ((ds1, fm1), d1) /\
     ((to_int (size - max) <= 0 /\ r = SectorSize /\ fm' = fm1 /\ d' = d1 /\
       h = filehdr.mkFileHeader nb ns ds1
             (filehdr.nextFileHeader this) (filehdr.nextFileHeaderSector this))
      \/
      (0 < to_int (size - max) /\
       exists s fm2 r' next,
         bitmap.FindAndSet fm1 = (s, fm2) /\ 0 <= s /\
         filehdr.Allocate_rec fuel filehdr.new fm2 (to_int (size - max)) d1
           = Ret ((r', next, fm'), d') /\
         r = to_int (SectorSize + r') /\
         h = filehdr.mkFileHeader nb ns ds1 (Some next) s))).
Proof.
  intros E max nb ns. cbn [filehdr.Allocate_rec] in E. fold max nb ns in E.
  destruct (bitmap.NumClear fm <? ns) eqn:Echeck.
  - apply ret_Ret in E as [[= <- <- <-] ->]. left. repeat split; auto; lia.
  - right. split; [lia|].
    bind_inv E as [ds1 fm1] d1 Eloop. exists ds1, fm1, d1. split; [exact Eloop|].
    destruct (to_int (size - max) >? 0) eqn:Emore.
    + right. split; [lia|].
      destruct (bitmap.FindAndSet fm1) as [s fm2] eqn:Efs.
      assert_inv E as Es. apply Z.leb_le in Es.
      bind_inv E as [[r' next] fm3] d3 Erec.
      apply ret_Ret in E as [[= <- <- <-] ->].
      exists s, fm2, r', next. repeat split; auto.
    + left. apply ret_Ret in E as [[= <- <- <-] ->]. repeat split; auto; lia.
Qed.

(* Each nested call starts with fewer clear bits, so fuel above their
   number is never used up and its amount is immaterial. *)
Lemma Allocate_rec_fuel fuel1 : forall fuel2 this fm size d,
  (bitmap.count_clear fm < fuel1)%nat -> (bitmap.count_clear fm < fuel2)%nat ->
  filehdr.Allocate_rec fuel1 this fm size d = filehdr.Allocate_rec fuel2 this fm size d.
Proof.
  induction fuel1 as [|fuel1 IH]; intros [|fuel2] this fm size d H1 H2; try lia.
  cbn [filehdr.Allocate_rec].
  destruct (_ <? _); [reflexivity|].
  unfold bind, ASSERT.
  destruct (filehdr.allocate_sectors _ _ _ _ _) as [[[ds1 fm1] d1]|f] eqn:Eloop;
    [|reflexivity].
  apply allocate_sectors_Ret in Eloop as (Hc & _).
  destruct (_ >? 0); [|reflexivity].
  destruct (bitmap.FindAndSet fm1) as [s fm2] eqn:Efs.
  destruct (0 <=? s) eqn:Es; [|reflexivity]. cbn.
  apply FindAndSet_cases in Efs as [(-> & _)|(_ & _ & _ & Hc2 & _)]; [discriminate|].
  rewrite (IH fuel2) by lia. reflexivity.
Qed.

Lemma allocate_sectors_never_diverges count : forall i ds fm d,
  filehdr.allocate_sectors count i ds fm d <> Stop Diverges.
Proof.
  induction count as [|count IH]; intros i ds fm d; cbn.
  - discriminate.
  - destruct (bitmap.FindAndSet fm) as [s fm1].
    unfold bind, lift, ASSERT, synchdisk.WriteSector, ret, stop.
    destruct (array_set ds i s) as [ds1|f] eqn:Ea.
    + destruct (0 <=? s); [|discriminate].
      destruct (_ && _); [|discriminate]. apply IH.
    + unfold array_set in Ea. destruct (_ && _); [discriminate|].
      injection Ea as <-. discriminate.
Qed.

Lemma Allocate_rec_never_diverges fuel : forall this fm size d,
  (bitmap.count_clear fm < fuel)%nat ->
  filehdr.Allocate_rec fuel this fm size d <> Stop Diverges.
Proof.
  induction fuel as [|fuel IH]; intros this fm size d Hf; [lia|].
  cbn [filehdr.Allocate_rec].
  destruct (_ <? _); [discriminate|].
  unfold bind, ASSERT.
  destruct (filehdr.allocate_sectors _ _ _ _ _) as [[[ds1 fm1] d1]|f] eqn:Eloop.
  - apply allocate_sectors_Ret in Eloop as (Hc & _).
    destruct (_ >? 0); [|discriminate].
    destruct (bitmap.FindAndSet fm1) as [s fm2] eqn:Efs.
    destruct (0 <=? s) eqn:Es; [|discriminate]. cbn.
    apply FindAndSet_cases in Efs as [(-> & _)|(_ & _ & _ & Hc2 & _)]; [discriminate|].
    specialize (IH filehdr.new fm2 (to_int (size - to_int filehdr.MaxFileSize)) d1).
    destruct (filehdr.Allocate_rec fuel _ _ _ _) as [[[[r n] fm3] d3]|f] eqn:Erec;
      [discriminate|].
    intros [= ->]. apply IH; [lia | reflexivity].
  - intros [= ->]. now apply allocate_sectors_never_diverges in Eloop.
Qed.

(* Allocate always comes to an end: it returns or an assertion fails. *)
Lemma Allocate_never_diverges this fm size d :
  filehdr.Allocate this fm size d <> Stop Diverges.
Proof. apply Allocate_rec_never_diverges. lia. Qed.

End AllocateChain.

(** ** Allocate, step by step *)

Section AllocateSteps.
Context `{G : Geometry}.

Lemma MaxFileSize_int : ints_fit -> to_int filehdr.MaxFileSize = filehdr.MaxFileSize.
Proof.
  unfold ints_fit, filehdr.MaxFileSize. intros (HS & HN & _ & HM & _).
  apply to_int_id. unfold int_range. nia.
Qed.

Lemma MaxFileSize_pos : ints_fit -> 0 < filehdr.MaxFileSize < 2 ^ 31.
Proof. unfold ints_fit, filehdr.MaxFileSize. intros (HS & HN & _ & HM & _). nia. Qed.

Lemma divRoundUp_MaxFileSize :
  ints_fit -> divRoundUp filehdr.MaxFileSize SectorSize = NumDirect.
Proof.
  unfold ints_fit, filehdr.MaxFileSize, divRoundUp. intros (HS & HN & _ & HM & _).
  rewrite Z.quot_mul, Z.rem_mul by lia. cbn [Z.gtb Z.compare]. rewrite Z.add_0_r.
  apply to_int_id. unfold int_range. nia.
Qed.

Lemma divRoundUp_one : ints_fit -> divRoundUp 1 SectorSize = 1.
Proof.
  unfold ints_fit, divRoundUp. intros (HS & _).
  destruct (Z.eq_dec SectorSize 1) as [->|Hne]; [reflexivity|].
  rewrite Z.quot_small, Z.rem_small by lia. reflexivity.
Qed.

(* The entry check fails: 0 is returned and nothing is touched. *)
Lemma Allocate_rec_no_room fuel this fm size d :
  let max := to_int filehdr.MaxFileSize in
  let nb := if size >? max then max else size in
  let ns := divRoundUp nb SectorSize in
  bitmap.NumClear fm < ns ->
  filehdr.Allocate_rec (S fuel) this fm size d =
  Ret ((0, filehdr.mkFileHeader nb ns (filehdr.dataSectors this)
             (filehdr.nextFileHeader this) (filehdr.nextFileHeaderSector this), fm), d).
Proof.
  intros max nb ns Hroom. cbn [filehdr.Allocate_rec]. fold max nb ns.
  destruct (bitmap.NumClear fm <? ns) eqn:E; [reflexivity | lia].
Qed.

(* The data sectors are allocated and the request ends in this segment. *)
Lemma Allocate_rec_last fuel this fm size d ds1 fm1 d1 :
  let max := to_int filehdr.MaxFileSize in
  let nb := if size >? max then max else size in
  let ns := divRoundUp nb SectorSize in
  ns <= bitmap.NumClear fm ->
  filehdr.allocate_sectors (Z.to_nat ns) 0 (filehdr.dataSectors this) fm d
    = Ret ((ds1, fm1), d1) ->
  to_int (size - max) <= 0 ->
  filehdr.Allocate_rec (S fuel) this fm size d =
  Ret ((SectorSize, filehdr.mkFileHeader nb ns ds1
          (filehdr.nextFileHeader this) (filehdr.nextFileHeaderSector this), fm1), d1).
Proof.
  intros max nb ns Hroom Eloop Hlast. cbn [filehdr.Allocate_rec]. fold max nb ns.
  destruct (bitmap.NumClear fm <? ns) eqn:E; [lia|].
  erewrite bind_eq by exact Eloop. cbv beta iota.
  destruct (to_int (size - max) >? 0) eqn:E'; [lia | reflexivity].
Qed.

(* The data sectors are allocated, the request goes on and a sector is
   found for the successor: the result is built from the nested call. *)
Lemma Allocate_rec_more fuel this fm size d ds1 fm1 d1 s fm2 :
  let max := to_int filehdr.MaxFileSize in
  let nb := if size >? max then max else size in
  let ns := divRoundUp nb SectorSize in
  ns <= bitmap.NumClear fm ->
  filehdr.allocate_sectors (Z.to_nat ns) 0 (filehdr.dataSectors this) fm d
    = Ret ((ds1, fm1), d1) ->
  0 < to_int (size - max) ->
  bitmap.FindAndSet fm1 = (s, fm2) -> 0 <= s ->
  filehdr.Allocate_rec (S fuel) this fm size d =
  (let* (r, next, fm') :=
     filehdr.Allocate_rec fuel filehdr.new fm2 (to_int (size - max)) in
   ret (to_int (SectorSize + r),
        filehdr.mkFileHeader nb ns ds1 (Some next) s, fm')) d1.
Proof.
  intros max nb ns Hroom Eloop Hmore Efs Hs. cbn [filehdr.Allocate_rec]. fold max nb ns.
  destruct (bitmap.NumClear fm <? ns) eqn:E; [lia|].
  erewrite bind_eq by exact Eloop. cbv beta iota.
  destruct (to_int (size - max) >? 0) eqn:E'; [|lia].
  rewrite Efs.
  erewrite bind_eq; [reflexivity|].
  unfold ASSERT. destruct (0 <=? s) eqn:E''; [reflexivity | lia].
Qed.

(* As before, but no sector is left for the successor: the assertion on
   nextFileHeaderSector fails. *)
Lemma Allocate_rec_no_header fuel this fm size d ds1 fm1 d1 s fm2 :
  let max := to_int filehdr.MaxFileSize in
  let nb := if size >? max then max else size in
  let ns := divRoundUp nb SectorSize in
  ns <= bitmap.NumClear fm ->
  filehdr.allocate_sectors (Z.to_nat ns) 0 (filehdr.dataSectors this) fm d
    = Ret ((ds1, fm1), d1) ->
  0 < to_int (size - max) ->
  bitmap.FindAndSet fm1 = (s, fm2) -> s < 0 ->
  filehdr.Allocate_rec (S fuel) this fm size d = Stop AssertionFailed.
Proof.
  intros max nb ns Hroom Eloop Hmore Efs Hs. cbn [filehdr.Allocate_rec]. fold max nb ns.
  destruct (bitmap.NumClear fm <? ns) eqn:E; [lia|].
  erewrite bind_eq by exact Eloop. cbv beta iota.
  destruct (to_int (size - max) >? 0) eqn:E'; [|lia].
  rewrite Efs. apply bind_Stop.
  unfold ASSERT. destruct (0 <=? s) eqn:E''; [lia | reflexivity].
Qed.

End AllocateSteps.

(** ** Allocate: failure of the successor, the assertions *)

Section AllocateClaims.
Context `{G : Geometry}.

Lemma Allocate_rec_nonterminal_full fuel : forall this fm size d r h fm' d',
  ints_fit -> int_range size -> int_range (size - filehdr.MaxFileSize) ->
  filehdr.nextFileHeaderSector this = -1 -> filehdr.nextFileHeader this = None ->
  filehdr.Allocate_rec fuel this fm size d = Ret ((r, h, fm'), d') ->
  nonterminal_full h.
Proof.
  induction fuel as [|fuel IH];
    intros this fm size d r h fm' d' Hg Hsize Hsub Hsec Hptr E; [discriminate|].
  pose proof (MaxFileSize_int Hg) as Emax. pose proof (MaxFileSize_pos Hg) as Hmax.
  apply Allocate_rec_Ret in E. cbv zeta in E. rewrite Emax in E.
  rewrite (to_int_id _ Hsub) in E. rewrite Hsec, Hptr in E.
  destruct E as [(_ & _ & _ & _ & ->)|(_ & ds1 & fm1 & d1 & _ &
    [(_ & _ & _ & _ & ->)|(Hmore & s & fm2 & r' & next & _ & Hs & Erec & _ & ->)])].
  - cbn. split; [congruence | exact I].
  - cbn. split; [congruence | exact I].
  - cbn [nonterminal_full filehdr.nextFileHeaderSector filehdr.numBytes
         filehdr.nextFileHeader]. split.
    + intros _. destruct (size >? filehdr.MaxFileSize) eqn:E; [reflexivity | lia].
    + apply IH in Erec; auto; unfold int_range in *; lia.
Qed.

Lemma Allocate_nonterminal_full fm size d r h fm' d' :
  ints_fit -> int_range size -> int_range (size - filehdr.MaxFileSize) ->
  filehdr.Allocate filehdr.new fm size d = Ret ((r, h, fm'), d') ->
  nonterminal_full h.
Proof.
  intros Hg Hsize Hsub E.
  now apply Allocate_rec_nonterminal_full in E.
Qed.

(** C1. The call asks for more than MaxFileSize bytes, the entry check
    passes, the data sectors of the first segment and a sector for the
    successor are obtained, and Allocate on the successor returns 0.  Then
    the outer call returns SectorSize, which is not 0: the failure of the
    successor is reported as a success. *)
Theorem Allocate_successor_failure_not_cascaded
    fm size d ds1 fm1 d1 s fm2 next fm' d' :
  ints_fit -> int_range size -> filehdr.MaxFileSize < size ->
  NumDirect <= bitmap.NumClear fm ->
  filehdr.allocate_sectors (Z.to_nat NumDirect) 0
    (filehdr.dataSectors filehdr.new) fm d = Ret ((ds1, fm1), d1) ->
  bitmap.FindAndSet fm1 = (s, fm2) -> 0 <= s ->
  filehdr.Allocate filehdr.new fm2 (size - filehdr.MaxFileSize) d1
    = Ret ((0, next, fm'), d') ->
  filehdr.Allocate filehdr.new fm size d
    = Ret ((SectorSize,
            filehdr.mkFileHeader filehdr.MaxFileSize NumDirect ds1 (Some next) s,
            fm'), d')
  /\ SectorSize <> 0.
Proof.
  intros Hg Hsize Hmore Hroom Eloop Efs Hs Enext.
  pose proof (MaxFileSize_int Hg) as Emax. pose proof (MaxFileSize_pos Hg) as Hmax.
  assert (HS : 0 < SectorSize < 2 ^ 31) by (unfold ints_fit in Hg; nia).
  split; [|lia].
  assert (Hsub : int_range (size - filehdr.MaxFileSize))
    by (unfold int_range in *; lia).
  unfold filehdr.Allocate in *.
  pose proof (Allocate_rec_more (bitmap.count_clear fm) filehdr.new fm size d
                ds1 fm1 d1 s fm2) as Estep.
  cbv zeta in Estep. rewrite Emax in Estep.
  destruct (size >? filehdr.MaxFileSize) eqn:Egt; [|lia].
  rewrite (divRoundUp_MaxFileSize Hg), (to_int_id _ Hsub) in Estep.
  rewrite Estep by (assumption || lia).
  apply allocate_sectors_Ret in Eloop as (Hc & _).
  apply FindAndSet_cases in Efs as [(-> & _)|(_ & _ & _ & Hc2 & _)]; [lia|].
  unfold bind.
  rewrite (Allocate_rec_fuel _ (S (bitmap.count_clear fm2))) by lia.
  rewrite Enext. unfold ret.
  rewrite Z.add_0_r, to_int_id by (unfold int_range; lia). reflexivity.
Qed.

Lemma count_clear_zero_FindAndSet fm :
  bitmap.count_clear fm = O -> bitmap.FindAndSet fm = (-1, fm).
Proof.
  intros Hz. destruct (bitmap.FindAndSet fm) as [s fm1] eqn:E.
  apply FindAndSet_cases in E as [(-> & -> & _)|(_ & _ & _ & Hc & _)];
    [reflexivity | lia].
Qed.

(** C8. The request exceeds MaxFileSize and the map has exactly NumDirect
    clear bits.  The entry check, which counts the data sectors of this
    segment only, passes; the data sectors take every clear bit; FindAndSet
    for the successor's header returns -1 and
    ASSERT(nextFileHeaderSector >= 0) fails. *)
Theorem Allocate_header_assertion_fails fm size d :
  ints_fit -> disk_ok d -> Z.of_nat (length fm) <= NumSectors ->
  int_range size -> filehdr.MaxFileSize < size ->
  bitmap.NumClear fm = NumDirect ->
  (bitmap.NumClear fm <? divRoundUp filehdr.MaxFileSize SectorSize) = false /\
  filehdr.Allocate filehdr.new fm size d = Stop AssertionFailed.
Proof.
  intros Hg Hd Hfm Hsize Hmore Hclear.
  pose proof (MaxFileSize_int Hg) as Emax. pose proof (MaxFileSize_pos Hg) as Hmax.
  pose proof (divRoundUp_MaxFileSize Hg) as Ens.
  assert (HN : 0 < NumDirect) by (unfold ints_fit in Hg; lia).
  split; [rewrite Ens; lia|].
  assert (Hsub : int_range (size - filehdr.MaxFileSize))
    by (unfold int_range in *; lia).
  destruct (allocate_sectors_ok (Z.to_nat NumDirect) 0
              (filehdr.dataSectors filehdr.new) fm d)
    as (ds1 & fm1 & d1 & Eloop & _); try assumption; try lia.
  { cbn. rewrite length_replicate. lia. }
  { unfold bitmap.NumClear in Hclear. lia. }
  unfold filehdr.Allocate.
  pose proof (Allocate_rec_no_header (bitmap.count_clear fm) filehdr.new fm size d
                ds1 fm1 d1 (-1) fm1) as Estep.
  cbv zeta in Estep. rewrite Emax in Estep.
  destruct (size >? filehdr.MaxFileSize) eqn:Egt; [|lia].
  rewrite Ens, (to_int_id _ Hsub) in Estep.
  apply Estep; try assumption; try lia.
  apply count_clear_zero_FindAndSet.
  apply allocate_sectors_Ret in Eloop as (Hc & _).
  unfold bitmap.NumClear in Hclear. lia.
Qed.

End AllocateClaims.

Section AllocateBoundary.
Context `{G : Geometry}.

Lemma Allocate_successor_iff fm size d r h fm' d' :
  ints_fit -> int_range size -> int_range (size - filehdr.MaxFileSize) ->
  filehdr.Allocate filehdr.new fm size d = Ret ((r, h, fm'), d') -> r <> 0 ->
  (filehdr.nextFileHeader h <> None <-> filehdr.MaxFileSize < size) /\
  (filehdr.nextFileHeaderSector h <> -1 <-> filehdr.MaxFileSize < size).
Proof.
  intros Hg Hsize Hsub E Hr.
  pose proof (MaxFileSize_int Hg) as Emax.
  unfold filehdr.Allocate in E. apply Allocate_rec_Ret in E. cbv zeta in E.
  rewrite Emax, (to_int_id _ Hsub) in E.
  destruct E as [(_ & -> & _)|(_ & ds1 & fm1 & d1 & _ &
    [(Hlast & _ & _ & _ & ->)|(Hmore & s & fm2 & r' & next & _ & Hs & _ & _ & ->)])];
    [congruence | |]; cbn; (split; split; intros; (congruence || lia)).
Qed.

Lemma Allocate_exactly_MaxFileSize fm d :
  ints_fit -> disk_ok d -> Z.of_nat (length fm) <= NumSectors ->
  NumDirect <= bitmap.NumClear fm ->
  exists ds fm' d',
    filehdr.Allocate filehdr.new fm filehdr.MaxFileSize d
    = Ret ((SectorSize,
            filehdr.mkFileHeader filehdr.MaxFileSize NumDirect ds None (-1), fm'), d').
Proof.
  intros Hg Hd Hfm Hroom.
  pose proof (MaxFileSize_int Hg) as Emax. pose proof (MaxFileSize_pos Hg) as Hmax.
  pose proof (divRoundUp_MaxFileSize Hg) as Ens.
  assert (HN : 0 < NumDirect) by (unfold ints_fit in Hg; lia).
  destruct (allocate_sectors_ok (Z.to_nat NumDirect) 0
              (filehdr.dataSectors filehdr.new) fm d)
    as (ds1 & fm1 & d1 & Eloop & _); try assumption; try lia.
  { cbn. rewrite length_replicate. lia. }
  { unfold bitmap.NumClear in Hroom. lia. }
  exists ds1, fm1, d1. unfold filehdr.Allocate.
  pose proof (Allocate_rec_last (bitmap.count_clear fm) filehdr.new fm
                filehdr.MaxFileSize d ds1 fm1 d1) as Estep.
  cbv zeta in Estep. rewrite Emax in Estep.
  destruct (filehdr.MaxFileSize >? filehdr.MaxFileSize) eqn:Egt; [lia|].
  rewrite Ens, Z.sub_diag in Estep.
  apply Estep; [lia | assumption | cbv; discriminate].
Qed.

Lemma Allocate_MaxFileSize_plus_one fm d :
  ints_fit -> disk_ok d -> Z.of_nat (length fm) <= NumSectors ->
  filehdr.MaxFileSize + 1 < 2 ^ 31 ->
  NumDirect + 1 <= bitmap.NumClear fm ->
  exists r h fm' d',
    filehdr.Allocate filehdr.new fm (filehdr.MaxFileSize + 1) d = Ret ((r, h, fm'), d')
    /\ r <> 0 /\ segment_bytes h = [filehdr.MaxFileSize; 1].
Proof.
  intros Hg Hd Hfm Hint Hroom.
  pose proof (MaxFileSize_int Hg) as Emax. pose proof (MaxFileSize_pos Hg) as Hmax.
  pose proof (divRoundUp_MaxFileSize Hg) as Ens.
  pose proof (divRoundUp_one Hg) as Eone.
  assert (HN : 0 < NumDirect) by (unfold ints_fit in Hg; lia).
  unfold bitmap.NumClear in Hroom.
  assert (HS : 0 < SectorSize /\ 2 * SectorSize < 2 ^ 31).
  { pose proof (count_clear_le fm). unfold ints_fit in Hg. nia. }
  (* the first segment *)
  destruct (allocate_sectors_ok (Z.to_nat NumDirect) 0
              (filehdr.dataSectors filehdr.new) fm d)
    as (ds1 & fm1 & d1 & Eloop & Hd1); try assumption; try lia.
  { cbn. rewrite length_replicate. lia. }
  pose proof (allocate_sectors_Ret _ _ _ _ _ _ _ _ Eloop) as (Hc1 & Hl1 & _).
  destruct (bitmap.FindAndSet fm1) as [s fm2] eqn:Efs.
  pose proof (FindAndSet_cases _ _ _ Efs) as [(_ & _ & Hz)|(Hs & _ & _ & Hc2 & Hl2)];
    [lia|].
  unfold filehdr.Allocate.
  pose proof (Allocate_rec_more (bitmap.count_clear fm) filehdr.new fm
                (filehdr.MaxFileSize + 1) d ds1 fm1 d1 s fm2) as Estep.
  cbv zeta in Estep. rewrite Emax in Estep.
  destruct (filehdr.MaxFileSize + 1 >? filehdr.MaxFileSize) eqn:Egt; [|lia].
  replace (filehdr.MaxFileSize + 1 - filehdr.MaxFileSize) with 1 in Estep by lia.
  change (to_int 1) with 1 in Estep. rewrite Ens in Estep.
  rewrite Estep by (assumption || (unfold bitmap.NumClear; lia)). clear Estep.
  (* the second segment *)
  destruct (bitmap.count_clear fm) as [|fuel] eqn:Efuel; [lia|].
  assert (E1 : (1 >? filehdr.MaxFileSize) = false) by lia.
  assert (E2 : to_int (1 - filehdr.MaxFileSize) <= 0)
    by (rewrite to_int_id by (unfold int_range; lia); lia).
  destruct (Z_lt_le_dec (bitmap.NumClear fm2) 1) as [Hnone|Hsome].
  - pose proof (Allocate_rec_no_room fuel filehdr.new fm2 1 d1) as Estep.
    cbv zeta in Estep. rewrite Emax, E1, Eone in Estep.
    unfold bind. rewrite Estep by assumption. unfold ret.
    eexists _, _, _, _. split; [reflexivity|]. split; [|reflexivity].
    rewrite Z.add_0_r, to_int_id by (unfold int_range; lia). lia.
  - destruct (allocate_sectors_ok 1 0 (filehdr.dataSectors filehdr.new) fm2 d1)
      as (ds2 & fm3 & d2 & Eloop2 & _); try assumption; try lia.
    { cbn. rewrite length_replicate. lia. }
    { unfold bitmap.NumClear in Hsome. lia. }
    pose proof (Allocate_rec_last fuel filehdr.new fm2 1 d1 ds2 fm3 d2) as Estep.
    cbv zeta in Estep. rewrite Emax, E1, Eone in Estep.
    unfold bind. rewrite Estep by assumption. unfold ret.
    eexists _, _, _, _. split; [reflexivity|]. split; [|reflexivity].
    rewrite to_int_id by (unfold int_range; lia). lia.
Qed.

(** C7. Allocate, called on a fresh header, gives the header a successor
    exactly when the request exceeds MaxFileSize: for every call that
    returns a non-zero value, a successor (pointer and sector) is present
    iff requestedBytes > MaxFileSize.  With NumDirect clear bits a request
    of exactly MaxFileSize returns one segment of MaxFileSize bytes whose
    nextFileHeaderSector is -1; with one more clear bit a request of
    MaxFileSize + 1 returns exactly two segments, of MaxFileSize bytes and
    of 1 byte. *)
Theorem Allocate_chains_only_above_MaxFileSize fm d :
  ints_fit -> disk_ok d -> Z.of_nat (length fm) <= NumSectors ->
  (forall size r h fm' d',
      int_range size -> int_range (size - filehdr.MaxFileSize) ->
      filehdr.Allocate filehdr.new fm size d = Ret ((r, h, fm'), d') -> r <> 0 ->
      (filehdr.nextFileHeader h <> None <-> filehdr.MaxFileSize < size) /\
      (filehdr.nextFileHeaderSector h <> -1 <-> filehdr.MaxFileSize < size)) /\
  (NumDirect <= bitmap.NumClear fm ->
   exists ds fm' d',
     filehdr.Allocate filehdr.new fm filehdr.MaxFileSize d
     = Ret ((SectorSize,
             filehdr.mkFileHeader filehdr.MaxFileSize NumDirect ds None (-1),
             fm'), d')) /\
  (filehdr.MaxFileSize + 1 < 2 ^ 31 -> NumDirect + 1 <= bitmap.NumClear fm ->
   exists r h fm' d',
     filehdr.Allocate filehdr.new fm (filehdr.MaxFileSize + 1) d
     = Ret ((r, h, fm'), d')
     /\ r <> 0 /\ segment_bytes h = [filehdr.MaxFileSize; 1]).
Proof.
  intros Hg Hd Hfm. repeat split.
  - eapply Allocate_successor_iff; eassumption.
  - eapply Allocate_successor_iff; eassumption.
  - eapply Allocate_successor_iff; eassumption.
  - eapply Allocate_successor_iff; eassumption.
  - now apply Allocate_exactly_MaxFileSize.
  - now apply Allocate_MaxFileSize_plus_one.
Qed.

End AllocateBoundary.

(** ** Byte buffers *)

Lemma byte_at_memcpy_before buf off src i :
  (i < off)%nat -> (off <= length buf)%nat ->
  byte_at (memcpy buf off src) i = byte_at buf i.
Proof.
  intros Hi Hoff. unfold byte_at, memcpy.
  rewrite lookup_app_l by (rewrite length_take; lia).
  now rewrite lookup_take_lt by lia.
Qed.

Lemma byte_at_memcpy_inside buf off src j :
  (j < length src)%nat -> (off <= length buf)%nat ->
  byte_at (memcpy buf off src) (off + j) = byte_at src j.
Proof.
  intros Hj Hoff. unfold byte_at, memcpy.
  rewrite lookup_app_r by (rewrite length_take; lia).
  rewrite length_take, Nat.min_l by lia.
  replace (off + j - off)%nat with j by lia.
  now rewrite lookup_app_l by lia.
Qed.

Lemma memcpy_length buf off src :
  (off + length src <= length buf)%nat -> length (memcpy buf off src) = length buf.
Proof.
  intros Hfit. unfold memcpy. rewrite !length_app, length_take, length_drop. lia.
Qed.

Lemma decode_int_memcpy_before buf off' src off :
  (off + 4 <= off')%nat -> (off' <= length buf)%nat ->
  decode_int (memcpy buf off' src) off = decode_int buf off.
Proof.
  intros H1 H2. unfold decode_int.
  now rewrite !byte_at_memcpy_before by lia.
Qed.

Lemma byte_at_app_r pre l j : byte_at (pre ++ l) (length pre + j) = byte_at l j.
Proof.
  unfold byte_at. rewrite lookup_app_r by lia.
  now replace (length pre + j - length pre)%nat with j by lia.
Qed.

Lemma decode_int_app pre v rest :
  int_range v -> decode_int (pre ++ encode_int v ++ rest) (length pre) = v.
Proof.
  intros Hv. unfold decode_int.
  rewrite <- (Nat.add_0_r (length pre)) at 1.
  rewrite !byte_at_app_r. cbn. now apply decode_encode_int.
Qed.

Lemma decode_int_memcpy buf off v :
  int_range v -> (off <= length buf)%nat ->
  decode_int (memcpy buf off (encode_int v)) off = v.
Proof.
  intros Hv Hoff. unfold memcpy.
  pose proof (decode_int_app (take off buf) v
                (drop (off + length (encode_int v)) buf) Hv) as E.
  rewrite length_take, Nat.min_l in E by lia. exact E.
Qed.

Lemma encode_ints_length vs : length (encode_ints vs) = (4 * length vs)%nat.
Proof.
  unfold encode_ints. induction vs as [|v vs IH]; [reflexivity|].
  cbn [fmap list_fmap concat length] in *.
  rewrite length_app, IH. cbn. lia.
Qed.

Lemma decode_ints_succ buf off n :
  decode_ints buf off (S n) = decode_int buf off :: decode_ints buf (off + 4) n.
Proof.
  unfold decode_ints. cbn [seq fmap list_fmap]. rewrite Nat.mul_0_r, Nat.add_0_r.
  f_equal. rewrite <- seq_shift, <- list_fmap_compose.
  apply list_fmap_ext. intros _ k _. cbn. f_equal. lia.
Qed.

Lemma decode_ints_app vs : forall pre rest,
  Forall int_range vs ->
  decode_ints (pre ++ encode_ints vs ++ rest) (length pre) (length vs) = vs.
Proof.
  induction vs as [|v vs IH]; intros pre rest Hvs; [reflexivity|].
  apply Forall_cons in Hvs as [Hv Hvs].
  cbn [length]. rewrite decode_ints_succ.
  change (encode_ints (v :: vs)) with (encode_int v ++ encode_ints vs).
  rewrite <- (app_assoc (encode_int v)). f_equal.
  - now apply decode_int_app.
  - specialize (IH (pre ++ encode_int v) rest Hvs).
    rewrite length_app, encode_int_length, <- app_assoc in IH. exact IH.
Qed.

Lemma decode_ints_memcpy buf off vs :
  Forall int_range vs -> (off <= length buf)%nat ->
  decode_ints (memcpy buf off (encode_ints vs)) off (length vs) = vs.
Proof.
  intros Hvs Hoff. unfold memcpy.
  pose proof (decode_ints_app vs (take off buf)
                (drop (off + length (encode_ints vs)) buf) Hvs) as E.
  rewrite length_take, Nat.min_l in E by lia. exact E.
Qed.

(** ** Headers on the disk *)

Section Persist.
Context `{G : Geometry}.

Lemma ReadSector_ok s d data :
  0 <= s < NumSectors -> d !! Z.to_nat s = Some data ->
  synchdisk.ReadSector s d = Ret (data, d).
Proof.
  unfold synchdisk.ReadSector. intros Hs ->.
  destruct (0 <=? s) eqn:E1; [|lia].
  destruct (s <? NumSectors) eqn:E2; [reflexivity | lia].
Qed.

Lemma readonly_ReadSector s : readonly (synchdisk.ReadSector s).
Proof.
  intros d a d'. unfold synchdisk.ReadSector.
  destruct (_ && _); [|discriminate].
  destruct (d !! _); [|discriminate]. now intros [= _ ->].
Qed.

Lemma uninitialised_buffer_length :
  length filehdr.uninitialised_buffer = Z.to_nat SectorSize.
Proof. unfold filehdr.uninitialised_buffer. now rewrite length_fmap, length_seq. Qed.

Lemma header_image_decodes h :
  header_fits -> 0 <= NumDirect -> chain_ok h ->
  decode_int (header_image h) 0 = filehdr.numBytes h /\
  decode_int (header_image h) 4 = filehdr.numSectors h /\
  decode_int (header_image h) 8 = filehdr.nextFileHeaderSector h /\
  decode_ints (header_image h) 12 (Z.to_nat NumDirect) = filehdr.dataSectors h.
Proof.
  unfold header_fits, filehdr.header_bytes. intros Hfit HN Hok.
  destruct h as [nb ns ds next s]. cbn in Hok.
  destruct Hok as (Hnb & Hns & Hs & Hlen & Hds & _).
  unfold header_image. cbn [filehdr.numBytes filehdr.numSectors
    filehdr.dataSectors filehdr.nextFileHeaderSector].
  pose proof uninitialised_buffer_length as L0.
  assert (L1 : length (memcpy filehdr.uninitialised_buffer 0 (encode_int nb))
               = Z.to_nat SectorSize)
    by (rewrite memcpy_length; cbn; lia).
  assert (L2 : length (memcpy (memcpy filehdr.uninitialised_buffer 0 (encode_int nb))
                         4 (encode_int ns)) = Z.to_nat SectorSize)
    by (rewrite memcpy_length; rewrite L1; cbn; lia).
  assert (L3 : length (memcpy (memcpy (memcpy filehdr.uninitialised_buffer 0
                         (encode_int nb)) 4 (encode_int ns)) 8 (encode_int s))
               = Z.to_nat SectorSize)
    by (rewrite memcpy_length; rewrite L2; cbn; lia).
  repeat split.
  - rewrite decode_int_memcpy_before by (rewrite ?L3; lia).
    rewrite decode_int_memcpy_before by (rewrite ?L2; lia).
    rewrite decode_int_memcpy_before by (rewrite ?L1; lia).
    apply decode_int_memcpy; [assumption | lia].
  - rewrite decode_int_memcpy_before by (rewrite ?L3; lia).
    rewrite decode_int_memcpy_before by (rewrite ?L2; lia).
    apply decode_int_memcpy; [assumption | rewrite L1; lia].
  - rewrite decode_int_memcpy_before by (rewrite ?L3; lia).
    apply decode_int_memcpy; [assumption | rewrite L2; lia].
  - rewrite <- Hlen. apply decode_ints_memcpy; [assumption | rewrite L3; lia].
Qed.

Lemma WriteBack_unfold h sector :
  filehdr.WriteBack h sector =
  (let* _ := filehdr.within_buffer in
   let* _ := synchdisk.WriteSector sector (header_image h) in
   if negb (filehdr.nextFileHeaderSector h =? -1) then
     match filehdr.nextFileHeader h with
     | Some next => filehdr.WriteBack next (filehdr.nextFileHeaderSector h)
     | None => stop NullDereference
     end
   else ret tt).
Proof. destruct h as [nb ns ds [next|] s]; reflexivity. Qed.

Lemma within_buffer_ok d : header_fits -> filehdr.within_buffer d = Ret (tt, d).
Proof.
  unfold header_fits, filehdr.within_buffer. intros Hfit.
  destruct (_ <=? _) eqn:E; [reflexivity | lia].
Qed.

(* Writing a chain to sectors that are on the disk and distinct, then
   fetching from its first sector with fuel for every segment, gives the
   chain back; sectors outside the chain keep their contents. *)
Lemma WriteBack_FetchFrom_rec h : forall sector d fuel,
  header_fits -> 0 <= NumDirect -> disk_ok d -> chain_ok h -> placed sector h ->
  (length (successor_sectors h) < fuel)%nat ->
  exists d',
    filehdr.WriteBack h sector d = Ret (tt, d') /\ disk_ok d' /\
    filehdr.FetchFrom_rec fuel filehdr.new sector d' = Ret (h, d') /\
    (forall s, 0 <= s -> s ∉ sector :: successor_sectors h ->
               d' !! Z.to_nat s = d !! Z.to_nat s).
Proof.
  induction h as [nb ns ds s|nb ns ds next s IH] using filehdr.chain_ind;
    intros sector d fuel Hfit HN Hd Hok [Hnodup Hin] Hfuel.
  - (* the last segment *)
    pose proof (header_image_decodes _ Hfit HN Hok) as (D0 & D4 & D8 & D12).
    cbn in Hok. destruct Hok as (_ & _ & _ & _ & _ & ->).
    cbn in Hin. apply Forall_cons in Hin as [Hsec _].
    set (h := filehdr.mkFileHeader nb ns ds None (-1)) in *.
    exists (<[Z.to_nat sector := header_image h]> d).
    assert (Hd' : disk_ok (<[Z.to_nat sector := header_image h]> d))
      by now apply disk_ok_insert.
    split; [|split; [assumption|split]].
    + rewrite WriteBack_unfold.
      erewrite bind_eq by now apply within_buffer_ok.
      erewrite bind_eq by now apply WriteSector_ok.
      reflexivity.
    + destruct fuel as [|fuel]; [lia|]. cbn [filehdr.FetchFrom_rec].
      erewrite bind_eq.
      2:{ apply ReadSector_ok; [assumption|].
          apply list_lookup_insert_eq. unfold disk_ok in Hd. lia. }
      erewrite bind_eq by now apply within_buffer_ok.
      rewrite D0, D4, D8, D12. reflexivity.
    + intros s Hs Hnot. apply list_lookup_insert_ne.
      intros Heq. apply Hnot. apply elem_of_cons. left. lia.
  - (* a segment and its successors *)
    pose proof (header_image_decodes _ Hfit HN Hok) as (D0 & D4 & D8 & D12).
    cbn in Hok. destruct Hok as (_ & _ & _ & _ & _ & Hs & Hoknext).
    cbn [successor_sectors filehdr.nextFileHeader filehdr.nextFileHeaderSector]
      in Hnodup, Hin, Hfuel.
    apply NoDup_cons in Hnodup as [Hfresh Hnodup].
    apply Forall_cons in Hin as [Hsec Hin].
    set (h := filehdr.mkFileHeader nb ns ds (Some next) s) in *.
    destruct fuel as [|fuel]; [cbn in Hfuel; lia|].
    destruct (IH s (<[Z.to_nat sector := header_image h]> d) fuel)
      as (d' & Ew & Hd' & Ef & Hframe); auto.
    { now apply disk_ok_insert. }
    { split; assumption. }
    { cbn in Hfuel. lia. }
    exists d'. split; [|split; [assumption|split]].
    + rewrite WriteBack_unfold.
      erewrite bind_eq by now apply within_buffer_ok.
      erewrite bind_eq by now apply WriteSector_ok.
      cbn [filehdr.nextFileHeaderSector filehdr.nextFileHeader h].
      destruct (s =? -1) eqn:E; [lia|]. exact Ew.
    + cbn [filehdr.FetchFrom_rec].
      erewrite bind_eq.
      2:{ apply ReadSector_ok; [assumption|].
          rewrite Hframe by (assumption || lia).
          apply list_lookup_insert_eq. unfold disk_ok in Hd. lia. }
      erewrite bind_eq by now apply within_buffer_ok.
      rewrite D0, D4, D8, D12.
      cbn [filehdr.nextFileHeaderSector filehdr.nextFileHeader h].
      destruct (s =? -1) eqn:E; [lia|]. cbn [negb].
      erewrite bind_eq by exact Ef. reflexivity.
    + intros s' Hs' Hnot. rewrite Hframe.
      * apply list_lookup_insert_ne.
        intros Heq. apply Hnot. apply elem_of_cons. left. lia.
      * assumption.
      * intros Hmem. apply Hnot. apply elem_of_cons. now right.
Qed.

End Persist.

(** ** WriteBack, then FetchFrom *)

Lemma NoDup_bounded_length (l : list Z) n :
  NoDup l -> Forall (fun s => 0 <= s < n) l -> (length l <= Z.to_nat n)%nat.
Proof.
  intros Hnodup Hin.
  assert (Hsub : l ⊆+ (Z.of_nat <$> seq 0 (Z.to_nat n))).
  { apply NoDup_submseteq; [assumption|]. intros x Hx.
    rewrite Forall_forall in Hin. specialize (Hin x Hx).
    apply list_elem_of_fmap. exists (Z.to_nat x). split; [lia|].
    apply elem_of_seq. lia. }
  apply submseteq_length in Hsub. now rewrite length_fmap, length_seq in Hsub.
Qed.

Section RoundTrip.
Context `{G : Geometry}.

(** C10. A chain whose in-memory links agree with its sector links, written
    by WriteBack(sector) to sectors of the disk that are pairwise distinct,
    is read back by FetchFrom(sector) into a fresh header as the same
    chain: numBytes, numSectors, nextFileHeaderSector and dataSectors of
    the head and, recursively, of every successor are those written. *)
Theorem WriteBack_FetchFrom_roundtrip (h : filehdr.FileHeader) (sector : Z) (d : Disk) :
  header_fits -> 0 <= NumDirect -> disk_ok d -> chain_ok h -> placed sector h ->
  exists d',
    filehdr.WriteBack h sector d = Ret (tt, d') /\
    filehdr.FetchFrom filehdr.new sector d' = Ret (h, d').
Proof.
  intros Hfit HN Hd Hok Hplaced.
  destruct (WriteBack_FetchFrom_rec h sector d (S (Z.to_nat NumSectors)))
    as (d' & Ew & _ & Ef & _); try assumption.
  - destruct Hplaced as [Hnodup Hin].
    pose proof (NoDup_bounded_length _ _ Hnodup Hin) as Hlen. cbn in Hlen. lia.
  - exists d'. split; assumption.
Qed.

End RoundTrip.

(** ** The fuel of FetchFrom *)

Lemma repeated_element (l : list Z) :
  ~ NoDup l -> exists i j x, (i < j)%nat /\ l !! i = Some x /\ l !! j = Some x.
Proof.
  induction l as [|x l IH]; intros Hdup.
  - destruct Hdup. constructor.
  - destruct (decide (x ∈ l)) as [Hin|Hnotin].
    + apply list_elem_of_lookup in Hin as [j Hj].
      exists O, (S j), x. split; [lia|]. split; [reflexivity | exact Hj].
    + destruct IH as (i & j & y & Hij & Hi & Hj).
      { intros Hnodup. apply Hdup. now constructor. }
      exists (S i), (S j), y. split; [lia|]. split; assumption.
Qed.

Section Fuel.
Context `{G : Geometry}.

Lemma link_in_range d s n : link d s = Some n -> 0 <= s < NumSectors.
Proof.
  unfold link, synchdisk.ReadSector.
  destruct (0 <=? s) eqn:E1, (s <? NumSectors) eqn:E2; cbn; try discriminate.
  intros _. lia.
Qed.

(* FetchFrom runs out of fuel exactly when the links go on that far. *)
Lemma FetchFrom_rec_diverges fuel : forall this s d,
  filehdr.FetchFrom_rec fuel this s d = Stop Diverges <-> is_Some (follow d fuel s).
Proof.
  induction fuel as [|fuel IH]; intros this s d.
  - cbn. split; [eauto | reflexivity].
  - cbn [filehdr.FetchFrom_rec follow]. unfold link, bind.
    destruct (synchdisk.ReadSector s d) as [[buf d1]|f] eqn:Eread.
    + assert (d1 = d) as -> by exact (readonly_ReadSector _ _ _ _ Eread).
      unfold filehdr.within_buffer.
      destruct (filehdr.header_bytes <=? SectorSize).
      * cbn [ret filehdr.nextFileHeaderSector].
        destruct (decode_int buf 8 =? -1); cbn [negb].
        -- split; [discriminate | intros [x [=]]].
        -- rewrite <- (IH filehdr.new).
           destruct (filehdr.FetchFrom_rec fuel filehdr.new (decode_int buf 8) d)
             as [[next d2]|f]; [|reflexivity].
           split; discriminate.
      * cbn. split; [discriminate | intros [x [=]]].
    + split; [|intros [x [=]]].
      intros [= ->]. unfold synchdisk.ReadSector in Eread.
      destruct (_ && _); [|discriminate]. destruct (d !! _); discriminate.
Qed.

Lemma follow_add d a : forall b s,
  follow d (a + b) s = match follow d a s with
                       | Some t => follow d b t
                       | None => None
                       end.
Proof.
  induction a as [|a IH]; intros b s; cbn [follow Nat.add]; [reflexivity|].
  destruct (link d s); [apply IH | reflexivity].
Qed.

Lemma follow_shorter d a b s :
  (a <= b)%nat -> is_Some (follow d b s) -> is_Some (follow d a s).
Proof.
  intros Hab. replace b with (a + (b - a))%nat by lia. rewrite follow_add.
  destruct (follow d a s); [eauto | now intros [x [=]]].
Qed.

(* Along NumSectors + 1 links some sector comes twice, and then the links
   never end. *)
Lemma follow_forever d s :
  is_Some (follow d (S (Z.to_nat NumSectors)) s) -> forall k, is_Some (follow d k s).
Proof.
  set (N := Z.to_nat NumSectors). intros Hlong.
  (* the sectors met after 0, 1, ..., N links *)
  set (met := (fun i => default 0 (follow d i s)) <$> seq 0 (S N)).
  assert (Hmet : forall i, (i <= N)%nat ->
             follow d i s = Some (default 0 (follow d i s)) /\
             met !! i = Some (default 0 (follow d i s))).
  { intros i Hi. split.
    - destruct (follow_shorter d i (S N) s ltac:(lia) Hlong) as [t ->]. reflexivity.
    - unfold met. rewrite list_lookup_fmap, lookup_seq_lt by lia. reflexivity. }
  assert (Hrange : Forall (fun t => 0 <= t < NumSectors) met).
  { apply Forall_lookup. intros i t Ht.
    assert (Hi : (i <= N)%nat).
    { apply lookup_lt_Some in Ht. unfold met in Ht.
      rewrite length_fmap, length_seq in Ht. lia. }
    destruct (Hmet i Hi) as [Hf Hm]. rewrite Hm in Ht. injection Ht as <-.
    destruct (follow_shorter d (S i) (S N) s ltac:(lia) Hlong) as [u Hu].
    replace (S i) with (i + 1)%nat in Hu by lia.
    rewrite follow_add, Hf in Hu. cbn in Hu.
    destruct (link d (default 0 (follow d i s))) as [n|] eqn:El; [|discriminate].
    eapply link_in_range. exact El. }
  destruct (repeated_element met) as (i & j & x & Hij & Hi & Hj).
  { intros Hnodup. pose proof (NoDup_bounded_length _ _ Hnodup Hrange) as Hlen.
    unfold met in Hlen. rewrite length_fmap, length_seq in Hlen. lia. }
  assert (HjN : (j <= N)%nat).
  { apply lookup_lt_Some in Hj. unfold met in Hj.
    rewrite length_fmap, length_seq in Hj. lia. }
  destruct (Hmet i ltac:(lia)) as [Hfi Hmi]. destruct (Hmet j HjN) as [Hfj Hmj].
  rewrite Hmi in Hi. rewrite Hmj in Hj.
  rewrite Hi in Hfi. rewrite Hj in Hfj. clear Hmi Hmj Hi Hj.
  (* from x, (j - i) links lead back to x *)
  assert (Hloop : follow d (j - i) x = Some x).
  { replace j with (i + (j - i))%nat in Hfj by lia.
    rewrite follow_add, Hfi in Hfj. exact Hfj. }
  assert (Hround : forall m, is_Some (follow d (m * (j - i)) x)).
  { induction m as [|m IHm]; [cbn; eauto|].
    cbn [Nat.mul]. rewrite follow_add, Hloop. exact IHm. }
  intros k. apply (follow_shorter d k (i + k * (j - i)) s); [nia|].
  rewrite follow_add, Hfi. apply Hround.
Qed.

(* When FetchFrom stops for want of fuel, no amount of fuel would do: the
   chain on the disk is circular. *)
Lemma FetchFrom_diverges this s d :
  filehdr.FetchFrom this s d = Stop Diverges ->
  forall fuel this', filehdr.FetchFrom_rec fuel this' s d = Stop Diverges.
Proof.
  unfold filehdr.FetchFrom. intros E fuel this'.
  apply FetchFrom_rec_diverges. apply follow_forever.
  now apply (FetchFrom_rec_diverges _ this).
Qed.

(* More fuel does not change what FetchFrom has returned. *)
Lemma FetchFrom_rec_more_fuel fuel : forall this s d h d' fuel',
  filehdr.FetchFrom_rec fuel this s d = Ret (h, d') -> (fuel <= fuel')%nat ->
  filehdr.FetchFrom_rec fuel' this s d = Ret (h, d').
Proof.
  induction fuel as [|fuel IH]; intros this s d h d' fuel' E Hle; [discriminate|].
  destruct fuel' as [|fuel']; [lia|].
  cbn [filehdr.FetchFrom_rec] in *.
  bind_inv E as buf d1 E1. rewrite (bind_eq _ _ _ _ _ E1).
  bind_inv E as u d2 E2. rewrite (bind_eq _ _ _ _ _ E2).
  cbn [filehdr.nextFileHeaderSector] in *.
  destruct (negb _); [|exact E].
  bind_inv E as next d3 E3.
  rewrite (bind_eq _ _ _ _ _ (IH _ _ _ _ _ fuel' E3 ltac:(lia))). exact E.
Qed.

End Fuel.

(** ** The chains Allocate builds *)

Lemma set_bit_keeps (b : list bool) i k :
  b !! k = Some true -> <[i := true]> b !! k = Some true.
Proof.
  intros Hk. destruct (decide (i = k)) as [->|Hne].
  - apply list_lookup_insert_eq. now apply lookup_lt_Some in Hk.
  - now rewrite list_lookup_insert_ne.
Qed.

Lemma clear_before (fm fm' : list bool) k :
  length fm' = length fm ->
  (forall j, fm !! j = Some true -> fm' !! j = Some true) ->
  fm' !! k = Some false -> fm !! k = Some false.
Proof.
  intros Hlen Hmono Hk. destruct (fm !! k) as [[]|] eqn:E.
  - apply Hmono in E. congruence.
  - reflexivity.
  - apply lookup_ge_None in E. apply lookup_lt_Some in Hk. lia.
Qed.

Section AllocatedChains.
Context `{G : Geometry}.

Lemma allocate_sectors_inv count : forall i ds fm d ds' fm' d',
  filehdr.allocate_sectors count i ds fm d = Ret ((ds', fm'), d') ->
  (forall k, fm !! k = Some true -> fm' !! k = Some true) /\
  (forall bound, Z.of_nat (length fm) <= bound ->
     Forall (fun v => -1 <= v < bound) ds -> Forall (fun v => -1 <= v < bound) ds').
Proof.
  induction count as [|count IH]; intros i ds fm d ds' fm' d' E; cbn in E.
  - apply ret_Ret in E as [[= <- <-] ->]. auto.
  - destruct (bitmap.FindAndSet fm) as [s fm1] eqn:Efs.
    lift_inv E as ds1 E0. apply array_set_Ret in E0 as [Hi ->].
    assert_inv E as E1. apply Z.leb_le in E1.
    bind_inv E as [] d2 E2.
    apply IH in E as (Hmono & Hds).
    apply FindAndSet_cases in Efs as [(-> & _)|(Hs & -> & _ & _ & Hl1)]; [lia|].
    split.
    + intros k Hk. apply Hmono. now apply set_bit_keeps.
    + intros bound Hb Hall. apply Hds.
      * rewrite length_insert. lia.
      * apply Forall_insert; [assumption | lia].
Qed.

Lemma Allocate_rec_chain fuel : forall fm size d r h fm' d',
  ints_fit -> Z.of_nat (length fm) <= NumSectors ->
  int_range size -> int_range (size - filehdr.MaxFileSize) ->
  filehdr.Allocate_rec fuel filehdr.new fm size d = Ret ((r, h, fm'), d') ->
  chain_ok h /\
  (forall k, fm !! k = Some true -> fm' !! k = Some true) /\
  length fm' = length fm /\ length d' = length d /\
  NoDup (successor_sectors h) /\
  Forall (fun s => 0 <= s < NumSectors /\ fm !! Z.to_nat s = Some false)
    (successor_sectors h).
Proof.
  induction fuel as [|fuel IH]; intros fm size d r h fm' d' Hg Hfm Hsize Hsub E;
    [discriminate|].
  pose proof (MaxFileSize_int Hg) as Emax. pose proof (MaxFileSize_pos Hg) as Hmax.
  assert (Hsecs : 0 <= NumDirect /\ NumSectors + 1 < 2 ^ 31)
    by (unfold ints_fit in Hg; nia).
  apply Allocate_rec_Ret in E. cbv zeta in E. rewrite Emax in E.
  rewrite (to_int_id _ Hsub) in E.
  set (nb := if size >? filehdr.MaxFileSize then filehdr.MaxFileSize else size) in *.
  assert (Hnb : int_range nb)
    by (subst nb; destruct (_ >? _); unfold int_range in *; lia).
  pose proof (to_int_range
    (nb ÷ SectorSize + (if Z.rem nb SectorSize >? 0 then 1 else 0))) as Hns.
  fold (divRoundUp nb SectorSize) in Hns.
  assert (Hfresh : Forall (fun v => -1 <= v < NumSectors)
                     (filehdr.dataSectors filehdr.new))
    by (apply Forall_replicate; lia).
  assert (Hints : forall ds, Forall (fun v => -1 <= v < NumSectors) ds ->
                             Forall int_range ds).
  { intros ds Hall. eapply Forall_impl; [exact Hall|].
    intros v Hv. cbv beta in Hv. unfold int_range. lia. }
  destruct E as [(_ & _ & -> & -> & ->)|(_ & ds1 & fm1 & d1 & Eloop &
    [(_ & _ & -> & -> & ->)|(Hmore & s & fm2 & r' & next & Efs & Hs & Erec & _ & ->)])].
  - cbn. split_and!; auto; try (unfold int_range; lia).
    + apply length_replicate.
    + constructor.
  - pose proof (allocate_sectors_Ret _ _ _ _ _ _ _ _ Eloop) as (_ & Hl & Hlds & Hld).
    apply allocate_sectors_inv in Eloop as (Hmono & Hds).
    cbn. split_and!; auto; try (unfold int_range; lia).
    + rewrite Hlds. apply length_replicate.
    + constructor.
  - pose proof (allocate_sectors_Ret _ _ _ _ _ _ _ _ Eloop) as (_ & Hl & Hlds & Hld).
    apply allocate_sectors_inv in Eloop as (Hmono & Hds).
    apply FindAndSet_cases in Efs as [(-> & _)|(Hs1 & -> & Hclear & _ & Hl2)]; [lia|].
    apply IH in Erec as (Hok & Hmono2 & Hl3 & Hld3 & Hnodup & Hall);
      try assumption; try (unfold int_range in *; lia).
    cbn [chain_ok successor_sectors filehdr.numBytes filehdr.numSectors
         filehdr.dataSectors filehdr.nextFileHeader filehdr.nextFileHeaderSector].
    split_and!; auto; try (unfold int_range; lia); try congruence.
    + rewrite Hlds. apply length_replicate.
    + intros k Hk. apply Hmono2. apply set_bit_keeps. now apply Hmono.
    + apply NoDup_cons. split; [|assumption].
      intros Hmem. rewrite Forall_forall in Hall. apply Hall in Hmem as [_ Hfalse].
      rewrite list_lookup_insert_eq in Hfalse by lia. discriminate.
    + constructor.
      * split; [lia|]. eapply clear_before; eassumption.
      * eapply Forall_impl; [exact Hall|]. intros s' [Hr Hc]. split; [assumption|].
        eapply clear_before; [exact Hl | exact Hmono |].
        eapply clear_before; [|intros j; apply set_bit_keeps|exact Hc].
        now rewrite length_insert.
Qed.

(* What Allocate returns can be written at any sector that was in use
   before the call, and read back. *)
Lemma Allocate_WriteBack_FetchFrom fm size d r h fm' d' sector :
  ints_fit -> header_fits -> disk_ok d -> Z.of_nat (length fm) <= NumSectors ->
  int_range size -> int_range (size - filehdr.MaxFileSize) ->
  filehdr.Allocate filehdr.new fm size d = Ret ((r, h, fm'), d') ->
  0 <= sector -> fm !! Z.to_nat sector = Some true ->
  exists d'',
    filehdr.WriteBack h sector d' = Ret (tt, d'') /\
    filehdr.FetchFrom filehdr.new sector d'' = Ret (h, d'').
Proof.
  intros Hg Hfit Hd Hfm Hsize Hsub E Hsec Hused.
  apply Allocate_rec_chain in E as (Hok & _ & _ & Hld & Hnodup & Hall);
    try assumption.
  apply WriteBack_FetchFrom_roundtrip; try assumption.
  - unfold ints_fit in Hg. lia.
  - unfold disk_ok in *. lia.
  - split.
    + apply NoDup_cons. split; [|assumption].
      intros Hmem. rewrite Forall_forall in Hall. apply Hall in Hmem as [_ Hc].
      congruence.
    + constructor.
      * apply lookup_lt_Some in Hused. lia.
      * eapply Forall_impl; [exact Hall|]. now intros s [Hr _].
Qed.

End AllocatedChains.

Section ChainInvariant.
Context `{G : Geometry}.

(** C9. In every chain Allocate builds in a fresh header, a segment that
    names a successor sector (nextFileHeaderSector is not -1) holds exactly
    MaxFileSize bytes; only the segment that ends the chain may hold less.
    The same is true of the chain FetchFrom reads after WriteBack has
    written the allocated chain at a sector that was in use before the
    call (as Create and the constructor do). *)
Theorem Allocate_nonterminal_segments_full fm size d r h fm' d' :
  ints_fit -> int_range size -> int_range (size - filehdr.MaxFileSize) ->
  filehdr.Allocate filehdr.new fm size d = Ret ((r, h, fm'), d') ->
  nonterminal_full h /\
  (header_fits -> disk_ok d -> Z.of_nat (length fm) <= NumSectors ->
   forall sector, 0 <= sector -> fm !! Z.to_nat sector = Some true ->
   exists d'' h',
     filehdr.WriteBack h sector d' = Ret (tt, d'') /\
     filehdr.FetchFrom filehdr.new sector d'' = Ret (h', d'') /\
     nonterminal_full h').
Proof.
  intros Hg Hsize Hsub E.
  pose proof (Allocate_nonterminal_full _ _ _ _ _ _ _ Hg Hsize Hsub E) as Hfull.
  split; [exact Hfull|].
  intros Hfit Hd Hfm sector Hsec Hused.
  destruct (Allocate_WriteBack_FetchFrom _ _ _ _ _ _ _ sector
              Hg Hfit Hd Hfm Hsize Hsub E Hsec Hused) as (d'' & Ew & Ef).
  exists d'', h. auto.
Qed.

End ChainInvariant.

(** ** What only reads the disk *)

Section ReadOnly.
Context `{G : Geometry}.

Lemma readonly_within_buffer : readonly filehdr.within_buffer.
Proof. unfold filehdr.within_buffer. destruct (_ <=? _); auto with readonly. Qed.

Lemma readonly_FetchFrom_rec fuel : forall this sector,
  readonly (filehdr.FetchFrom_rec fuel this sector).
Proof.
  induction fuel as [|fuel IH]; intros this sector; cbn [filehdr.FetchFrom_rec].
  - apply readonly_stop.
  - apply readonly_bind; [apply readonly_ReadSector|]. intros buf.
    apply readonly_bind; [apply readonly_within_buffer|]. intros _.
    cbn [filehdr.nextFileHeaderSector].
    destruct (negb _); [|apply readonly_ret].
    apply readonly_bind; [apply IH|]. intros next. apply readonly_ret.
Qed.

Lemma readonly_OpenFile sector : readonly (openfile.new sector).
Proof.
  unfold openfile.new, filehdr.FetchFrom.
  apply readonly_bind; [apply readonly_FetchFrom_rec|]. intros h. apply readonly_ret.
Qed.

Lemma readonly_read_sectors count : forall i h, readonly (openfile.read_sectors count i h).
Proof.
  induction count as [|count IH]; intros i h; cbn [openfile.read_sectors].
  - apply readonly_ret.
  - apply readonly_bind; [apply readonly_lift|]. intros s.
    apply readonly_bind; [apply readonly_ReadSector|]. intros data.
    apply readonly_bind; [apply IH|]. intros rest. apply readonly_ret.
Qed.

Lemma readonly_ReadAt f numBytes position : readonly (openfile.ReadAt f numBytes position).
Proof.
  unfold openfile.ReadAt. destruct (_ || _); [apply readonly_ret|].
  apply readonly_bind; [apply readonly_read_sectors|]. intros buf. apply readonly_ret.
Qed.

Lemma readonly_Directory_FetchFrom table file :
  readonly (directory.FetchFrom table file).
Proof.
  unfold directory.FetchFrom.
  apply readonly_bind; [apply readonly_ReadAt|]. intros bytes. apply readonly_ret.
Qed.

Lemma readonly_Bitmap_load file numItems : readonly (pbitmap.load file numItems).
Proof.
  unfold pbitmap.load, pbitmap.FetchFrom.
  apply readonly_bind; [apply readonly_ReadAt|]. intros bytes. apply readonly_ret.
Qed.

Lemma load_length file numItems d b d' :
  pbitmap.load file numItems d = Ret (b, d') -> length b = Z.to_nat numItems.
Proof.
  unfold pbitmap.load, pbitmap.FetchFrom. intros E.
  bind_inv E as bytes d1 E1. apply ret_Ret in E as [<- _].
  unfold pbitmap.unpack, bitmap.new.
  now rewrite length_fmap, length_seq, length_replicate.
Qed.

Lemma readonly_walk rest : forall token file dir,
  readonly (filesys.walk rest token file dir).
Proof.
  induction rest as [|nextToken rest IH]; intros token file dir; cbn [filesys.walk].
  - apply readonly_ret.
  - destruct (directory.IsDir dir token); [|apply readonly_ret].
    destruct (_ =? -1); [apply readonly_ret|].
    apply readonly_bind; [apply readonly_OpenFile|]. intros file'.
    apply readonly_bind; [apply readonly_Directory_FetchFrom|]. intros dir'.
    apply IH.
Qed.

Lemma readonly_FindSubDir fs path : readonly (filesys.FindSubDir fs path).
Proof.
  unfold filesys.FindSubDir.
  apply readonly_bind; [apply readonly_Directory_FetchFrom|]. intros dir.
  destruct (filesys.strtok_all _ _); [apply readonly_ret | apply readonly_walk].
Qed.

Lemma readonly_strcpy_500 path : readonly (filesys.strcpy_500 path).
Proof.
  unfold filesys.strcpy_500. destruct (_ <? _)%nat; auto with readonly.
Qed.

End ReadOnly.

(** ** Create *)

Section CreateFailure.
Context `{G : Geometry}.

(* The value Allocate returns counts SectorSize for every header on the
   way: it is 0 only when the very first entry check fails. *)
Lemma Allocate_rec_result fuel : forall this fm size d r h fm' d',
  0 < SectorSize -> SectorSize * Z.of_nat fuel < 2 ^ 31 ->
  filehdr.Allocate_rec fuel this fm size d = Ret ((r, h, fm'), d') ->
  0 <= r <= SectorSize * Z.of_nat fuel /\ (r = 0 -> d' = d /\ fm' = fm).
Proof.
  induction fuel as [|fuel IH]; intros this fm size d r h fm' d' HS Hfuel E;
    [discriminate|].
  apply Allocate_rec_Ret in E. cbv zeta in E.
  destruct E as [(_ & -> & -> & -> & _)|(_ & ds1 & fm1 & d1 & _ &
    [(_ & -> & _)|(_ & s & fm2 & r' & next & _ & _ & Erec & -> & _)])].
  - split; [nia | auto].
  - split; [nia | lia].
  - apply IH in Erec as [Hr' _]; [|assumption|nia].
    rewrite to_int_id by (unfold int_range; nia). split; [nia | lia].
Qed.

Lemma Allocate_zero this fm size d h fm' d' :
  ints_fit -> Z.of_nat (length fm) <= NumSectors ->
  filehdr.Allocate this fm size d = Ret ((0, h, fm'), d') -> d' = d.
Proof.
  intros Hg Hfm E. unfold filehdr.Allocate in E.
  apply Allocate_rec_result in E as [_ Hz].
  - now apply Hz.
  - unfold ints_fit in Hg. lia.
  - pose proof (count_clear_le fm). unfold ints_fit in Hg. nia.
Qed.

(** C5. Whenever Create returns FALSE (no such directory, name taken, no
    sector for the header, directory full, or not enough room for the
    data), the disk is exactly as it was before the call: the bitmap and
    the directory it changed in memory are dropped and nothing, in
    particular neither the free-map file nor the directory file, has been
    written. *)
Theorem Create_failure_leaves_disk fs path initialSize isDir d d' :
  ints_fit ->
  filesys.Create fs path initialSize isDir d = Ret (false, d') ->
  d' = d.
Proof.
  intros Hg E. unfold filesys.Create in E.
  bind_inv E as targetPath d1 E1. apply readonly_strcpy_500 in E1 as ->.
  bind_inv E as found d1 E1. apply readonly_FindSubDir in E1 as ->.
  destruct found as [[curDirFile name]|]; [|now apply ret_Ret in E].
  bind_inv E as dir d1 E1. apply readonly_Directory_FetchFrom in E1 as ->.
  destruct (negb _); [now apply ret_Ret in E|].
  bind_inv E as freeMap d1 E1.
  pose proof (load_length _ _ _ _ _ E1) as Hlen.
  apply readonly_Bitmap_load in E1 as ->.
  destruct (bitmap.FindAndSet freeMap) as [sector freeMap1] eqn:Efs.
  destruct (sector =? -1); [now apply ret_Ret in E|].
  destruct (directory.Add dir name sector isDir) as [added dir1].
  destruct (negb added); [now apply ret_Ret in E|].
  bind_inv E as [[totalSize hdr] freeMap2] d1 E1.
  destruct (totalSize =? 0) eqn:Ez.
  - apply ret_Ret in E as [_ ->]. apply Z.eqb_eq in Ez as ->.
    eapply Allocate_zero; [exact Hg | | exact E1].
    apply FindAndSet_cases in Efs as [(_ & -> & _)|(_ & _ & _ & _ & ->)];
      unfold ints_fit in Hg; lia.
  - bind_inv E as u1 d2 E2. bind_inv E as u2 d3 E3. bind_inv E as u3 d4 E4.
    now apply ret_Ret in E as [[=] _].
Qed.

End CreateFailure.

(** ** Deallocate *)

Section DeallocateProps.
Context `{G : Geometry}.

Lemma array_get_elem {A} (a : list A) i v : array_get a i = Ret v -> v ∈ a.
Proof.
  unfold array_get. destruct (0 <=? i); [|discriminate].
  destruct (a !! Z.to_nat i) as [x|] eqn:E; [|discriminate].
  intros [= <-]. eapply list_elem_of_lookup_2. exact E.
Qed.

Lemma Clear_Ret fm s fm' :
  bitmap.Clear fm s = Ret fm' -> 0 <= s /\ fm' = <[Z.to_nat s := false]> fm.
Proof.
  unfold bitmap.Clear, bitmap.valid.
  destruct (0 <=? s) eqn:E; [|discriminate].
  destruct (s <? _); [|discriminate]. intros [= <-]. split; [lia | reflexivity].
Qed.

(* The loop of Deallocate changes no bit but those named in the table. *)
Lemma deallocate_sectors_frame count : forall i ds fm d fm' d',
  filehdr.deallocate_sectors count i ds fm d = Ret (fm', d') ->
  forall s, 0 <= s -> s ∉ ds -> fm' !! Z.to_nat s = fm !! Z.to_nat s.
Proof.
  induction count as [|count IH]; intros i ds fm d fm' d' E s Hs Hnot; cbn in E.
  - now apply ret_Ret in E as [<- _].
  - lift_inv E as v E0. apply array_get_elem in E0.
    lift_inv E as marked E1. assert_inv E as E2.
    lift_inv E as fm1 E3. apply Clear_Ret in E3 as [Hv ->].
    rewrite (IH _ _ _ _ _ _ E s Hs Hnot).
    apply list_lookup_insert_ne. intros Heq.
    apply Hnot. now replace s with v by lia.
Qed.

(* Deallocate changes no bit but those named in the tables of the chain:
   in particular it never clears a nextFileHeaderSector. *)
Lemma Deallocate_frame h : forall fm d fm' d',
  filehdr.Deallocate h fm d = Ret (fm', d') ->
  forall s, 0 <= s -> s ∉ all_data h -> fm' !! Z.to_nat s = fm !! Z.to_nat s.
Proof.
  induction h as [nb ns ds s0|nb ns ds next s0 IH] using filehdr.chain_ind;
    intros fm d fm' d' E s Hs Hnot; cbn in E, Hnot.
  - bind_inv E as fm1 d1 E1. apply ret_Ret in E as [<- _].
    eapply deallocate_sectors_frame; [exact E1 | assumption |].
    intros Hmem. apply Hnot. apply elem_of_app. now left.
  - bind_inv E as fm1 d1 E1.
    rewrite (IH _ _ _ _ E s Hs).
    + eapply deallocate_sectors_frame; [exact E1 | assumption |].
      intros Hmem. apply Hnot. apply elem_of_app. now left.
    + intros Hmem. apply Hnot. apply elem_of_app. now right.
Qed.

Lemma taken_later (fm0 fm fm' : list bool) v :
  (forall k, fm !! k = Some true -> fm' !! k = Some true) ->
  v = -1 \/ taken fm0 fm v -> v = -1 \/ taken fm0 fm' v.
Proof.
  intros Hmono [->|(Hv & Hc & Hset)]; [now left|]. right.
  split; [assumption|]. split; [assumption|]. now apply Hmono.
Qed.

(* The cells the loop of Allocate fills hold sectors that were clear when
   the loop began and are in use when it ends. *)
Lemma allocate_sectors_taken count : forall i ds fm d ds' fm' d' fm0,
  filehdr.allocate_sectors count i ds fm d = Ret ((ds', fm'), d') ->
  length fm = length fm0 ->
  (forall k, fm0 !! k = Some true -> fm !! k = Some true) ->
  Forall (fun v => v = -1 \/ taken fm0 fm v) ds ->
  Forall (fun v => v = -1 \/ taken fm0 fm' v) ds'.
Proof.
  induction count as [|count IH]; intros i ds fm d ds' fm' d' fm0 E Hlen Hmono Hds;
    cbn in E.
  - now apply ret_Ret in E as [[= <- <-] ->].
  - destruct (bitmap.FindAndSet fm) as [s fm1] eqn:Efs.
    lift_inv E as ds1 E0. apply array_set_Ret in E0 as [Hi ->].
    assert_inv E as E1. apply Z.leb_le in E1.
    bind_inv E as [] d2 E2.
    apply FindAndSet_cases in Efs as [(-> & _)|(Hs & -> & Hclear & _ & Hl1)]; [lia|].
    eapply IH; [exact E | | |].
    + now rewrite length_insert.
    + intros k Hk. apply set_bit_keeps. now apply Hmono.
    + apply Forall_insert.
      * eapply Forall_impl; [exact Hds|]. intros v Hv. cbv beta in Hv.
        eapply taken_later; [|exact Hv]. intros k. apply set_bit_keeps.
      * right. split; [lia|]. split.
        -- eapply clear_before; [exact Hlen | exact Hmono | exact Hclear].
        -- apply list_lookup_insert_eq. lia.
Qed.

(* In a chain Allocate has built, every table cell is -1 or a sector taken
   by the call, every successor's header sector was taken by the call, and
   no header sector occurs in a table. *)
Lemma Allocate_rec_taken fuel : forall fm size d r h fm' d',
  filehdr.Allocate_rec fuel filehdr.new fm size d = Ret ((r, h, fm'), d') ->
  (forall k, fm !! k = Some true -> fm' !! k = Some true) /\
  length fm' = length fm /\
  Forall (fun v => v = -1 \/ taken fm fm' v) (all_data h) /\
  Forall (taken fm fm') (successor_sectors h) /\
  Forall (fun s => s ∉ all_data h) (successor_sectors h).
Proof.
  induction fuel as [|fuel IH]; intros fm size d r h fm' d' E; [discriminate|].
  apply Allocate_rec_Ret in E. cbv zeta in E.
  assert (Hfresh : forall fm1 : list bool,
             Forall (fun v => v = -1 \/ taken fm fm1 v)
               (filehdr.dataSectors filehdr.new)).
  { intros fm1. apply Forall_replicate. now left. }
  destruct E as [(_ & _ & -> & -> & ->)|(_ & ds1 & fm1 & d1 & Eloop &
    [(_ & _ & -> & -> & ->)|(_ & s & fm2 & r' & next & Efs & Hs & Erec & _ & ->)])].
  - cbn. rewrite app_nil_r. split_and!; auto; constructor.
  - pose proof (allocate_sectors_Ret _ _ _ _ _ _ _ _ Eloop) as (_ & Hl & _).
    pose proof (allocate_sectors_inv _ _ _ _ _ _ _ _ Eloop) as (Hmono & _).
    eapply allocate_sectors_taken in Eloop; [| reflexivity | auto | apply Hfresh].
    cbn. rewrite app_nil_r. split_and!; auto; constructor.
  - pose proof (allocate_sectors_Ret _ _ _ _ _ _ _ _ Eloop) as (_ & Hl & _).
    pose proof (allocate_sectors_inv _ _ _ _ _ _ _ _ Eloop) as (Hmono & _).
    eapply allocate_sectors_taken in Eloop; [| reflexivity | auto | apply Hfresh].
    apply FindAndSet_cases in Efs as [(-> & _)|(Hs1 & -> & Hclear & _ & Hl2)]; [lia|].
    apply IH in Erec as (Hmono2 & Hl3 & Hdata & Hsucc & Hsep).
    rewrite length_insert in Hl3.
    assert (Hmono12 : forall k, fm1 !! k = Some true -> fm' !! k = Some true).
    { intros k Hk. apply Hmono2. now apply set_bit_keeps. }
    assert (Hback : forall v, taken (<[Z.to_nat s := true]> fm1) fm' v -> taken fm fm' v).
    { intros v (Hv & Hc & Hset). split; [assumption|]. split; [|assumption].
      eapply clear_before; [exact Hl | exact Hmono |].
      eapply clear_before; [|intros j; apply set_bit_keeps|exact Hc].
      now rewrite length_insert. }
    assert (Hs_taken : taken fm fm' s).
    { split; [assumption|]. split.
      - eapply clear_before; eassumption.
      - apply Hmono2. apply list_lookup_insert_eq. lia. }
    cbn [all_data successor_sectors filehdr.dataSectors filehdr.nextFileHeader
         filehdr.nextFileHeaderSector].
    split_and!.
    + intros k Hk. apply Hmono12. now apply Hmono.
    + congruence.
    + apply Forall_app. split.
      * eapply Forall_impl; [exact Eloop|]. intros v Hv. cbv beta in Hv.
        eapply taken_later; [exact Hmono12 | exact Hv].
      * eapply Forall_impl; [exact Hdata|]. intros v [->|Hv]; [now left|].
        right. now apply Hback.
    + constructor; [exact Hs_taken|].
      eapply Forall_impl; [exact Hsucc|]. exact Hback.
    + constructor.
      * (* the header sector was clear after the data of this segment were
           taken and in use before those of the successors were *)
        intros Hmem. apply elem_of_app in Hmem as [Hmem|Hmem].
        -- rewrite Forall_forall in Eloop. apply Eloop in Hmem as [->|(_ & _ & Hset)];
             [lia | congruence].
        -- rewrite Forall_forall in Hdata. apply Hdata in Hmem as [->|(_ & Hc & _)];
             [lia|]. rewrite list_lookup_insert_eq in Hc by lia. discriminate.
      * rewrite Forall_forall in Hsucc, Hsep |- *. intros s' Hs'.
        pose proof (Hsucc s' Hs') as (Hs'0 & Hs'c & _).
        intros Hmem. apply elem_of_app in Hmem as [Hmem|Hmem].
        -- rewrite Forall_forall in Eloop. apply Eloop in Hmem as [->|(_ & _ & Hset)];
             [lia|].
           apply (set_bit_keeps _ (Z.to_nat s)) in Hset. congruence.
        -- now apply (Hsep s' Hs').
Qed.

(* Allocate, then Deallocate: the header sector of every successor, free
   before the allocation, is still marked after the deallocation. *)
Lemma Deallocate_keeps_successor_headers fm size d r h fm1 d1 fm2 d2 :
  filehdr.Allocate filehdr.new fm size d = Ret ((r, h, fm1), d1) ->
  filehdr.Deallocate h fm1 d1 = Ret (fm2, d2) ->
  Forall (fun s => fm !! Z.to_nat s = Some false /\ fm2 !! Z.to_nat s = Some true)
    (successor_sectors h).
Proof.
  intros Ea Ed. unfold filehdr.Allocate in Ea.
  apply Allocate_rec_taken in Ea as (_ & _ & _ & Hsucc & Hsep).
  rewrite Forall_forall in Hsucc, Hsep |- *. intros s Hs.
  destruct (Hsucc s Hs) as (Hs0 & Hc & Hset). split; [assumption|].
  rewrite (Deallocate_frame _ _ _ _ _ Ed s Hs0 (Hsep s Hs)). exact Hset.
Qed.

End DeallocateProps.

(** ** FindSubDir, Remove and Open *)

Section FacadeClaims.
Context `{G : Geometry}.

(** C3. The first component of the path is followed by another one and does
    not name a sub-directory of the root (IsDir is FALSE: it names a plain
    file, or nothing).  The while loop is not entered and FindSubDir returns
    the handle of the root directory with that unresolved component as the
    final name, where the specification has it return NULL. *)
Theorem FindSubDir_keeps_unresolved_component fs path d root d' token next rest :
  directory.FetchFrom (directory.new NumDirEntries) (filesys.directoryFile fs) d
    = Ret (root, d') ->
  filesys.strtok_all path EmptyString = token :: next :: rest ->
  directory.IsDir root token = false ->
  filesys.FindSubDir fs path d = Ret (Some (filesys.directoryFile fs, token), d').
Proof.
  intros Efetch Etok Hdir. unfold filesys.FindSubDir.
  erewrite bind_eq by exact Efetch. rewrite Etok.
  cbn [filesys.walk]. now rewrite Hdir.
Qed.

(* The same at any depth: the loop stops at the first component that is
   not a sub-directory and the directory reached so far is returned. *)
Lemma walk_stops_at_unresolved_component rest next token file dir d :
  directory.IsDir dir token = false ->
  filesys.walk (next :: rest) token file dir d = Ret (Some (file, token), d).
Proof. intros Hdir. cbn [filesys.walk]. now rewrite Hdir. Qed.

(** C4. Whatever Remove has done, the value it returns is FALSE: also when
    the file was found and removed, where the specification (and the
    comment above the function) has it return TRUE. *)
Theorem Remove_returns_FALSE fuel fs recursion path d b d' :
  filesys.Remove fuel fs recursion path d = Ret (b, d') -> b = false.
Proof.
  destruct fuel as [|fuel]; [discriminate|]. cbn [filesys.Remove]. intros E.
  bind_inv E as targetPath d1 E1.
  bind_inv E as found d2 E2.
  destruct found as [[curDirFile name]|]; [|now apply ret_Ret in E as [<- _]].
  bind_inv E as dir d3 E3.
  destruct (_ =? -1); [now apply ret_Ret in E as [<- _]|].
  bind_inv E as u d4 E4.
  bind_inv E as fileHdr d5 E5.
  bind_inv E as freeMap d6 E6.
  bind_inv E as freeMap1 d7 E7.
  bind_inv E as freeMap2 d8 E8.
  destruct (directory.Remove dir name) as [removed dir1].
  bind_inv E as u1 d9 E9.
  bind_inv E as u2 d10 E10.
  now apply ret_Ret in E as [<- _].
Qed.

(* The loop of Open over a table whose cells from ID on are all taken,
   when it is allowed to go past the last cell: it reads the cell after
   the last one. *)
Lemma free_slot_past_table count : forall ID (table : list (option openfile.OpenFile)),
  0 <= ID <= Z.of_nat (length table) ->
  Z.of_nat (length table) < ID + Z.of_nat count ->
  (forall i, (Z.to_nat ID <= i < length table)%nat ->
             exists f, table !! i = Some (Some f)) ->
  filesys.free_slot count ID table = Stop (WildIndex (Z.of_nat (length table))).
Proof.
  induction count as [|count IH]; intros ID table HID Hcount Hfull; [lia|].
  cbn [filesys.free_slot]. unfold array_get.
  destruct (0 <=? ID) eqn:E0; [|lia].
  destruct (decide (ID = Z.of_nat (length table))) as [->|Hne].
  - rewrite Nat2Z.id.
    now rewrite (proj2 (lookup_ge_None table (length table)) (Nat.le_refl _)).
  - destruct (Hfull (Z.to_nat ID)) as [f ->]; [lia|].
    apply IH; [lia | lia |]. intros i Hi. apply Hfull. lia.
Qed.

(** C6. The path names an existing file, the cells 1 .. MAXFILENUM-1 of
    fileDescriptorTable are taken and openedNum is not MAXFILENUM (as after
    MAXFILENUM - 1 calls of Open).  The test openedNum == MAXFILENUM lets
    the call through and the loop, which runs while ID <= MAXFILENUM, reads
    fileDescriptorTable[MAXFILENUM]: a cell that the loop of the
    constructor (i < MAXFILENUM) never gave a value. *)
Theorem Open_reads_cell_MAXFILENUM fs path d curDirFile name dir file :
  0 < MAXFILENUM ->
  (String.length path < 500)%nat ->
  filesys.FindSubDir fs path d = Ret (Some (curDirFile, name), d) ->
  directory.FetchFrom (directory.new NumDirEntries) curDirFile d = Ret (dir, d) ->
  0 <= directory.Find dir name ->
  openfile.new (directory.Find dir name) d = Ret (file, d) ->
  Z.of_nat (length (filesys.fileDescriptorTable fs)) = MAXFILENUM ->
  Forall (fun cell => cell <> None) (drop 1 (filesys.fileDescriptorTable fs)) ->
  filesys.openedNum fs <> MAXFILENUM ->
  filesys.Open fs path d = Stop (WildIndex MAXFILENUM).
Proof.
  intros HM Hpath Efind Efetch Hsector Eopen Hlen Hfull Hopened.
  unfold filesys.Open.
  erewrite bind_eq.
  2:{ unfold filesys.strcpy_500.
      destruct (String.length path <? 500)%nat eqn:E; [reflexivity|].
      apply Nat.ltb_ge in E. lia. }
  erewrite bind_eq by exact Efind. cbv beta iota.
  erewrite bind_eq by exact Efetch.
  destruct (filesys.openedNum fs =? MAXFILENUM) eqn:E1; [lia|].
  destruct (0 <=? directory.Find dir name) eqn:E2; [|lia]. cbn [negb].
  erewrite bind_eq by exact Eopen.
  apply bind_Stop. unfold lift.
  rewrite (free_slot_past_table _ 1 (filesys.fileDescriptorTable fs)).
  - now rewrite Hlen.
  - lia.
  - lia.
  - intros i Hi. rewrite Forall_lookup in Hfull.
    destruct (filesys.fileDescriptorTable fs !! i) as [[f|]|] eqn:Ei.
    + now exists f.
    + exfalso. apply (Hfull (i - 1)%nat None); [|reflexivity].
      rewrite lookup_drop. now replace (1 + (i - 1))%nat with i by lia.
    + apply lookup_ge_None in Ei. lia.
Qed.

End FacadeClaims.

(** * The concrete build *)

Section Concrete.
#[local] Existing Instance nachos.

Lemma nachos_ints_fit : ints_fit.
Proof. unfold ints_fit. cbn. lia. Qed.

Lemma nachos_header_fits : header_fits.
Proof. unfold header_fits, filehdr.header_bytes. cbn. lia. Qed.

Lemma blank_disk_ok : disk_ok (blank_disk 64).
Proof. reflexivity. Qed.

Lemma formatted_is_Format :
  filesys.FileSystem_new true (blank_disk 64) = Ret (fs0, disk0).
Proof. vm_compute. reflexivity. Qed.

Lemma disk_a_is_Create : filesys.Create fs0 "/a" 100 false disk0 = Ret (true, disk_a).
Proof. vm_compute. reflexivity. Qed.

Lemma disk_big_is_Create :
  filesys.Create fs0 "/big" (filehdr.MaxFileSize + 1) false disk0 = Ret (true, disk_big).
Proof. vm_compute. reflexivity. Qed.

Lemma fs_19_is_Open : open_times 19 fs0 "/a" disk_a = Ret (fs_19, disk_a).
Proof. vm_compute. reflexivity. Qed.

(* Thirty clear bits, one more than NumDirect = 29, and a request of
   MaxFileSize + 1 = 3713 bytes: the successor finds no room for its one
   data sector and returns 0, the call returns 128. *)
Lemma Allocate_successor_failure_not_cascaded_witness :
  exists ds1 fm1 d1 s fm2 next fm' d',
    filehdr.allocate_sectors 29 0 (filehdr.dataSectors filehdr.new)
      (map_with_clear 30) (blank_disk 64) = Ret ((ds1, fm1), d1) /\
    bitmap.FindAndSet fm1 = (s, fm2) /\
    filehdr.Allocate filehdr.new fm2 1 d1 = Ret ((0, next, fm'), d') /\
    filehdr.Allocate filehdr.new (map_with_clear 30) 3713 (blank_disk 64)
      = Ret ((128, filehdr.mkFileHeader 3712 29 ds1 (Some next) s, fm'), d').
Proof.
  eexists _, _, _, _, _, _, _, _.
  split; [vm_compute; reflexivity|].
  split; [vm_compute; reflexivity|].
  split; [vm_compute; reflexivity|].
  refine (proj1 (Allocate_successor_failure_not_cascaded
                   (map_with_clear 30) 3713 (blank_disk 64) _ _ _ _ _ _ _ _
                   nachos_ints_fit _ _ _ _ _ _ _)).
  - unfold int_range. lia.
  - vm_compute. reflexivity.
  - vm_compute. discriminate.
  - vm_compute. reflexivity.
  - vm_compute. reflexivity.
  - vm_compute. discriminate.
  - vm_compute. reflexivity.
Defined.

(* Twenty-nine clear bits and a request of 3713 bytes. *)
Lemma Allocate_header_assertion_fails_witness :
  (bitmap.NumClear (map_with_clear 29) <? divRoundUp filehdr.MaxFileSize SectorSize)
    = false /\
  filehdr.Allocate filehdr.new (map_with_clear 29) 3713 (blank_disk 64)
    = Stop AssertionFailed.
Proof.
  apply Allocate_header_assertion_fails.
  - exact nachos_ints_fit.
  - exact blank_disk_ok.
  - vm_compute. discriminate.
  - unfold int_range. lia.
  - vm_compute. reflexivity.
  - vm_compute. reflexivity.
Defined.

(* 5000 bytes out of a map whose sectors 0 and 1 are in use; the chain is
   then written at sector 1 and fetched. *)
Lemma Allocate_nonterminal_segments_full_witness :
  exists r h fm' d',
    filehdr.Allocate filehdr.new ([true; true] ++ replicate 62 false) 5000
      (blank_disk 64) = Ret ((r, h, fm'), d') /\
    segment_bytes h = [3712; 1288] /\
    nonterminal_full h /\
    exists d'' h',
      filehdr.WriteBack h 1 d' = Ret (tt, d'') /\
      filehdr.FetchFrom filehdr.new 1 d'' = Ret (h', d'') /\
      nonterminal_full h'.
Proof.
  destruct (filehdr.Allocate filehdr.new ([true; true] ++ replicate 62 false) 5000
              (blank_disk 64)) as [[[[r h] fm'] d']|f] eqn:E;
    [|vm_compute in E; discriminate E].
  exists r, h, fm', d'. split; [reflexivity|].
  split; [vm_compute in E; injection E as _ <- _ _; reflexivity|].
  destruct (Allocate_nonterminal_segments_full
              ([true; true] ++ replicate 62 false) 5000 (blank_disk 64) r h fm' d'
              nachos_ints_fit ltac:(unfold int_range; lia)
              ltac:(vm_compute; split; [discriminate | reflexivity]) E) as [Hfull Hfetch].
  split; [exact Hfull|].
  apply Hfetch.
  - exact nachos_header_fits.
  - exact blank_disk_ok.
  - vm_compute. discriminate.
  - lia.
  - reflexivity.
Defined.

(* Requests of 3712, 3713 and 5000 bytes out of a map with 62 clear bits. *)
Lemma Allocate_chains_only_above_MaxFileSize_witness :
  (exists ds fm' d',
     filehdr.Allocate filehdr.new ([true; true] ++ replicate 62 false) 3712
       (blank_disk 64)
     = Ret ((128, filehdr.mkFileHeader 3712 29 ds None (-1), fm'), d')) /\
  (exists r h fm' d',
     filehdr.Allocate filehdr.new ([true; true] ++ replicate 62 false) 3713
       (blank_disk 64) = Ret ((r, h, fm'), d')
     /\ r <> 0 /\ segment_bytes h = [3712; 1]) /\
  (exists r h fm' d',
     filehdr.Allocate filehdr.new ([true; true] ++ replicate 62 false) 5000
       (blank_disk 64) = Ret ((r, h, fm'), d')
     /\ r <> 0 /\ filehdr.nextFileHeader h <> None
     /\ filehdr.nextFileHeaderSector h <> -1).
Proof.
  destruct (Allocate_chains_only_above_MaxFileSize
              ([true; true] ++ replicate 62 false) (blank_disk 64)
              nachos_ints_fit blank_disk_ok ltac:(vm_compute; discriminate))
    as (Hiff & Hexact & Hplus).
  split; [|split].
  - apply Hexact. vm_compute. discriminate.
  - apply Hplus; [vm_compute; reflexivity | vm_compute; discriminate].
  - destruct (filehdr.Allocate filehdr.new ([true; true] ++ replicate 62 false) 5000
                (blank_disk 64)) as [[[[r h] fm'] d']|f] eqn:E;
      [|vm_compute in E; discriminate E].
    assert (Hr : r <> 0)
      by (vm_compute in E; injection E as <- _ _ _; discriminate).
    destruct (Hiff 5000 r h fm' d' ltac:(unfold int_range; lia)
                ltac:(vm_compute; split; [discriminate | reflexivity]) E Hr) as [Hptr Hsec].
    exists r, h, fm', d'. split; [reflexivity|]. split; [exact Hr|].
    split; [apply Hptr | apply Hsec]; vm_compute; reflexivity.
Defined.

(* The chain of two segments placed at sectors 1 and 31. *)
Lemma WriteBack_FetchFrom_roundtrip_witness :
  segment_bytes two_segments = [3712; 1] /\
  successor_sectors two_segments = [31] /\
  exists d',
    filehdr.WriteBack two_segments 1 (blank_disk 64) = Ret (tt, d') /\
    filehdr.FetchFrom filehdr.new 1 d' = Ret (two_segments, d').
Proof.
  split; [vm_compute; reflexivity|].
  split; [vm_compute; reflexivity|].
  destruct (filehdr.Allocate filehdr.new ([true; true] ++ replicate 62 false)
              (filehdr.MaxFileSize + 1) (blank_disk 64))
    as [[[[r h] fm'] d']|f] eqn:E; [|vm_compute in E; discriminate E].
  assert (Hh : two_segments = h) by (unfold two_segments, run; now rewrite E).
  rewrite Hh. unfold filehdr.Allocate in E.
  apply Allocate_rec_chain in E as (Hok & _ & _ & _ & Hnodup & Hall).
  - apply WriteBack_FetchFrom_roundtrip.
    + exact nachos_header_fits.
    + vm_compute. discriminate.
    + exact blank_disk_ok.
    + exact Hok.
    + split.
      * apply NoDup_cons. split; [|exact Hnodup].
        intros Hmem. rewrite Forall_forall in Hall.
        apply Hall in Hmem as [_ Hclear]. discriminate Hclear.
      * constructor; [split; [lia | reflexivity]|].
        eapply Forall_impl; [exact Hall|]. now intros s [Hs _].
  - exact nachos_ints_fit.
  - vm_compute. discriminate.
  - vm_compute. split; [discriminate | reflexivity].
  - vm_compute. split; [discriminate | reflexivity].
Defined.

(* "/a" exists already; and on the disk that holds "/big", with 27 clear
   sectors, a file of 3712 bytes finds no room. *)
Lemma Create_failure_leaves_disk_witness :
  filesys.Create fs0 "/a" 100 false disk_a = Ret (false, disk_a) /\
  filesys.Create fs0 "/b2" 3712 false disk_big = Ret (false, disk_big).
Proof.
  split.
  - destruct (filesys.Create fs0 "/a" 100 false disk_a) as [[b d']|f] eqn:E;
      [|vm_compute in E; discriminate E].
    assert (Hb : b = false)
      by (pose proof E as E'; vm_compute in E'; now injection E' as <- _).
    subst b. f_equal. f_equal.
    exact (Create_failure_leaves_disk fs0 "/a" 100 false disk_a d' nachos_ints_fit E).
  - destruct (filesys.Create fs0 "/b2" 3712 false disk_big) as [[b d']|f] eqn:E;
      [|vm_compute in E; discriminate E].
    assert (Hb : b = false)
      by (pose proof E as E'; vm_compute in E'; now injection E' as <- _).
    subst b. f_equal. f_equal.
    exact (Create_failure_leaves_disk fs0 "/b2" 3712 false disk_big d' nachos_ints_fit E).
Defined.

(* The root directory holds the plain file "a" and nothing called "nodir". *)
Lemma FindSubDir_keeps_unresolved_component_witness :
  root_lookup fs0 disk_a "a" = Some 5 /\
  root_lookup fs0 disk_a "nodir" = Some (-1) /\
  filesys.FindSubDir fs0 "/a/x" disk_a
    = Ret (Some (filesys.directoryFile fs0, "a"%string), disk_a) /\
  filesys.FindSubDir fs0 "/nodir/x" disk_a
    = Ret (Some (filesys.directoryFile fs0, "nodir"%string), disk_a).
Proof.
  split; [vm_compute; reflexivity|]. split; [vm_compute; reflexivity|].
  destruct (directory.FetchFrom (directory.new NumDirEntries)
              (filesys.directoryFile fs0) disk_a) as [[root d']|f] eqn:E;
    [|vm_compute in E; discriminate E].
  assert (Hd : d' = disk_a) by exact (readonly_Directory_FetchFrom _ _ _ _ _ E).
  subst d'.
  assert (Hroot : directory.IsDir root "a" = false /\
                  directory.IsDir root "nodir" = false).
  { pose proof E as E'. vm_compute in E'. injection E' as <-.
    split; vm_compute; reflexivity. }
  destruct Hroot as [Ha Hnodir].
  split.
  - exact (FindSubDir_keeps_unresolved_component fs0 "/a/x" disk_a root disk_a
             "a" "x" [] E eq_refl Ha).
  - exact (FindSubDir_keeps_unresolved_component fs0 "/nodir/x" disk_a root disk_a
             "nodir" "x" [] E eq_refl Hnodir).
Defined.

(* "/a" is in the root directory before the call and not after it, and the
   free map is back to what Format left: the removal succeeded. *)
Lemma Remove_returns_FALSE_witness :
  exists b d',
    filesys.Remove 1 fs0 false "/a" disk_a = Ret (b, d') /\ b = false /\
    root_lookup fs0 disk_a "a" = Some 5 /\
    root_lookup fs0 d' "a" = Some (-1) /\
    free_on_disk fs0 d' = free_on_disk fs0 disk0.
Proof.
  destruct (filesys.Remove 1 fs0 false "/a" disk_a) as [[b d']|f] eqn:E;
    [|vm_compute in E; discriminate E].
  exists b, d'. split; [reflexivity|].
  split; [exact (Remove_returns_FALSE 1 fs0 false "/a" disk_a b d' E)|].
  split; [vm_compute; reflexivity|].
  vm_compute in E. injection E as _ <-.
  split; vm_compute; reflexivity.
Defined.

(** C2. Format; Create("/big", MaxFileSize + 1, FALSE), which takes 32
    sectors: two headers (sectors 5 and 35) and 30 data sectors;
    Remove(FALSE, "/big").  The name is gone from the directory, but the
    free map on the disk has 58 clear bits where it had 59 before the
    creation: sector 35, the header of the successor segment, is still
    marked.  Deallocate clears the data sectors of both segments and
    nothing else. *)
Theorem Remove_leaks_successor_header :
  free_on_disk fs0 disk0 = Some 59 /\
  filesys.Create fs0 "/big" (filehdr.MaxFileSize + 1) false disk0 = Ret (true, disk_big) /\
  free_on_disk fs0 disk_big = Some 27 /\
  (exists h, filehdr.FetchFrom filehdr.new 5 disk_big = Ret (h, disk_big) /\
             segment_bytes h = [3712; 1] /\ successor_sectors h = [35]) /\
  exists d',
    filesys.Remove 1 fs0 false "/big" disk_big = Ret (false, d') /\
    root_lookup fs0 d' "big" = Some (-1) /\
    free_on_disk fs0 d' = Some 58 /\
    used_on_disk fs0 d' 35 = Some true.
Proof.
  split; [vm_compute; reflexivity|].
  split; [vm_compute; reflexivity|].
  split; [vm_compute; reflexivity|].
  split.
  - eexists. split; [vm_compute; reflexivity|]. split; reflexivity.
  - eexists. split; [vm_compute; reflexivity|].
    split; [vm_compute; reflexivity|].
    split; vm_compute; reflexivity.
Qed.

(* Format, Create("/a", 100, FALSE), Open("/a") nineteen times, and once
   more. *)
Lemma Open_reads_cell_MAXFILENUM_witness :
  open_times 19 fs0 "/a" disk_a = Ret (fs_19, disk_a) /\
  filesys.openedNum fs_19 = 19 /\
  filesys.Open fs_19 "/a" disk_a = Stop (WildIndex 20).
Proof.
  split; [vm_compute; reflexivity|]. split; [vm_compute; reflexivity|].
  destruct (filesys.FindSubDir fs_19 "/a" disk_a) as [[[[curDirFile name]|] d1]|f] eqn:Efind;
    [| vm_compute in Efind; discriminate Efind | vm_compute in Efind; discriminate Efind].
  assert (Hd1 : d1 = disk_a) by exact (readonly_FindSubDir _ _ _ _ _ Efind).
  subst d1.
  destruct (directory.FetchFrom (directory.new NumDirEntries) curDirFile disk_a)
    as [[dir d2]|f] eqn:Efetch.
  2:{ exfalso. pose proof Efind as E'. vm_compute in E'. injection E' as <- _.
      vm_compute in Efetch. discriminate Efetch. }
  assert (Hd2 : d2 = disk_a) by exact (readonly_Directory_FetchFrom _ _ _ _ _ Efetch).
  subst d2.
  assert (Hsector : directory.Find dir name = 5).
  { pose proof Efind as E'. vm_compute in E'. injection E' as <- <-.
    pose proof Efetch as E''. vm_compute in E''. injection E'' as <-.
    vm_compute. reflexivity. }
  destruct (openfile.new (directory.Find dir name) disk_a) as [[file d3]|f] eqn:Eopen.
  2:{ exfalso. rewrite Hsector in Eopen. vm_compute in Eopen. discriminate Eopen. }
  assert (Hd3 : d3 = disk_a) by exact (readonly_OpenFile _ _ _ _ Eopen).
  subst d3.
  change (filesys.Open fs_19 "/a" disk_a = Stop (WildIndex MAXFILENUM)).
  apply (Open_reads_cell_MAXFILENUM fs_19 "/a" disk_a curDirFile name dir file).
  - reflexivity.
  - vm_compute. lia.
  - exact Efind.
  - exact Efetch.
  - rewrite Hsector. discriminate.
  - exact Eopen.
  - vm_compute. reflexivity.
  - vm_compute. repeat constructor; discriminate.
  - vm_compute. discriminate.
Defined.

End Concrete.

(** * Further properties of the code *)

(** ** The sectors Allocate takes *)

Lemma named_app a b : named (a ++ b) = named a ++ named b.
Proof.
  induction a as [|v a IH]; [reflexivity|]. cbn. rewrite IH.
  now destruct (0 <=? v).
Qed.

Lemma named_unset n : named (replicate n (-1)) = [].
Proof. induction n as [|n IH]; [reflexivity | exact IH]. Qed.

Lemma named_all l : Forall (fun v => 0 <= v) l -> named l = l.
Proof.
  induction 1 as [|v l Hv _ IH]; [reflexivity|]. cbn. rewrite IH.
  destruct (0 <=? v) eqn:E; [reflexivity | lia].
Qed.

Lemma named_elem v l : v ∈ named l <-> 0 <= v /\ v ∈ l.
Proof.
  induction l as [|w l IH]; cbn.
  - split; [intros H | intros [_ H]]; inversion H.
  - destruct (0 <=? w) eqn:E; rewrite ?elem_of_cons, IH, ?elem_of_cons.
    + split; [intros [->|[? ?]]; split; auto; lia | intros [? [->|?]]; auto].
    + split; [intros [? ?]; auto | intros [? [->|?]]; [lia | auto]].
Qed.

Lemma data_held_sub h x : x ∈ data_held h -> x ∈ sectors_held h.
Proof.
  induction h as [nb ns ds s|nb ns ds next s IH] using filehdr.chain_ind; cbn.
  - auto.
  - rewrite !elem_of_app, elem_of_cons. intros [?|?]; auto.
Qed.

Lemma sectors_held_elem h x :
  x ∈ sectors_held h ->
  (0 <= x /\ x ∈ all_data h) \/ x ∈ successor_sectors h.
Proof.
  induction h as [nb ns ds s|nb ns ds next s IH] using filehdr.chain_ind; cbn.
  - rewrite !app_nil_r, named_elem. auto.
  - rewrite !elem_of_app, !elem_of_cons, named_elem.
    intros [[? ?]|[->|Hx]]; auto.
    apply IH in Hx as [[? ?]|?]; auto.
Qed.

Section Held.
Context `{G : Geometry}.

Lemma allocate_sectors_cells count : forall i ds fm d ds' fm' d',
  filehdr.allocate_sectors count i ds fm d = Ret ((ds', fm'), d') -> 0 <= i ->
  exists cells,
    length cells = count /\
    ds' = take (Z.to_nat i) ds ++ cells ++ drop (Z.to_nat i + count) ds /\
    NoDup cells /\ Forall (taken fm fm') cells /\
    (forall k, Z.of_nat k ∉ cells -> fm' !! k = fm !! k) /\
    (forall k, Z.of_nat k ∉ cells -> d' !! k = d !! k) /\
    Forall (fun s => d' !! Z.to_nat s = Some filehdr.clean) cells.
Proof.
  induction count as [|count IH]; intros i ds fm d ds' fm' d' E Hi0; cbn in E.
  - apply ret_Ret in E as [[= <- <-] ->]. exists [].
    rewrite Nat.add_0_r, app_nil_l, take_drop.
    split_and!; auto; constructor.
  - destruct (bitmap.FindAndSet fm) as [s fm1] eqn:Efs.
    lift_inv E as ds1 E0. apply array_set_Ret in E0 as [Hi ->].
    assert_inv E as E1. apply Z.leb_le in E1.
    bind_inv E as [] d2 E2. apply WriteSector_Ret in E2 as (Hs & -> & Hsd).
    apply IH in E as (cells & Hlen & -> & Hnd & Htaken & Hfm & Hd & Hz); [|lia].
    apply FindAndSet_cases in Efs as [(-> & _)|(Hs1 & -> & Hclear & _ & Hl1)]; [lia|].
    assert (Hnew : s ∉ cells).
    { intros Hin. rewrite Forall_forall in Htaken.
      apply Htaken in Hin as (_ & Hf & _).
      rewrite list_lookup_insert_eq in Hf by lia. discriminate. }
    exists (s :: cells). split_and!.
    + cbn. now rewrite Hlen.
    + replace (Z.to_nat (i + 1)) with (S (Z.to_nat i)) by lia.
      rewrite (take_S_r _ _ s) by (apply list_lookup_insert_eq; lia).
      rewrite take_insert_ge by lia.
      rewrite drop_insert_lt by lia.
      rewrite <- app_assoc. cbn.
      now replace (Z.to_nat i + S count)%nat with (S (Z.to_nat i + count)) by lia.
    + now apply NoDup_cons.
    + constructor.
      * split_and!; [lia | assumption|].
        rewrite Hfm by now rewrite Z2Nat.id.
        apply list_lookup_insert_eq. lia.
      * eapply Forall_impl; [exact Htaken|]. intros v (Hv & Hf & Ht).
        split_and!; try assumption.
        destruct (decide (v = s)) as [->|Hne].
        { rewrite list_lookup_insert_eq in Hf by lia. discriminate. }
        rewrite list_lookup_insert_ne in Hf by lia. assumption.
    + intros k Hk. apply not_elem_of_cons in Hk as [Hks Hk].
      rewrite Hfm by assumption. apply list_lookup_insert_ne. lia.
    + intros k Hk. apply not_elem_of_cons in Hk as [Hks Hk].
      rewrite Hd by assumption. apply list_lookup_insert_ne. lia.
    + constructor; [|assumption].
      rewrite Hd by now rewrite Z2Nat.id.
      now apply list_lookup_insert_eq.
Qed.

Lemma named_fresh_table (cells : list Z) n count :
  Forall (fun v => 0 <= v) cells ->
  named (take (Z.to_nat 0) (replicate n (-1)) ++ cells
         ++ drop (Z.to_nat 0 + count) (replicate n (-1))) = cells.
Proof.
  intros Hall. change (Z.to_nat 0) with O.
  rewrite take_0, app_nil_l, drop_replicate, named_app, named_unset, app_nil_r.
  now apply named_all.
Qed.

Lemma Allocate_rec_held_taken fuel fm size d r h fm' d' :
  filehdr.Allocate_rec fuel filehdr.new fm size d = Ret ((r, h, fm'), d') ->
  Forall (taken fm fm') (sectors_held h).
Proof.
  intros E. apply Allocate_rec_taken in E as (_ & _ & Hdata & Hsucc & _).
  rewrite Forall_forall in *. intros x Hx.
  apply sectors_held_elem in Hx as [[Hx0 Hx]|Hx]; [|auto].
  apply Hdata in Hx as [->|Hx]; [lia | assumption].
Qed.

Lemma Allocate_rec_held fuel : forall fm size d r h fm' d',
  filehdr.Allocate_rec fuel filehdr.new fm size d = Ret ((r, h, fm'), d') ->
  NoDup (sectors_held h) /\
  (forall k, Z.of_nat k ∉ sectors_held h -> fm' !! k = fm !! k) /\
  (forall k, Z.of_nat k ∉ data_held h -> d' !! k = d !! k) /\
  Forall (fun s => d' !! Z.to_nat s = Some filehdr.clean) (data_held h) /\
  (bitmap.count_clear fm' + length (sectors_held h) = bitmap.count_clear fm)%nat.
Proof.
  induction fuel as [|fuel IH]; intros fm size d r h fm' d' E; [discriminate|].
  apply Allocate_rec_Ret in E. cbv zeta in E.
  destruct E as [(_ & _ & -> & -> & ->)|(_ & ds1 & fm1 & d1 & Eloop &
    [(_ & _ & -> & -> & ->)|(Hmore & s & fm2 & r' & next & Efs & Hs & Erec & _ & ->)])].
  - cbn [sectors_held data_held filehdr.dataSectors filehdr.nextFileHeader filehdr.new].
    rewrite named_unset. cbn. split_and!; auto; constructor.
  - pose proof (allocate_sectors_Ret _ _ _ _ _ _ _ _ Eloop) as (Hc & _).
    apply allocate_sectors_cells in Eloop
      as (cells & Hlen & -> & Hnd & Htaken & Hfm & Hd & Hz); [|lia].
    cbn [sectors_held data_held filehdr.dataSectors filehdr.nextFileHeader filehdr.new].
    rewrite named_fresh_table
      by (eapply Forall_impl; [exact Htaken|]; now intros v (? & _)).
    rewrite !app_nil_r. split_and!; auto. lia.
  - pose proof (allocate_sectors_Ret _ _ _ _ _ _ _ _ Eloop) as (Hc & Hl1 & _).
    pose proof (allocate_sectors_inv _ _ _ _ _ _ _ _ Eloop) as (Hmono1 & _).
    apply allocate_sectors_cells in Eloop
      as (cells & Hlen & -> & Hnd & Htaken & Hfm & Hd & Hz); [|lia].
    apply FindAndSet_cases in Efs as [(-> & _)|(Hs1 & -> & Hclear & Hc2 & Hl2)]; [lia|].
    pose proof (Allocate_rec_held_taken _ _ _ _ _ _ _ _ Erec) as Htaken2.
    apply IH in Erec as (Hnd2 & Hfm2 & Hd2 & Hz2 & Hc3).
    cbn [sectors_held data_held filehdr.dataSectors filehdr.nextFileHeader
         filehdr.nextFileHeaderSector filehdr.new].
    rewrite named_fresh_table
      by (eapply Forall_impl; [exact Htaken|]; now intros v (? & _)).
    rewrite Forall_forall in Htaken, Htaken2.
    assert (Hs_cells : s ∉ cells).
    { intros Hin. apply Htaken in Hin as (_ & _ & Ht). congruence. }
    assert (Hs_next : s ∉ sectors_held next).
    { intros Hin. apply Htaken2 in Hin as (_ & Hf & _).
      rewrite list_lookup_insert_eq in Hf by lia. discriminate. }
    assert (Hdisj : forall x, x ∈ cells -> x ∉ sectors_held next).
    { intros x Hx Hin. apply Htaken in Hx as (Hx0 & _ & Ht).
      apply Htaken2 in Hin as (_ & Hf & _).
      apply (set_bit_keeps _ (Z.to_nat s)) in Ht. congruence. }
    split_and!.
    + apply NoDup_app. split_and!; [assumption | |now apply NoDup_cons].
      intros x Hx. apply not_elem_of_cons. split; [congruence | auto].
    + intros k Hk. rewrite not_elem_of_app, not_elem_of_cons in Hk.
      destruct Hk as (Hk1 & Hk2 & Hk3).
      rewrite Hfm2 by assumption. rewrite list_lookup_insert_ne by lia. auto.
    + intros k Hk. rewrite not_elem_of_app in Hk. destruct Hk as (Hk1 & Hk2).
      rewrite Hd2 by assumption. auto.
    + apply Forall_app. split; [|assumption].
      rewrite Forall_forall in Hz |- *. intros x Hx.
      pose proof (Htaken x Hx) as (Hx0 & _).
      rewrite Hd2; [auto|].
      rewrite Z2Nat.id by lia. intros Hin. apply data_held_sub in Hin.
      now apply (Hdisj x).
    + rewrite length_app. cbn [length]. lia.
Qed.

End Held.

(** ** Room enough *)

Section Room.
Context `{G : Geometry}.

Lemma divRoundUp_ceil n :
  0 < SectorSize -> 0 <= n < 2 ^ 31 ->
  divRoundUp n SectorSize = (n + SectorSize - 1) / SectorSize.
Proof.
  intros HS Hn. unfold divRoundUp.
  rewrite Z.quot_div_nonneg, Z.rem_mod_nonneg by lia.
  assert (Hnz : SectorSize <> 0) by lia.
  pose proof (Z.div_mod n SectorSize Hnz) as Hdm.
  pose proof (Z.mod_pos_bound n SectorSize HS) as Hm.
  assert (Hq : 0 <= n / SectorSize) by (apply Z.div_pos; lia).
  destruct (n mod SectorSize >? 0) eqn:E.
  - rewrite to_int_id by (unfold int_range; nia).
    apply (Z.div_unique _ _ _ (n mod SectorSize - 1)); lia.
  - rewrite to_int_id by (unfold int_range; nia).
    apply (Z.div_unique _ _ _ (SectorSize - 1)); lia.
Qed.

Lemma segments_for_pos size : 1 <= segments_for size.
Proof. unfold segments_for. lia. Qed.

Lemma segments_for_small size :
  ints_fit -> size <= filehdr.MaxFileSize -> segments_for size = 1.
Proof.
  intros Hg Hsize. pose proof (MaxFileSize_pos Hg) as Hmax. unfold segments_for.
  apply Z.max_l. apply Z.lt_succ_r. apply Z.div_lt_upper_bound; lia.
Qed.

Lemma segments_for_more size :
  ints_fit -> filehdr.MaxFileSize < size ->
  segments_for size = 1 + segments_for (size - filehdr.MaxFileSize).
Proof.
  intros Hg Hsize. pose proof (MaxFileSize_pos Hg) as Hmax. unfold segments_for.
  replace (size + filehdr.MaxFileSize - 1)
    with (size - filehdr.MaxFileSize + filehdr.MaxFileSize - 1 + 1 * filehdr.MaxFileSize)
    by lia.
  rewrite Z.div_add by lia.
  assert (1 <= (size - filehdr.MaxFileSize + filehdr.MaxFileSize - 1) / filehdr.MaxFileSize)
    by (apply Z.div_le_lower_bound; lia).
  lia.
Qed.

Lemma sectors_for_small size :
  ints_fit -> size <= filehdr.MaxFileSize ->
  sectors_for size = (size + SectorSize - 1) / SectorSize.
Proof.
  intros Hg Hsize. unfold sectors_for. rewrite segments_for_small by assumption. lia.
Qed.

Lemma sectors_for_more size :
  ints_fit -> filehdr.MaxFileSize < size ->
  sectors_for size = NumDirect + 1 + sectors_for (size - filehdr.MaxFileSize).
Proof.
  intros Hg Hsize. unfold sectors_for. rewrite (segments_for_more size) by assumption.
  assert (HS : 0 < SectorSize) by (unfold ints_fit in Hg; lia).
  replace (size + SectorSize - 1)
    with (size - filehdr.MaxFileSize + SectorSize - 1 + NumDirect * SectorSize)
    by (unfold filehdr.MaxFileSize; lia).
  rewrite Z.div_add by lia. lia.
Qed.

Lemma sectors_for_nonneg size : ints_fit -> 0 <= size -> 0 <= sectors_for size.
Proof.
  intros Hg Hsize. assert (HS : 0 < SectorSize) by (unfold ints_fit in Hg; lia).
  unfold sectors_for. pose proof (segments_for_pos size).
  assert (0 <= (size + SectorSize - 1) / SectorSize) by (apply Z.div_pos; lia). lia.
Qed.

Lemma ceil_within_table size :
  ints_fit -> size <= filehdr.MaxFileSize ->
  (size + SectorSize - 1) / SectorSize <= NumDirect.
Proof.
  intros Hg Hsize. assert (HS : 0 < SectorSize) by (unfold ints_fit in Hg; lia).
  apply Z.lt_succ_r. apply Z.div_lt_upper_bound; [lia|].
  unfold filehdr.MaxFileSize in Hsize. lia.
Qed.

Lemma fresh_table_shape (cells : list Z) fm fm1 n count :
  Forall (taken fm fm1) cells ->
  let ds1 := take (Z.to_nat 0) (replicate n (-1)) ++ cells
             ++ drop (Z.to_nat 0 + count) (replicate n (-1)) in
  named ds1 = cells /\ ds1 = cells ++ replicate (n - count) (-1).
Proof.
  intros Htaken ds1. split.
  - apply named_fresh_table. eapply Forall_impl; [exact Htaken|]. now intros v (? & _).
  - subst ds1. change (Z.to_nat 0) with O.
    now rewrite take_0, app_nil_l, drop_replicate.
Qed.

Lemma Allocate_rec_enough_room fuel : forall fm size d,
  ints_fit -> disk_ok d -> Z.of_nat (length fm) <= NumSectors ->
  0 <= size < 2 ^ 31 -> sectors_for size <= bitmap.NumClear fm ->
  segments_for size <= Z.of_nat fuel ->
  exists h fm' d',
    filehdr.Allocate_rec fuel filehdr.new fm size d
      = Ret ((SectorSize * segments_for size, h, fm'), d') /\
    laid_out h size /\ disk_ok d'.
Proof.
  induction fuel as [|fuel IH]; intros fm size d Hg Hd Hfm Hsize Hroom Hfuel.
  { pose proof (segments_for_pos size). lia. }
  pose proof (MaxFileSize_int Hg) as Emax. pose proof (MaxFileSize_pos Hg) as Hmax.
  assert (HS : 0 < SectorSize) by (unfold ints_fit in Hg; lia).
  assert (HN : 0 < NumDirect) by (unfold ints_fit in Hg; lia).
  unfold bitmap.NumClear in Hroom.
  destruct (Z_le_gt_dec size filehdr.MaxFileSize) as [Hsmall|Hmore].
  - (* the request ends in this segment *)
    rewrite sectors_for_small in Hroom by assumption.
    rewrite segments_for_small, Z.mul_1_r by assumption.
    pose proof (ceil_within_table size Hg Hsmall) as Htable.
    assert (Hns : 0 <= (size + SectorSize - 1) / SectorSize) by (apply Z.div_pos; lia).
    destruct (allocate_sectors_ok (Z.to_nat ((size + SectorSize - 1) / SectorSize)) 0
                (filehdr.dataSectors filehdr.new) fm d)
      as (ds1 & fm1 & d1 & Eloop & Hd1); try assumption; try lia.
    { cbn. rewrite length_replicate. lia. }
    pose proof (Allocate_rec_last fuel filehdr.new fm size d ds1 fm1 d1) as Estep.
    cbv zeta in Estep. rewrite Emax in Estep.
    destruct (size >? filehdr.MaxFileSize) eqn:Egt; [lia|].
    rewrite divRoundUp_ceil in Estep by lia.
    eexists _, _, _. split; [apply Estep|split; [|exact Hd1]].
    + unfold bitmap.NumClear. lia.
    + exact Eloop.
    + rewrite to_int_id by (unfold int_range; lia). lia.
    + apply allocate_sectors_cells in Eloop
        as (cells & Hlen & -> & _ & Htaken & _); [|lia].
      destruct (fresh_table_shape cells fm fm1 (Z.to_nat NumDirect)
                  (Z.to_nat ((size + SectorSize - 1) / SectorSize)) Htaken)
        as [Enamed Etable].
      cbn [laid_out filehdr.numBytes filehdr.numSectors filehdr.dataSectors
           filehdr.nextFileHeader filehdr.new].
      rewrite Enamed. split_and!; [lia | reflexivity | exact Hlen | exact Etable | lia].
  - (* the request goes on in a successor *)
    rewrite sectors_for_more in Hroom by (assumption || lia).
    rewrite segments_for_more in Hfuel |- * by (assumption || lia).
    assert (Hrest : 0 <= sectors_for (size - filehdr.MaxFileSize))
      by (apply sectors_for_nonneg; [assumption | lia]).
    pose proof (segments_for_pos (size - filehdr.MaxFileSize)) as Hsegs.
    pose proof (count_clear_le fm) as Hcle.
    destruct (allocate_sectors_ok (Z.to_nat NumDirect) 0
                (filehdr.dataSectors filehdr.new) fm d)
      as (ds1 & fm1 & d1 & Eloop & Hd1); try assumption; try lia.
    { cbn. rewrite length_replicate. lia. }
    pose proof (allocate_sectors_Ret _ _ _ _ _ _ _ _ Eloop) as (Hc1 & Hl1 & _).
    destruct (bitmap.FindAndSet fm1) as [s fm2] eqn:Efs.
    pose proof (FindAndSet_cases _ _ _ Efs) as [(_ & _ & Hz)|(Hs & _ & _ & Hc2 & Hl2)];
      [lia|].
    destruct (IH fm2 (size - filehdr.MaxFileSize) d1)
      as (next & fm' & d' & Erec & Hlaid & Hd'); try assumption; try lia.
    { unfold bitmap.NumClear. lia. }
    pose proof (Allocate_rec_more fuel filehdr.new fm size d ds1 fm1 d1 s fm2) as Estep.
    cbv zeta in Estep. rewrite Emax in Estep.
    destruct (size >? filehdr.MaxFileSize) eqn:Egt; [|lia].
    rewrite (divRoundUp_MaxFileSize Hg) in Estep.
    rewrite (to_int_id (size - filehdr.MaxFileSize)) in Estep
      by (unfold int_range; lia).
    rewrite Estep; try assumption; try lia; [|unfold bitmap.NumClear; lia].
    unfold bind. rewrite Erec. unfold ret.
    assert (Hsegs_le : segments_for (size - filehdr.MaxFileSize) <= NumSectors)
      by (unfold sectors_for in Hrest, Hroom;
          assert (0 <= (size - filehdr.MaxFileSize + SectorSize - 1) / SectorSize)
            by (apply Z.div_pos; lia); lia).
    rewrite to_int_id by (unfold ints_fit, int_range in *; nia).
    eexists _, _, _. split; [f_equal; f_equal; f_equal; f_equal; lia|].
    split; [|exact Hd'].
    apply allocate_sectors_cells in Eloop
      as (cells & Hlen & -> & _ & Htaken & _); [|lia].
    destruct (fresh_table_shape cells fm fm1 (Z.to_nat NumDirect)
                (Z.to_nat NumDirect) Htaken) as [Enamed Etable].
    cbn [laid_out filehdr.numBytes filehdr.numSectors filehdr.dataSectors
         filehdr.nextFileHeader filehdr.new].
    rewrite Enamed. split_and!; try assumption; try lia.
    unfold filehdr.MaxFileSize.
    replace (NumDirect * SectorSize + SectorSize - 1)
      with (SectorSize - 1 + NumDirect * SectorSize) by lia.
    rewrite Z.div_add, Z.div_small by lia. lia.
Qed.

End Room.

(** ** Chains that are laid out *)

Section LaidOut.
Context `{G : Geometry}.

Lemma ceil_MaxFileSize :
  ints_fit -> (filehdr.MaxFileSize + SectorSize - 1) / SectorSize = NumDirect.
Proof.
  intros Hg. assert (HS : 0 < SectorSize) by (unfold ints_fit in Hg; lia).
  unfold filehdr.MaxFileSize.
  replace (NumDirect * SectorSize + SectorSize - 1)
    with (SectorSize - 1 + NumDirect * SectorSize) by lia.
  rewrite Z.div_add, Z.div_small by lia. lia.
Qed.

Lemma laid_out_FileLength h : forall size,
  ints_fit -> 0 <= size < 2 ^ 31 -> laid_out h size -> filehdr.FileLength h = size.
Proof.
  induction h as [nb ns ds s|nb ns ds next s IH] using filehdr.chain_ind;
    intros size Hg Hsize; cbn; intros (Hnb & _ & _ & _ & Hnext).
  - lia.
  - destruct Hnext as [Hmore Hnext]. pose proof (MaxFileSize_pos Hg) as Hmax.
    rewrite (IH (size - filehdr.MaxFileSize)); auto; [|lia].
    rewrite Hnb, Z.min_r by lia.
    replace (filehdr.MaxFileSize + (size - filehdr.MaxFileSize)) with size by lia.
    apply to_int_id. unfold int_range. lia.
Qed.

Lemma laid_out_lengths h : forall size,
  ints_fit -> 0 <= size -> laid_out h size ->
  Z.of_nat (length (sectors_held h)) = sectors_for size /\
  Z.of_nat (length (data_held h)) = (size + SectorSize - 1) / SectorSize /\
  Z.of_nat (length (successor_sectors h)) = segments_for size - 1.
Proof.
  induction h as [nb ns ds s|nb ns ds next s IH] using filehdr.chain_ind;
    intros size Hg Hsize; cbn; intros (Hnb & Hns & Hlen & _ & Hnext).
  - assert (HS : 0 < SectorSize) by (unfold ints_fit in Hg; lia).
    rewrite app_nil_r, Hlen, Hns, Hnb, Z.min_l by lia.
    rewrite sectors_for_small, segments_for_small by assumption.
    assert (0 <= (size + SectorSize - 1) / SectorSize) by (apply Z.div_pos; lia).
    lia.
  - destruct Hnext as [Hmore Hnext].
    apply IH in Hnext as (E1 & E2 & E3); [|assumption|lia].
    assert (HS : 0 < SectorSize) by (unfold ints_fit in Hg; lia).
    assert (HN : 0 < NumDirect) by (unfold ints_fit in Hg; lia).
    rewrite Hnb, Z.min_r, ceil_MaxFileSize in Hns by (assumption || lia).
    rewrite !length_app, Hlen, Hns. cbn [length].
    rewrite sectors_for_more, segments_for_more by assumption.
    split_and!; try lia.
    replace (size + SectorSize - 1)
      with (size - filehdr.MaxFileSize + SectorSize - 1 + NumDirect * SectorSize)
      by (unfold filehdr.MaxFileSize; lia).
    rewrite Z.div_add by lia. lia.
Qed.

(* The sector of a byte of the file is the cell of its block. *)
Lemma laid_out_ByteToSector h : forall size offset,
  ints_fit -> 0 <= offset < size -> size < 2 ^ 31 -> laid_out h size ->
  exists s, filehdr.ByteToSector h offset = Ret s /\
            data_held h !! Z.to_nat (offset / SectorSize) = Some s.
Proof.
  induction h as [nb ns ds s|nb ns ds next s IH] using filehdr.chain_ind;
    intros size offset Hg Hoff Hsize; cbn [laid_out data_held filehdr.ByteToSector
      filehdr.numBytes filehdr.numSectors filehdr.dataSectors filehdr.nextFileHeader];
    intros (Hnb & Hns & Hlen & Hds & Hnext);
    pose proof (MaxFileSize_int Hg) as Emax; pose proof (MaxFileSize_pos Hg) as Hmax;
    assert (HS : 0 < SectorSize) by (unfold ints_fit in Hg; lia);
    assert (HN : 0 < NumDirect) by (unfold ints_fit in Hg; lia);
    rewrite Z.quot_div_nonneg by lia;
    assert (Hq : 0 <= offset / SectorSize) by (apply Z.div_pos; lia).
  - assert (Hin : offset / SectorSize < ns).
    { assert (H1 : (offset + 1 * SectorSize) / SectorSize = offset / SectorSize + 1)
        by (apply Z.div_add; lia).
      assert (H2 : (offset + 1 * SectorSize) / SectorSize
                   <= (size + SectorSize - 1) / SectorSize)
        by (apply Z.div_le_mono; lia).
      rewrite Hns, Hnb, Z.min_l by lia. lia. }
    assert (Htab : ns <= NumDirect)
      by (rewrite Hns, Hnb, Z.min_l by lia; now apply ceil_within_table).
    destruct (offset / SectorSize <? NumDirect) eqn:E; [|lia].
    destruct (lookup_lt_is_Some_2 (named ds) (Z.to_nat (offset / SectorSize)))
      as [v Hv]; [lia|].
    exists v. rewrite app_nil_r. split; [|exact Hv].
    unfold array_get. destruct (0 <=? offset / SectorSize) eqn:E0; [|lia].
    rewrite Hds, lookup_app_l by lia. now rewrite Hv.
  - destruct Hnext as [Hmore Hnext].
    rewrite Hnb, Z.min_r, ceil_MaxFileSize in Hns by (assumption || lia).
    destruct (offset / SectorSize <? NumDirect) eqn:E.
    + apply Z.ltb_lt in E.
      destruct (lookup_lt_is_Some_2 (named ds) (Z.to_nat (offset / SectorSize)))
        as [v Hv]; [lia|].
      exists v. split.
      * unfold array_get. destruct (0 <=? offset / SectorSize) eqn:E0; [|lia].
        rewrite Hds, lookup_app_l by lia. now rewrite Hv.
      * rewrite lookup_app_l by lia. exact Hv.
    + apply Z.ltb_ge in E.
      assert (Hge : filehdr.MaxFileSize <= offset).
      { unfold filehdr.MaxFileSize.
        pose proof (Z.mul_div_le offset SectorSize HS). nia. }
      rewrite Emax, to_int_id by (unfold int_range; lia).
      destruct (IH (size - filehdr.MaxFileSize) (offset - filehdr.MaxFileSize))
        as (v & Ev & Hv); try assumption; try lia.
      exists v. split; [exact Ev|].
      rewrite lookup_app_r by lia.
      replace (Z.to_nat (offset / SectorSize) - length (named ds))%nat
        with (Z.to_nat ((offset - filehdr.MaxFileSize) / SectorSize)); [exact Hv|].
      unfold filehdr.MaxFileSize.
      replace (offset - NumDirect * SectorSize)
        with (offset + (- NumDirect) * SectorSize) by lia.
      rewrite Z.div_add by lia. lia.
Qed.

End LaidOut.

(** ** Deallocate, cell by cell *)

Lemma count_clear_Clear (fm : list bool) : forall i,
  fm !! i = Some true ->
  bitmap.count_clear (<[i := false]> fm) = S (bitmap.count_clear fm).
Proof.
  induction fm as [|b fm IH]; intros [|i] Hi; cbn in Hi; try discriminate.
  - now injection Hi as ->.
  - change (<[S i := false]> (b :: fm)) with (b :: <[i := false]> fm).
    cbn [bitmap.count_clear]. destruct b; now rewrite (IH i Hi).
Qed.

Lemma Test_Ret fm s b :
  bitmap.Test fm s = Ret b ->
  0 <= s /\ (Z.to_nat s < length fm)%nat /\ fm !! Z.to_nat s = Some b.
Proof.
  unfold bitmap.Test, bitmap.valid.
  destruct (0 <=? s) eqn:E0; [|discriminate].
  destruct (s <? Z.of_nat (length fm)) eqn:E1; [|discriminate].
  cbn. intros [= <-].
  destruct (lookup_lt_is_Some_2 fm (Z.to_nat s)) as [v Hv]; [lia|].
  rewrite Hv. cbn. split_and!; auto; lia.
Qed.

Lemma Test_ok fm s b :
  0 <= s -> fm !! Z.to_nat s = Some b -> bitmap.Test fm s = Ret b.
Proof.
  intros Hs Hb. pose proof (lookup_lt_Some _ _ _ Hb) as Hlt.
  unfold bitmap.Test, bitmap.valid.
  destruct (0 <=? s) eqn:E0; [|lia].
  destruct (s <? Z.of_nat (length fm)) eqn:E1; [|lia].
  cbn. now rewrite Hb.
Qed.

Lemma Clear_ok fm s :
  0 <= s -> (Z.to_nat s < length fm)%nat ->
  bitmap.Clear fm s = Ret (<[Z.to_nat s := false]> fm).
Proof.
  intros Hs Hlt. unfold bitmap.Clear, bitmap.valid.
  destruct (0 <=? s) eqn:E0; [|lia].
  destruct (s <? Z.of_nat (length fm)) eqn:E1; [reflexivity | lia].
Qed.

Section Freed.
Context `{G : Geometry}.

(* The loop of Deallocate over the cells [cells] of a table: each of them
   must be marked, and is cleared. *)
Lemma deallocate_sectors_cells (cells : list Z) : forall pre post i fm d,
  Z.of_nat (length pre) = i ->
  NoDup cells ->
  Forall (fun s => 0 <= s /\ fm !! Z.to_nat s = Some true) cells ->
  exists fm',
    filehdr.deallocate_sectors (length cells) i (pre ++ cells ++ post) fm d
      = Ret (fm', d) /\
    length fm' = length fm /\
    Forall (fun s => fm' !! Z.to_nat s = Some false) cells /\
    (forall k, Z.of_nat k ∉ cells -> fm' !! k = fm !! k) /\
    bitmap.count_clear fm' = (bitmap.count_clear fm + length cells)%nat.
Proof.
  induction cells as [|s cells IH]; intros pre post i fm d Hi Hnd Hall.
  - exists fm. cbn. split_and!; auto.
  - apply NoDup_cons in Hnd as [Hs Hnd].
    apply Forall_cons in Hall as [[Hs0 Hmark] Hall].
    pose proof (lookup_lt_Some _ _ _ Hmark) as Hlt.
    destruct (IH (pre ++ [s]) post (i + 1) (<[Z.to_nat s := false]> fm) d)
      as (fm' & E & Hl & Hclear & Hframe & Hcount).
    { rewrite length_app. cbn. lia. }
    { assumption. }
    { rewrite Forall_forall in Hall |- *. intros v Hv.
      destruct (Hall v Hv) as [Hv0 Hvm]. split; [assumption|].
      rewrite list_lookup_insert_ne; [assumption|].
      intros Heq. apply Hs. replace s with v by lia. assumption. }
    rewrite <- app_assoc in E. cbn [app] in E.
    exists fm'. split_and!.
    + cbn [length filehdr.deallocate_sectors].
      assert (Eget : array_get (pre ++ s :: cells ++ post) i = Ret s).
      { unfold array_get. destruct (0 <=? i) eqn:E0; [|lia].
        rewrite (list_lookup_middle pre (cells ++ post) s) by lia. reflexivity. }
      cbn [app]. unfold bind at 1. unfold lift at 1. rewrite Eget.
      unfold bind at 1. unfold lift at 1. rewrite (Test_ok fm s true) by assumption.
      unfold bind at 1. cbn [ASSERT ret].
      unfold bind at 1. unfold lift at 1. rewrite Clear_ok by assumption.
      exact E.
    + rewrite Hl. apply length_insert.
    + constructor; [|assumption].
      rewrite Hframe by now rewrite Z2Nat.id.
      now apply list_lookup_insert_eq.
    + intros k Hk. apply not_elem_of_cons in Hk as [Hks Hk].
      rewrite Hframe by assumption. apply list_lookup_insert_ne. lia.
    + rewrite Hcount, count_clear_Clear by assumption. cbn [length]. lia.
Qed.

Lemma Deallocate_laid_out h : forall size fm d,
  laid_out h size -> NoDup (data_held h) ->
  Forall (fun s => 0 <= s /\ fm !! Z.to_nat s = Some true) (data_held h) ->
  exists fm',
    filehdr.Deallocate h fm d = Ret (fm', d) /\
    length fm' = length fm /\
    Forall (fun s => fm' !! Z.to_nat s = Some false) (data_held h) /\
    (forall k, Z.of_nat k ∉ data_held h -> fm' !! k = fm !! k) /\
    bitmap.count_clear fm' = (bitmap.count_clear fm + length (data_held h))%nat.
Proof.
  induction h as [nb ns ds s|nb ns ds next s IH] using filehdr.chain_ind;
    intros size fm d;
    cbn [laid_out data_held filehdr.Deallocate filehdr.numBytes filehdr.numSectors
         filehdr.dataSectors filehdr.nextFileHeader];
    intros (_ & _ & Hlen & Hds & Hnext) Hnd Hall.
  - rewrite app_nil_r in *.
    destruct (deallocate_sectors_cells (named ds) []
                (replicate (Z.to_nat NumDirect - Z.to_nat ns) (-1)) 0 fm d)
      as (fm' & E & Hrest); auto.
    cbn [app] in E. rewrite <- Hds, Hlen in E.
    exists fm'. split; [|exact Hrest].
    unfold bind. now rewrite E.
  - destruct Hnext as [_ Hnext].
    apply NoDup_app in Hnd as (Hnd1 & Hdisj & Hnd2).
    apply Forall_app in Hall as [Hall1 Hall2].
    destruct (deallocate_sectors_cells (named ds) []
                (replicate (Z.to_nat NumDirect - Z.to_nat ns) (-1)) 0 fm d)
      as (fm1 & E1 & Hl1 & Hclear1 & Hframe1 & Hcount1); auto.
    cbn [app] in E1. rewrite <- Hds, Hlen in E1.
    destruct (IH (size - filehdr.MaxFileSize) fm1 d)
      as (fm' & E2 & Hl2 & Hclear2 & Hframe2 & Hcount2); auto.
    { rewrite Forall_forall in Hall2 |- *. intros v Hv.
      destruct (Hall2 v Hv) as [Hv0 Hvm]. split; [assumption|].
      rewrite Hframe1; [assumption|].
      rewrite Z2Nat.id by lia. intros Hin. now apply (Hdisj v). }
    exists fm'. split_and!.
    + unfold bind. now rewrite E1.
    + congruence.
    + apply Forall_app. split; [|assumption].
      rewrite Forall_forall in Hclear1, Hall1 |- *. intros v Hv.
      destruct (Hall1 v Hv) as [Hv0 _].
      rewrite Hframe2; [auto|].
      rewrite Z2Nat.id by lia. now apply Hdisj.
    + intros k Hk. apply not_elem_of_app in Hk as [Hk1 Hk2].
      rewrite Hframe2, Hframe1 by assumption. reflexivity.
    + rewrite Hcount2, Hcount1, length_app. lia.
Qed.

(* Deallocate only clears bits. *)
Lemma deallocate_sectors_clears count : forall i ds fm d fm' d',
  filehdr.deallocate_sectors count i ds fm d = Ret (fm', d') ->
  d' = d /\ length fm' = length fm /\
  forall k, fm !! k = Some false -> fm' !! k = Some false.
Proof.
  induction count as [|count IH]; intros i ds fm d fm' d' E; cbn in E.
  - apply ret_Ret in E as [<- ->]. auto.
  - lift_inv E as s Eget. lift_inv E as marked Etest. assert_inv E as Hm.
    lift_inv E as fm1 Eclear. apply Clear_Ret in Eclear as [Hs ->].
    apply IH in E as (-> & Hl & Hk). rewrite length_insert in Hl.
    split_and!; auto. intros k Hf. apply Hk.
    destruct (decide (Z.to_nat s = k)) as [<-|Hne].
    + apply list_lookup_insert_eq. now apply lookup_lt_Some in Hf.
    + now rewrite list_lookup_insert_ne.
Qed.

Lemma Deallocate_clears h : forall fm d fm' d',
  filehdr.Deallocate h fm d = Ret (fm', d') ->
  d' = d /\ length fm' = length fm /\
  forall k, fm !! k = Some false -> fm' !! k = Some false.
Proof.
  induction h as [nb ns ds s|nb ns ds next s IH] using filehdr.chain_ind;
    intros fm d fm' d' E; cbn [filehdr.Deallocate filehdr.numSectors
      filehdr.dataSectors filehdr.nextFileHeader] in E;
    bind_inv E as fm1 d1 E1; apply deallocate_sectors_clears in E1 as (-> & Hl1 & Hk1).
  - apply ret_Ret in E as [<- ->]. auto.
  - apply IH in E as (-> & Hl & Hk). split_and!; auto; congruence.
Qed.

End Freed.

(** ** Allocate and ByteToSector *)

Section AllocateEffects.
Context `{G : Geometry}.

(** X1. Allocate returns 0 exactly when the free map has fewer clear bits
    than the first segment has data sectors, that is min(fileSize,
    MaxFileSize) bytes rounded up to whole sectors; the map and the disk
    are then as they were.  What the rest of the request would need plays
    no part in the answer. *)
Theorem Allocate_refuses_at_entry_only this fm size d r h fm' d' :
  ints_fit -> Z.of_nat (length fm) <= NumSectors ->
  filehdr.Allocate this fm size d = Ret ((r, h, fm'), d') ->
  (r = 0 <-> bitmap.NumClear fm
             < divRoundUp (Z.min size filehdr.MaxFileSize) SectorSize) /\
  (r = 0 -> fm' = fm /\ d' = d).
Proof.
  intros Hg Hfm E. unfold filehdr.Allocate in E.
  pose proof (MaxFileSize_int Hg) as Emax.
  assert (HS : 0 < SectorSize) by (unfold ints_fit in Hg; lia).
  pose proof (count_clear_le fm) as Hcle.
  assert (Hfuel : SectorSize * Z.of_nat (S (bitmap.count_clear fm)) < 2 ^ 31)
    by (unfold ints_fit in Hg; nia).
  pose proof (Allocate_rec_result _ _ _ _ _ _ _ _ _ HS Hfuel E) as [_ Hzero].
  split; [|intros Hr; destruct (Hzero Hr); auto].
  apply Allocate_rec_Ret in E. cbv zeta in E. rewrite Emax in E.
  assert (Enb : (if size >? filehdr.MaxFileSize then filehdr.MaxFileSize else size)
                = Z.min size filehdr.MaxFileSize)
    by (destruct (size >? filehdr.MaxFileSize) eqn:Egt; lia).
  rewrite Enb in E.
  destruct E as [(Hroom & -> & _)|(Hroom & ds1 & fm1 & d1 & _ &
    [(_ & -> & _)|(_ & s & fm2 & r' & next & _ & _ & Erec & -> & _)])].
  - split; auto.
  - split; intros; lia.
  - apply Allocate_rec_result in Erec as [Hr' _]; [|assumption|nia].
    rewrite to_int_id by (unfold int_range; nia). split; intros; lia.
Qed.

(** X2. A request of zero or fewer bytes is accepted: Allocate returns
    SectorSize, records the size as numBytes and fileSize / SectorSize (the
    division of C, towards zero) as numSectors, and takes no sector: the
    table, the map and the disk are untouched. *)
Theorem Allocate_nonpositive_size this fm size d :
  ints_fit -> int_range size -> int_range (size - filehdr.MaxFileSize) -> size <= 0 ->
  filehdr.Allocate this fm size d =
  Ret ((SectorSize,
        filehdr.mkFileHeader size (Z.quot size SectorSize) (filehdr.dataSectors this)
          (filehdr.nextFileHeader this) (filehdr.nextFileHeaderSector this),
        fm), d).
Proof.
  intros Hg Hsize Hsub Hle. unfold filehdr.Allocate.
  pose proof (MaxFileSize_int Hg) as Emax. pose proof (MaxFileSize_pos Hg) as Hmax.
  assert (HS : 0 < SectorSize) by (unfold ints_fit in Hg; lia).
  assert (Hq : - 2 ^ 31 <= Z.quot size SectorSize <= 0).
  { rewrite <- (Z.opp_involutive size), Z.quot_opp_l by lia.
    assert (0 <= Z.quot (- size) SectorSize <= - size).
    { rewrite Z.quot_div_nonneg by lia. split; [apply Z.div_pos; lia|].
      apply Z.div_le_upper_bound; [lia|]. unfold int_range in Hsize. nia. }
    unfold int_range in Hsize. lia. }
  assert (Hr : Z.rem size SectorSize <= 0).
  { rewrite <- (Z.opp_involutive size), Z.rem_opp_l by lia.
    pose proof (Z.rem_nonneg (- size) SectorSize). lia. }
  assert (Ens : divRoundUp size SectorSize = Z.quot size SectorSize).
  { unfold divRoundUp. destruct (Z.rem size SectorSize >? 0) eqn:E; [lia|].
    rewrite Z.add_0_r. apply to_int_id. unfold int_range. lia. }
  pose proof (Allocate_rec_last (bitmap.count_clear fm) this fm size d
                (filehdr.dataSectors this) fm d) as Estep.
  cbv zeta in Estep. rewrite Emax in Estep.
  destruct (size >? filehdr.MaxFileSize) eqn:Egt; [lia|].
  rewrite Ens in Estep. apply Estep.
  - unfold bitmap.NumClear. lia.
  - replace (Z.to_nat (Z.quot size SectorSize)) with O by lia. reflexivity.
  - rewrite to_int_id by assumption. lia.
Qed.

(** X3. The sectors Allocate gives a chain, for data and for the headers
    of successors alike, are pairwise distinct, were all clear in the map
    before the call and are marked after it; no other bit of the map
    changes, and the number of clear bits drops by exactly the number of
    those sectors.  This holds of whatever Allocate returns, 0 included. *)
Theorem Allocate_takes_free_sectors fm size d r h fm' d' :
  filehdr.Allocate filehdr.new fm size d = Ret ((r, h, fm'), d') ->
  NoDup (sectors_held h) /\
  Forall (taken fm fm') (sectors_held h) /\
  (forall k, Z.of_nat k ∉ sectors_held h -> fm' !! k = fm !! k) /\
  bitmap.NumClear fm' = bitmap.NumClear fm - Z.of_nat (length (sectors_held h)).
Proof.
  intros E. unfold filehdr.Allocate in E.
  pose proof (Allocate_rec_held_taken _ _ _ _ _ _ _ _ E) as Htaken.
  apply Allocate_rec_held in E as (Hnd & Hfm & _ & _ & Hc).
  split_and!; auto. unfold bitmap.NumClear. lia.
Qed.

(** X4. After Allocate every data sector of the chain holds SectorSize
    zero bytes, and every other sector of the disk is as it was before. *)
Theorem Allocate_zeroes_data_sectors fm size d r h fm' d' :
  filehdr.Allocate filehdr.new fm size d = Ret ((r, h, fm'), d') ->
  Forall (fun s => d' !! Z.to_nat s = Some (replicate (Z.to_nat SectorSize) 0))
    (data_held h) /\
  (forall k, Z.of_nat k ∉ data_held h -> d' !! k = d !! k).
Proof.
  intros E. unfold filehdr.Allocate in E.
  apply Allocate_rec_held in E as (_ & _ & Hd & Hz & _). auto.
Qed.

(** X5. With sectors_for(size) clear bits or more, Allocate succeeds on a
    request of size >= 0 bytes: it returns SectorSize times the number of
    headers, the chain has FileLength size, one successor for each further
    MaxFileSize bytes and one data sector for each SectorSize bytes, and
    the map loses exactly sectors_for(size) clear bits. *)
Theorem Allocate_with_enough_room fm size d :
  ints_fit -> disk_ok d -> Z.of_nat (length fm) <= NumSectors ->
  0 <= size < 2 ^ 31 -> sectors_for size <= bitmap.NumClear fm ->
  exists h fm' d',
    filehdr.Allocate filehdr.new fm size d
      = Ret ((SectorSize * segments_for size, h, fm'), d') /\
    filehdr.FileLength h = size /\
    Z.of_nat (length (successor_sectors h)) = segments_for size - 1 /\
    Z.of_nat (length (data_held h)) = (size + SectorSize - 1) / SectorSize /\
    bitmap.NumClear fm' = bitmap.NumClear fm - sectors_for size.
Proof.
  intros Hg Hd Hfm Hsize Hroom.
  destruct (Allocate_rec_enough_room (S (bitmap.count_clear fm)) fm size d)
    as (h & fm' & d' & E & Hlaid & _); try assumption.
  { assert (0 <= (size + SectorSize - 1) / SectorSize)
      by (apply Z.div_pos; unfold ints_fit in Hg; lia).
    unfold sectors_for, bitmap.NumClear in Hroom. lia. }
  exists h, fm', d'. split; [exact E|].
  assert (Hpos : 0 <= size) by lia.
  pose proof (laid_out_lengths h size Hg Hpos Hlaid) as (E1 & E2 & E3).
  apply Allocate_rec_held in E as (_ & _ & _ & _ & Hc).
  split_and!; try assumption.
  - apply laid_out_FileLength; assumption.
  - unfold bitmap.NumClear. lia.
Qed.

(* What Allocate returns when there is room enough is laid out. *)
Lemma Allocate_laid_out fm size d r h fm' d' :
  ints_fit -> disk_ok d -> Z.of_nat (length fm) <= NumSectors ->
  0 <= size < 2 ^ 31 -> sectors_for size <= bitmap.NumClear fm ->
  filehdr.Allocate filehdr.new fm size d = Ret ((r, h, fm'), d') ->
  laid_out h size.
Proof.
  intros Hg Hd Hfm Hsize Hroom E.
  destruct (Allocate_rec_enough_room (S (bitmap.count_clear fm)) fm size d)
    as (h0 & fm0 & d0 & E0 & Hlaid & _); try assumption.
  { assert (0 <= (size + SectorSize - 1) / SectorSize)
      by (apply Z.div_pos; unfold ints_fit in Hg; lia).
    unfold sectors_for, bitmap.NumClear in Hroom. lia. }
  unfold filehdr.Allocate in E. rewrite E0 in E. now injection E as _ <- _ _.
Qed.

(** X6. In a file that Allocate has built with room enough, ByteToSector
    answers every offset of the file with the cell of block
    offset / SectorSize: a sector that Allocate took from the free map for
    this file, and that holds zeros. *)
Theorem ByteToSector_of_allocated_file fm size d r h fm' d' offset :
  ints_fit -> disk_ok d -> Z.of_nat (length fm) <= NumSectors ->
  0 <= offset < size -> size < 2 ^ 31 -> sectors_for size <= bitmap.NumClear fm ->
  filehdr.Allocate filehdr.new fm size d = Ret ((r, h, fm'), d') ->
  exists s,
    filehdr.ByteToSector h offset = Ret s /\
    data_held h !! Z.to_nat (offset / SectorSize) = Some s /\
    taken fm fm' s /\
    d' !! Z.to_nat s = Some (replicate (Z.to_nat SectorSize) 0).
Proof.
  intros Hg Hd Hfm Hoff Hsize Hroom E.
  assert (Hrange : 0 <= size < 2 ^ 31) by lia.
  pose proof (Allocate_laid_out _ _ _ _ _ _ _ Hg Hd Hfm Hrange Hroom E) as Hlaid.
  destruct (laid_out_ByteToSector h size offset Hg Hoff Hsize Hlaid) as (s & Es & Hs).
  exists s. split; [exact Es|]. split; [exact Hs|].
  pose proof (list_elem_of_lookup_2 _ _ _ Hs) as Hin.
  unfold filehdr.Allocate in E.
  pose proof (Allocate_rec_held_taken _ _ _ _ _ _ _ _ E) as Htaken.
  apply Allocate_rec_held in E as (_ & _ & _ & Hz & _).
  rewrite Forall_forall in Htaken, Hz.
  split; [apply Htaken; now apply data_held_sub | now apply Hz].
Qed.

(** X7. In such a file two offsets that lie in different blocks of
    SectorSize bytes are stored in different sectors. *)
Theorem ByteToSector_separates_blocks fm size d r h fm' d' offset1 offset2 :
  ints_fit -> disk_ok d -> Z.of_nat (length fm) <= NumSectors ->
  0 <= offset1 < size -> 0 <= offset2 < size -> size < 2 ^ 31 ->
  sectors_for size <= bitmap.NumClear fm ->
  filehdr.Allocate filehdr.new fm size d = Ret ((r, h, fm'), d') ->
  offset1 / SectorSize <> offset2 / SectorSize ->
  filehdr.ByteToSector h offset1 <> filehdr.ByteToSector h offset2.
Proof.
  intros Hg Hd Hfm Hoff1 Hoff2 Hsize Hroom E Hne.
  assert (Hrange : 0 <= size < 2 ^ 31) by lia.
  pose proof (Allocate_laid_out _ _ _ _ _ _ _ Hg Hd Hfm Hrange Hroom E) as Hlaid.
  destruct (laid_out_ByteToSector h size offset1 Hg Hoff1 Hsize Hlaid) as (s1 & E1 & H1).
  destruct (laid_out_ByteToSector h size offset2 Hg Hoff2 Hsize Hlaid) as (s2 & E2 & H2).
  rewrite E1, E2. intros [= ->].
  unfold filehdr.Allocate in E.
  apply Allocate_rec_held in E as (Hnd & _).
  assert (Hnd' : NoDup (data_held h)).
  { clear - Hnd. induction h as [nb ns ds s|nb ns ds next s IH] using filehdr.chain_ind;
      cbn in *; [assumption|].
    apply NoDup_app in Hnd as (Ha & Hb & Hc). apply NoDup_cons in Hc as [Hs Hc].
    apply NoDup_app. split_and!; auto.
    intros x Hx Hin. apply (Hb x Hx). right. now apply data_held_sub. }
  pose proof (NoDup_lookup _ _ _ _ Hnd' H1 H2) as Heq.
  assert (HS : 0 < SectorSize) by (unfold ints_fit in Hg; lia).
  assert (0 <= offset1 / SectorSize) by (apply Z.div_pos; lia).
  assert (0 <= offset2 / SectorSize) by (apply Z.div_pos; lia).
  lia.
Qed.

(** X8. ByteToSector at an offset of MaxFileSize times the number of
    segments of the chain, or more, reaches the last segment and calls
    ByteToSector through its NULL nextFileHeader: a null dereference, not
    an error value. *)
Theorem ByteToSector_beyond_chain h : forall offset,
  ints_fit -> offset < 2 ^ 31 ->
  filehdr.MaxFileSize * (1 + Z.of_nat (length (successor_sectors h))) <= offset ->
  filehdr.ByteToSector h offset = Stop NullDereference.
Proof.
  induction h as [nb ns ds s|nb ns ds next s IH] using filehdr.chain_ind;
    intros offset Hg Hint Hoff;
    pose proof (MaxFileSize_int Hg) as Emax; pose proof (MaxFileSize_pos Hg) as Hmax;
    assert (HS : 0 < SectorSize) by (unfold ints_fit in Hg; lia);
    cbn [filehdr.ByteToSector successor_sectors length filehdr.dataSectors
         filehdr.nextFileHeader] in *;
    (assert (Hq : NumDirect <= Z.quot offset SectorSize);
     [rewrite Z.quot_div_nonneg by nia; apply Z.div_le_lower_bound;
      [lia | unfold filehdr.MaxFileSize in *; nia]|]);
    destruct (Z.quot offset SectorSize <? NumDirect) eqn:E; try lia.
  - reflexivity.
  - rewrite Emax, to_int_id by (unfold int_range; nia).
    apply IH; [assumption | lia | nia].
Qed.

End AllocateEffects.

(** ** Deallocate, FetchFrom and WriteBack *)

Lemma sectors_held_NoDup_data h : NoDup (sectors_held h) -> NoDup (data_held h).
Proof.
  induction h as [nb ns ds s|nb ns ds next s IH] using filehdr.chain_ind;
    cbn; [auto|]. intros Hnd.
  apply NoDup_app in Hnd as (Ha & Hb & Hc). apply NoDup_cons in Hc as [Hs Hc].
  apply NoDup_app. split_and!; auto.
  intros x Hx Hin. apply (Hb x Hx). right. now apply data_held_sub.
Qed.

Section DeallocateEffects.
Context `{G : Geometry}.

(** X9. Deallocate on the chain Allocate has just built with room enough:
    no assertion fails, the disk is not touched, every data sector of the
    chain is clear again and no other bit changes, so that the map has the
    clear bits it had before Allocate less one for each successor header. *)
Theorem Deallocate_after_Allocate fm size d r h fm1 d1 :
  ints_fit -> disk_ok d -> Z.of_nat (length fm) <= NumSectors ->
  0 <= size < 2 ^ 31 -> sectors_for size <= bitmap.NumClear fm ->
  filehdr.Allocate filehdr.new fm size d = Ret ((r, h, fm1), d1) ->
  exists fm2,
    filehdr.Deallocate h fm1 d1 = Ret (fm2, d1) /\
    Forall (fun s => fm2 !! Z.to_nat s = Some false) (data_held h) /\
    (forall k, Z.of_nat k ∉ data_held h -> fm2 !! k = fm1 !! k) /\
    bitmap.NumClear fm2 = bitmap.NumClear fm - (segments_for size - 1).
Proof.
  intros Hg Hd Hfm Hsize Hroom E.
  pose proof (Allocate_laid_out _ _ _ _ _ _ _ Hg Hd Hfm Hsize Hroom E) as Hlaid.
  assert (Hpos : 0 <= size) by lia.
  pose proof (laid_out_lengths h size Hg Hpos Hlaid) as (E1 & E2 & E3).
  unfold filehdr.Allocate in E.
  pose proof (Allocate_rec_held_taken _ _ _ _ _ _ _ _ E) as Htaken.
  apply Allocate_rec_held in E as (Hnd & _ & _ & _ & Hc).
  destruct (Deallocate_laid_out h size fm1 d1 Hlaid) as (fm2 & E' & _ & Hclear & Hframe & Hc2).
  { now apply sectors_held_NoDup_data. }
  { rewrite Forall_forall in Htaken |- *. intros s Hs.
    apply data_held_sub in Hs. destruct (Htaken s Hs) as (? & _ & ?). auto. }
  exists fm2. split_and!; auto.
  unfold bitmap.NumClear, sectors_for in *. lia.
Qed.

(** X10. Deallocate called a second time on a header that has data
    sectors fails its assertion ("ought to be marked"): the first data
    sector is clear already. *)
Theorem Deallocate_twice_fails h fm d fm1 d1 :
  0 < filehdr.numSectors h ->
  filehdr.Deallocate h fm d = Ret (fm1, d1) ->
  filehdr.Deallocate h fm1 d1 = Stop AssertionFailed.
Proof.
  intros Hns E. destruct h as [nb ns ds next s0]. cbn [filehdr.numSectors] in Hns.
  cbn [filehdr.Deallocate filehdr.numSectors filehdr.dataSectors
       filehdr.nextFileHeader] in *.
  bind_inv E as fm_a d_a E1.
  destruct (Z.to_nat ns) as [|count] eqn:Ecount; [lia|].
  cbn [filehdr.deallocate_sectors] in *.
  lift_inv E1 as s Eget. lift_inv E1 as marked Etest. assert_inv E1 as Hm.
  lift_inv E1 as fm_b Eclear.
  apply Test_Ret in Etest as (Hs & Hlt & _).
  apply Clear_Ret in Eclear as [_ ->].
  apply deallocate_sectors_clears in E1 as (-> & Hl1 & Hk1).
  assert (Hfree : fm1 !! Z.to_nat s = Some false).
  { destruct next as [next|].
    - apply Deallocate_clears in E as (_ & _ & Hk). apply Hk, Hk1.
      now apply list_lookup_insert_eq.
    - apply ret_Ret in E as [<- _]. apply Hk1. now apply list_lookup_insert_eq. }
  apply bind_Stop. unfold bind at 1. unfold lift at 1. rewrite Eget.
  unfold bind at 1. unfold lift at 1. rewrite (Test_ok fm1 s false) by assumption.
  reflexivity.
Qed.

End DeallocateEffects.

Section HeaderSectors.
Context `{G : Geometry}.

Lemma follow_cycle d s k :
  follow d (S k) s = Some s -> forall n, follow d (n * S k) s = Some s.
Proof.
  intros Hc n. induction n as [|n IH]; [reflexivity|].
  change (S n * S k)%nat with (S k + n * S k)%nat.
  now rewrite follow_add, Hc.
Qed.

(** X11. When the links stored on the disk lead from a sector back to
    itself, FetchFrom at that sector does not end: whatever the number of
    steps it is given, the outcome is Diverges. *)
Theorem FetchFrom_loops_on_a_cycle this s d k :
  follow d (S k) s = Some s ->
  forall fuel, filehdr.FetchFrom_rec fuel this s d = Stop Diverges.
Proof.
  intros Hc fuel. apply FetchFrom_rec_diverges.
  apply (follow_shorter d fuel (fuel * S k)); [nia|].
  rewrite (follow_cycle d s k Hc). eauto.
Qed.

(** X12. WriteBack writes the sector it is given and the sectors of the
    successor headers of the chain, and no other: every other sector, and
    the size of the disk, are as before. *)
Theorem WriteBack_writes_headers_only h : forall sector d d',
  filehdr.WriteBack h sector d = Ret (tt, d') ->
  length d' = length d /\
  forall k, Z.of_nat k ∉ sector :: successor_sectors h -> d' !! k = d !! k.
Proof.
  induction h as [nb ns ds s|nb ns ds next s IH] using filehdr.chain_ind;
    intros sector d d' E; rewrite WriteBack_unfold in E;
    bind_inv E as u1 d1 E1; apply readonly_within_buffer in E1 as ->;
    bind_inv E as u2 d2 E2; apply WriteSector_Ret in E2 as (Hs & -> & Hlt);
    cbn [filehdr.nextFileHeaderSector filehdr.nextFileHeader successor_sectors] in *.
  - destruct (negb (s =? -1)); [discriminate|].
    apply ret_Ret in E as [_ ->]. split; [apply length_insert|].
    intros k Hk. apply not_elem_of_cons in Hk as [Hk _].
    apply list_lookup_insert_ne. lia.
  - destruct (negb (s =? -1)).
    + apply IH in E as [Hl Hframe]. rewrite length_insert in Hl. split; [exact Hl|].
      intros k Hk. apply not_elem_of_cons in Hk as [Hk Hk'].
      rewrite Hframe by assumption. apply list_lookup_insert_ne. lia.
    + apply ret_Ret in E as [_ ->]. split; [apply length_insert|].
      intros k Hk. apply not_elem_of_cons in Hk as [Hk _].
      apply list_lookup_insert_ne. lia.
Qed.

Lemma FetchFrom_rec_chain_ok fuel : forall this sector d h d',
  filehdr.nextFileHeader this = None ->
  filehdr.FetchFrom_rec fuel this sector d = Ret (h, d') -> chain_ok h.
Proof.
  induction fuel as [|fuel IH]; intros this sector d h d' Hnone E; [discriminate|].
  cbn [filehdr.FetchFrom_rec] in E.
  bind_inv E as buf d1 E1. bind_inv E as u d2 E2.
  cbn [filehdr.nextFileHeaderSector] in E.
  assert (Hints : Forall int_range (decode_ints buf 12 (Z.to_nat NumDirect))).
  { apply Forall_forall. intros v Hv. unfold decode_ints in Hv.
    apply list_elem_of_fmap in Hv as (i & -> & _). apply to_int_range. }
  assert (Hlen : length (decode_ints buf 12 (Z.to_nat NumDirect)) = Z.to_nat NumDirect)
    by (unfold decode_ints; now rewrite length_fmap, length_seq).
  destruct (decode_int buf 8 =? -1) eqn:Elink; cbn [negb] in E.
  - apply Z.eqb_eq in Elink. apply ret_Ret in E as [<- _]. cbn. rewrite Hnone.
    split_and!; auto; apply to_int_range.
  - apply Z.eqb_neq in Elink. bind_inv E as next d3 E3. apply ret_Ret in E as [<- _].
    apply IH in E3; [|reflexivity]. cbn.
    split_and!; auto; apply to_int_range.
Qed.

(** X13. FetchFrom only reads the disk, and the chain it builds in a fresh
    header is well formed: every field is an int, the table has NumDirect
    cells, and a segment has an in-memory successor exactly when its
    nextFileHeaderSector is not -1. *)
Theorem FetchFrom_chain_ok sector d h d' :
  filehdr.FetchFrom filehdr.new sector d = Ret (h, d') -> d' = d /\ chain_ok h.
Proof.
  intros E. split.
  - now apply readonly_FetchFrom_rec in E.
  - now apply FetchFrom_rec_chain_ok in E.
Qed.

End HeaderSectors.

(** ** Paths, and the operations of the file system *)



Lemma strtok_all_slashes path :
  Forall (fun c => c = "/"%char) (list_ascii_of_string path) ->
  filesys.strtok_all path EmptyString = [].
Proof.
  induction path as [|c path IH]; cbn; [reflexivity|].
  intros Hall. apply Forall_cons in Hall as [-> Hall]. cbn. auto.
Qed.


Section FacadeProps.
Context `{G : Geometry}.


(** X14. FindSubDir returns NULL for a path without a component: the
    empty path, "/", "//" and so on. *)
Theorem FindSubDir_without_component fs path d root d' :
  directory.FetchFrom (directory.new NumDirEntries) (filesys.directoryFile fs) d
    = Ret (root, d') ->
  Forall (fun c => c = "/"%char) (list_ascii_of_string path) ->
  filesys.FindSubDir fs path d = Ret (None, d').
Proof.
  intros Eroot Hall. unfold filesys.FindSubDir.
  rewrite (bind_eq _ _ _ _ _ Eroot). now rewrite strtok_all_slashes.
Qed.


(** X16. Create returns TRUE only if the name was absent from the
    directory the path resolves to and the free map on the disk had a clear
    bit: an entry that exists is never replaced. *)
Theorem Create_adds_new_names_only fs path initialSize isDir d d' :
  filesys.Create fs path initialSize isDir d = Ret (true, d') ->
  exists curDirFile name dir freeMap,
    filesys.FindSubDir fs path d = Ret (Some (curDirFile, name), d) /\
    directory.FetchFrom (directory.new NumDirEntries) curDirFile d = Ret (dir, d) /\
    directory.Find dir name = -1 /\
    pbitmap.load (filesys.freeMapFile fs) NumSectors d = Ret (freeMap, d) /\
    0 < bitmap.NumClear freeMap.
Proof.
  intros E. unfold filesys.Create in E.
  bind_inv E as targetPath d1 E1.
  unfold filesys.strcpy_500 in E1.
  destruct (String.length path <? 500)%nat; [|discriminate].
  apply ret_Ret in E1 as [<- ->].
  bind_inv E as found d1 E1. pose proof (readonly_FindSubDir _ _ _ _ _ E1) as ->.
  destruct found as [[curDirFile name]|]; [|now apply ret_Ret in E as [[=] _]].
  bind_inv E as dir d1 E2. pose proof (readonly_Directory_FetchFrom _ _ _ _ _ E2) as ->.
  destruct (directory.Find dir name =? -1) eqn:Efind; cbn [negb] in E;
    [|now apply ret_Ret in E as [[=] _]].
  apply Z.eqb_eq in Efind.
  bind_inv E as freeMap d1 E3. pose proof (readonly_Bitmap_load _ _ _ _ _ E3) as ->.
  destruct (bitmap.FindAndSet freeMap) as [sector freeMap1] eqn:Efs.
  destruct (sector =? -1) eqn:Esec; [now apply ret_Ret in E as [[=] _]|].
  apply Z.eqb_neq in Esec.
  exists curDirFile, name, dir, freeMap. split_and!; auto.
  apply FindAndSet_cases in Efs as [(-> & _)|(_ & _ & _ & Hc & _)]; [lia|].
  unfold bitmap.NumClear. lia.
Qed.

Lemma array_get_Ret {A} (a : list A) i v :
  array_get a i = Ret v -> 0 <= i /\ a !! Z.to_nat i = Some v.
Proof.
  unfold array_get. destruct (0 <=? i) eqn:E; [|discriminate].
  destruct (a !! Z.to_nat i); [|discriminate]. intros [= ->]. split; [lia | reflexivity].
Qed.

Lemma free_slot_Ret count : forall ID (table : list (option openfile.OpenFile)) slot,
  filesys.free_slot count ID table = Ret slot ->
  match slot with
  | Some id =>
      ID <= id < ID + Z.of_nat count /\ 0 <= id /\
      table !! Z.to_nat id = Some None /\
      forall j, ID <= j < id -> exists f, table !! Z.to_nat j = Some (Some f)
  | None =>
      forall j, ID <= j < ID + Z.of_nat count ->
                exists f, table !! Z.to_nat j = Some (Some f)
  end.
Proof.
  induction count as [|count IH]; intros ID table slot E; cbn [filesys.free_slot] in E.
  - injection E as <-. intros j Hj. lia.
  - destruct (array_get table ID) as [[f|]|f] eqn:Eget.
    3: discriminate.
    + apply array_get_Ret in Eget as [HID Hcell].
      apply IH in E. destruct slot as [id|].
      * destruct E as (Hid & Hid0 & Hfree & Hbefore). split_and!; auto; try lia.
        intros j Hj. destruct (Z.eq_dec j ID) as [->|Hne]; [eauto|].
        apply Hbefore. lia.
      * intros j Hj. destruct (Z.eq_dec j ID) as [->|Hne]; [eauto|].
        apply E. lia.
    + injection E as <-. apply array_get_Ret in Eget as [HID Hcell].
      split_and!; auto; try lia.
Qed.

(* What Open returns: nothing has changed and the answer is (NULL, -1), or
   a descriptor was found and the table and the count were updated. *)
Lemma Open_Ret fs path d fs' r d' :
  filesys.Open fs path d = Ret ((fs', r), d') ->
  d' = d /\
  ((fs' = fs /\ r = (None, -1)) \/
   exists file ID,
     r = (Some file, ID) /\ 1 <= ID <= MAXFILENUM /\
     filesys.fileDescriptorTable fs !! Z.to_nat ID = Some None /\
     (forall j, 1 <= j < ID ->
        exists f, filesys.fileDescriptorTable fs !! Z.to_nat j = Some (Some f)) /\
     fs' = filesys.mkFileSystem (filesys.freeMapFile fs) (filesys.directoryFile fs)
             (<[Z.to_nat ID := Some file]> (filesys.fileDescriptorTable fs))
             (to_int (filesys.openedNum fs + 1)) /\
     filesys.openedNum fs <> MAXFILENUM).
Proof.
  intros E. unfold filesys.Open in E.
  bind_inv E as targetPath d1 E1. apply readonly_strcpy_500 in E1 as ->.
  bind_inv E as found d1 E1. apply readonly_FindSubDir in E1 as ->.
  destruct found as [[curDirFile name]|];
    [|apply ret_Ret in E as [[= <- <-] ->]; auto].
  bind_inv E as dir d1 E1. apply readonly_Directory_FetchFrom in E1 as ->.
  destruct (filesys.openedNum fs =? MAXFILENUM) eqn:Efull;
    [apply ret_Ret in E as [[= <- <-] ->]; auto|].
  apply Z.eqb_neq in Efull.
  destruct (negb (0 <=? directory.Find dir name));
    [apply ret_Ret in E as [[= <- <-] ->]; auto|].
  bind_inv E as openFile d1 E1. apply readonly_OpenFile in E1 as ->.
  lift_inv E as slot Eslot. apply free_slot_Ret in Eslot.
  destruct slot as [id|]; [|apply ret_Ret in E as [[= <- <-] ->]; auto].
  destruct Eslot as (Hid & Hid0 & Hfree & Hbefore).
  lift_inv E as table Eset. apply array_set_Ret in Eset as [_ ->].
  apply ret_Ret in E as [[= <- <-] ->].
  split; [reflexivity|]. right. exists openFile, id.
  split_and!; auto; lia.
Qed.

(** X17. An Open that succeeds has only read the disk and returns the
    smallest ID >= 1 whose cell of fileDescriptorTable is NULL, never 0;
    that cell alone is changed, to hold the file, and openedNum grows by
    one. *)
Theorem Open_takes_the_lowest_free_descriptor fs path d fs' file ID d' :
  filesys.Open fs path d = Ret ((fs', (Some file, ID)), d') ->
  d' = d /\ 1 <= ID <= MAXFILENUM /\
  filesys.fileDescriptorTable fs !! Z.to_nat ID = Some None /\
  (forall j, 1 <= j < ID ->
     exists f, filesys.fileDescriptorTable fs !! Z.to_nat j = Some (Some f)) /\
  filesys.fileDescriptorTable fs'
    = <[Z.to_nat ID := Some file]> (filesys.fileDescriptorTable fs) /\
  filesys.openedNum fs' = to_int (filesys.openedNum fs + 1) /\
  filesys.openedNum fs <> MAXFILENUM /\
  filesys.freeMapFile fs' = filesys.freeMapFile fs /\
  filesys.directoryFile fs' = filesys.directoryFile fs.
Proof.
  intros E. apply Open_Ret in E as [-> [[_ [=]]|(f & id & [= <- <-] & H)]].
  destruct H as (Hid & Hfree & Hbefore & -> & Hfull). cbn. auto 10.
Qed.

(** X18. An Open that returns a NULL file returns the ID -1 and leaves the
    descriptor table, openedNum and the disk as they were. *)
Theorem Open_failure_changes_nothing fs path d fs' ID d' :
  filesys.Open fs path d = Ret ((fs', (None, ID)), d') ->
  fs' = fs /\ ID = -1 /\ d' = d.
Proof.
  intros E. apply Open_Ret in E as [-> [[-> [= ->]]|(f & id & [=] & _)]]. auto.
Qed.

(** X19. Remove of a path whose last component is not in the directory it
    resolves to returns FALSE and leaves the disk as it was, with or without
    recursion. *)
Theorem Remove_of_missing_name fuel fs recursion path d curDirFile name dir :
  (String.length path < 500)%nat ->
  filesys.FindSubDir fs path d = Ret (Some (curDirFile, name), d) ->
  directory.FetchFrom (directory.new NumDirEntries) curDirFile d = Ret (dir, d) ->
  directory.Find dir name = -1 ->
  filesys.Remove (S fuel) fs recursion path d = Ret (false, d).
Proof.
  intros Hlen Efind Edir Hmissing. cbn [filesys.Remove].
  unfold filesys.strcpy_500. apply Nat.ltb_lt in Hlen. rewrite Hlen.
  unfold bind at 1. cbn [ret].
  rewrite (bind_eq _ _ _ _ _ Efind). cbv beta iota.
  rewrite (bind_eq _ _ _ _ _ Edir). cbv beta zeta.
  now rewrite Hmissing.
Qed.

(** X20. List of a path other than "/" whose last component is not in the
    directory it resolves to does not return: ASSERT(targetSector >= 0)
    fails. *)
Theorem List_of_missing_name_aborts fuel fs recursion path d conDirFile name conDir :
  path <> "/"%string -> (String.length path < 500)%nat ->
  filesys.FindSubDir fs path d = Ret (Some (conDirFile, name), d) ->
  directory.FetchFrom (directory.new NumDirEntries) conDirFile d = Ret (conDir, d) ->
  directory.Find conDir name = -1 ->
  filesys.List fuel fs recursion path d = Stop AssertionFailed.
Proof.
  intros Hroot Hlen Efind Edir Hmissing. unfold filesys.List.
  apply String.eqb_neq in Hroot. rewrite Hroot.
  unfold filesys.strcpy_500. apply Nat.ltb_lt in Hlen. rewrite Hlen.
  unfold bind at 1. cbn [ret].
  rewrite (bind_eq _ _ _ _ _ Efind). cbv beta iota.
  rewrite (bind_eq _ _ _ _ _ Edir). cbv beta zeta.
  now rewrite Hmissing.
Qed.

Lemma readonly_Directory_List fuel : forall table recursion indent,
  readonly (directory.List fuel table recursion indent).
Proof.
  induction fuel as [|fuel IH]; intros table recursion indent; cbn [directory.List].
  - apply readonly_stop.
  - induction table as [|e es IHes]; [apply readonly_ret|].
    destruct (directory.inUse e); [|exact IHes].
    apply readonly_bind.
    + destruct (recursion && directory.isDir e); [|apply readonly_ret].
      apply readonly_bind; [apply readonly_OpenFile|]. intros file.
      apply readonly_bind; [apply readonly_Directory_FetchFrom|]. intros sub.
      apply IH.
    + intros below. apply readonly_bind; [exact IHes|]. intros rest.
      apply readonly_ret.
Qed.

(** X21. List, recursive or not, leaves the disk as it was. *)
Theorem List_only_reads fuel fs recursion path d lines d' :
  filesys.List fuel fs recursion path d = Ret (lines, d') -> d' = d.
Proof.
  revert d lines d'. change (readonly (filesys.List fuel fs recursion path)).
  unfold filesys.List. destruct (String.eqb path "/").
  - apply readonly_bind; [apply readonly_Directory_FetchFrom|]. intros dir.
    apply readonly_bind; [apply readonly_Directory_List|]. intros lines.
    apply readonly_ret.
  - apply readonly_bind; [apply readonly_strcpy_500|]. intros targetPath.
    apply readonly_bind; [apply readonly_FindSubDir|]. intros [[conDirFile name]|];
      [|apply readonly_ret].
    apply readonly_bind; [apply readonly_Directory_FetchFrom|]. intros conDir.
    apply readonly_bind; [apply readonly_ASSERT|]. intros _.
    apply readonly_bind; [apply readonly_OpenFile|]. intros file.
    apply readonly_bind; [apply readonly_Directory_FetchFrom|]. intros dir.
    apply readonly_bind; [apply readonly_Directory_List|]. intros lines.
    apply readonly_ret.
Qed.

(** X22. A path of 500 characters or more overruns the buffer
    targetPath[500] that Create, Open, Remove and List copy it to. *)
Theorem long_path_overruns_targetPath fuel fs recursion path initialSize isDir d :
  (500 <= String.length path)%nat ->
  filesys.Create fs path initialSize isDir d = Stop (WildIndex 500) /\
  filesys.Open fs path d = Stop (WildIndex 500) /\
  filesys.Remove (S fuel) fs recursion path d = Stop (WildIndex 500) /\
  filesys.List fuel fs recursion path d = Stop (WildIndex 500).
Proof.
  intros Hlen.
  assert (Ecpy : filesys.strcpy_500 path d = Stop (WildIndex 500)).
  { unfold filesys.strcpy_500. destruct (String.length path <? 500)%nat eqn:E;
      [apply Nat.ltb_lt in E; lia | reflexivity]. }
  assert (Hroot : String.eqb path "/" = false).
  { apply String.eqb_neq. intros ->. cbn in Hlen. lia. }
  split_and!.
  - unfold filesys.Create. now apply bind_Stop.
  - unfold filesys.Open. now apply bind_Stop.
  - cbn [filesys.Remove]. now apply bind_Stop.
  - unfold filesys.List. rewrite Hroot. now apply bind_Stop.
Qed.

(** X23. The constructor called with format = FALSE only reads the disk:
    it opens the headers found at sectors 0 and 1 and starts with a table
    of MAXFILENUM NULL descriptors and openedNum = 0. *)
Theorem FileSystem_new_without_format d fs d' :
  filesys.FileSystem_new false d = Ret (fs, d') ->
  d' = d /\
  filesys.fileDescriptorTable fs = replicate (Z.to_nat MAXFILENUM) None /\
  filesys.openedNum fs = 0 /\
  filehdr.FetchFrom filehdr.new 0 d = Ret (openfile.hdr (filesys.freeMapFile fs), d) /\
  filehdr.FetchFrom filehdr.new 1 d = Ret (openfile.hdr (filesys.directoryFile fs), d).
Proof.
  intros E. unfold filesys.FileSystem_new in E.
  bind_inv E as freeMapFile d1 E1. pose proof (readonly_OpenFile _ _ _ _ E1) as ->.
  bind_inv E as directoryFile d1 E2. pose proof (readonly_OpenFile _ _ _ _ E2) as ->.
  apply ret_Ret in E as [<- ->]. cbn.
  unfold openfile.new in E1, E2.
  bind_inv E1 as h1 d1 E1'. pose proof (readonly_FetchFrom_rec _ _ _ _ _ _ E1') as ->.
  apply ret_Ret in E1 as [<- _].
  bind_inv E2 as h2 d1 E2'. pose proof (readonly_FetchFrom_rec _ _ _ _ _ _ E2') as ->.
  apply ret_Ret in E2 as [<- _]. cbn. auto.
Qed.

End FacadeProps.

(** ** The descriptor table; what FetchFrom and Deallocate depend on *)


Lemma open_count_bound table : 0 <= open_count table <= Z.of_nat (length table).
Proof. induction table as [|[f|] table IH]; cbn [open_count length]; lia. Qed.

Lemma open_count_set table : forall i (f : openfile.OpenFile),
  table !! i = Some None ->
  open_count (<[i := Some f]> table) = open_count table + 1.
Proof.
  induction table as [|c table IH]; intros [|i] f Hi; cbn in Hi; try discriminate.
  - injection Hi as ->. cbn. lia.
  - change (<[S i := Some f]> (c :: table)) with (c :: <[i := Some f]> table).
    cbn [open_count]. rewrite (IH i f Hi). destruct c; lia.
Qed.

Section Descriptors.
Context `{G : Geometry}.


(** X25. Open keeps the descriptor table consistent: MAXFILENUM cells,
    cell 0 NULL, openedNum the number of cells in use.  Cell 0 is never
    given out, so openedNum stays below MAXFILENUM: in a file system built
    by the constructor and used through Open, the test
    openedNum == MAXFILENUM of Open is never true. *)
Theorem Open_keeps_descriptors fs path d fs' r d' :
  0 < MAXFILENUM < 2 ^ 31 -> descriptors_ok fs ->
  filesys.Open fs path d = Ret ((fs', r), d') ->
  descriptors_ok fs' /\ filesys.openedNum fs' < MAXFILENUM.
Proof.
  intros HM (Hlen & Hzero & Hcount) E.
  assert (Hbound : forall table : list (option openfile.OpenFile),
            table !! O = Some None -> open_count table < Z.of_nat (length table)).
  { intros [|[f|] table] H0; cbn in H0; try discriminate.
    pose proof (open_count_bound table). cbn [open_count length]. lia. }
  apply Open_Ret in E as [-> [[-> _]|(file & ID & _ & HID & Hfree & _ & -> & _)]].
  - split; [split_and!; assumption|]. rewrite Hcount, <- Hlen. now apply Hbound.
  - assert (Hzero' : <[Z.to_nat ID := Some file]> (filesys.fileDescriptorTable fs) !! O
                     = Some None)
      by (rewrite list_lookup_insert_ne; [exact Hzero | lia]).
    pose proof (open_count_bound (filesys.fileDescriptorTable fs)) as Hpos.
    pose proof (Hbound _ Hzero') as Hlt. rewrite length_insert in Hlt.
    rewrite open_count_set in Hlt by assumption.
    unfold descriptors_ok. cbn.
    rewrite length_insert, open_count_set by assumption.
    rewrite Hcount, to_int_id by (unfold int_range; lia).
    split_and!; auto; lia.
Qed.

End Descriptors.

Section Locality.
Context `{G : Geometry}.

Lemma ReadSector_Ret s d buf d' :
  synchdisk.ReadSector s d = Ret (buf, d') ->
  0 <= s < NumSectors /\ d !! Z.to_nat s = Some buf /\ d' = d.
Proof.
  unfold synchdisk.ReadSector.
  destruct (0 <=? s) eqn:E0; [|discriminate].
  destruct (s <? NumSectors) eqn:E1; [|discriminate]. cbn.
  destruct (d !! Z.to_nat s) as [data|]; [|discriminate].
  intros [= <- <-]. split_and!; auto; lia.
Qed.

Lemma FetchFrom_rec_local fuel : forall this sector d h d' d2,
  filehdr.nextFileHeader this = None ->
  filehdr.FetchFrom_rec fuel this sector d = Ret (h, d') ->
  (forall s, s ∈ sector :: successor_sectors h ->
             d2 !! Z.to_nat s = d !! Z.to_nat s) ->
  filehdr.FetchFrom_rec fuel this sector d2 = Ret (h, d2).
Proof.
  induction fuel as [|fuel IH]; intros this sector d h d' d2 Hnone E Hsame;
    [discriminate|].
  cbn [filehdr.FetchFrom_rec] in E |- *.
  bind_inv E as buf d1 E1. apply ReadSector_Ret in E1 as (Hs & Hbuf & ->).
  bind_inv E as u d1 E2. pose proof (readonly_within_buffer _ _ _ E2) as ->.
  rewrite (bind_eq _ _ d2 buf d2)
    by (apply ReadSector_ok; [assumption|]; rewrite Hsame by left; assumption).
  assert (E2' : filehdr.within_buffer d2 = Ret (u, d2)).
  { unfold filehdr.within_buffer in E2 |- *.
    destruct (filehdr.header_bytes <=? SectorSize); [|discriminate].
    now destruct u. }
  rewrite (bind_eq _ _ d2 u d2 E2').
  cbn [filehdr.nextFileHeaderSector] in E |- *.
  destruct (negb (decode_int buf 8 =? -1)).
  - bind_inv E as next d3 E3. apply ret_Ret in E as [<- ->].
    erewrite bind_eq; [reflexivity|].
    eapply IH; [reflexivity | exact E3|].
    intros s Hin. apply Hsame. right. exact Hin.
  - apply ret_Ret in E as [<- ->]. reflexivity.
Qed.

(** X26. FetchFrom depends on the header sectors of the chain only: on
    every disk that agrees on them with the disk a chain was read from,
    FetchFrom returns the same chain. *)
Theorem FetchFrom_reads_the_chain_only sector d h d' d2 :
  filehdr.FetchFrom filehdr.new sector d = Ret (h, d') ->
  (forall s, s ∈ sector :: successor_sectors h ->
             d2 !! Z.to_nat s = d !! Z.to_nat s) ->
  filehdr.FetchFrom filehdr.new sector d2 = Ret (h, d2).
Proof.
  intros E Hsame. unfold filehdr.FetchFrom in *.
  eapply FetchFrom_rec_local; [reflexivity | exact E | exact Hsame].
Qed.

(** X27. Deallocate does not touch the disk, keeps the size of the map,
    marks no bit, and changes no bit but those the tables of the chain
    name. *)
Theorem Deallocate_only_clears_its_cells h fm d fm' d' :
  filehdr.Deallocate h fm d = Ret (fm', d') ->
  d' = d /\ length fm' = length fm /\
  (forall k, fm !! k = Some false -> fm' !! k = Some false) /\
  (forall s, 0 <= s -> s ∉ all_data h -> fm' !! Z.to_nat s = fm !! Z.to_nat s).
Proof.
  intros E. pose proof (Deallocate_frame _ _ _ _ _ E) as Hframe.
  apply Deallocate_clears in E as (-> & Hlen & Hclear). auto.
Qed.

End Locality.

(** ** Files *)

Lemma count_clear_fresh n : bitmap.count_clear (replicate n false) = n.
Proof. induction n as [|n IH]; [reflexivity | cbn; now rewrite IH]. Qed.

Lemma count_clear_Mark (fm : list bool) : forall i,
  fm !! i = Some false ->
  bitmap.count_clear fm = S (bitmap.count_clear (<[i := true]> fm)).
Proof.
  induction fm as [|b fm IH]; intros [|i] Hi; cbn in Hi; try discriminate.
  - now injection Hi as ->.
  - change (<[S i := true]> (b :: fm)) with (b :: <[i := true]> fm).
    cbn [bitmap.count_clear]. destruct b; now rewrite (IH i Hi).
Qed.

Section Files.
Context `{G : Geometry}.

(* Reading and writing whole blocks of a file that is laid out, in sectors
   that are on the disk. *)
Lemma read_sectors_ok h size count : forall i d,
  ints_fit -> size < 2 ^ 31 -> laid_out h size ->
  Forall (fun s => 0 <= s < NumSectors) (data_held h) -> disk_ok d ->
  0 <= i -> (i + Z.of_nat count) * SectorSize < size + SectorSize ->
  exists buf, openfile.read_sectors count i h d = Ret (buf, d).
Proof.
  induction count as [|count IH]; intros i d Hg Hsize Hlaid Hsecs Hd Hi Hend;
    cbn [openfile.read_sectors]; [eexists; reflexivity|].
  assert (HS : 0 < SectorSize) by (unfold ints_fit in Hg; lia).
  destruct (laid_out_ByteToSector h size (i * SectorSize)) as (s & Es & Hs);
    try assumption; [nia|].
  apply list_elem_of_lookup_2 in Hs. rewrite Forall_forall in Hsecs.
  pose proof (Hsecs s Hs) as Hrange.
  destruct (lookup_lt_is_Some_2 d (Z.to_nat s)) as [data Hdata];
    [unfold disk_ok in Hd; lia|].
  destruct (IH (i + 1) d) as (rest & Erest); try assumption; try lia.
  { rewrite Forall_forall. exact Hsecs. }
  exists (data ++ rest).
  unfold bind at 1. unfold lift at 1. rewrite Es.
  rewrite (bind_eq _ _ _ _ _ (ReadSector_ok s d data Hrange Hdata)).
  now rewrite (bind_eq _ _ _ _ _ Erest).
Qed.

Lemma write_sectors_ok h size count : forall i buf d,
  ints_fit -> size < 2 ^ 31 -> laid_out h size ->
  Forall (fun s => 0 <= s < NumSectors) (data_held h) -> disk_ok d ->
  0 <= i -> (i + Z.of_nat count) * SectorSize < size + SectorSize ->
  exists d', openfile.write_sectors count i h buf d = Ret (tt, d') /\ disk_ok d' /\
             forall k, Z.of_nat k ∉ data_held h -> d' !! k = d !! k.
Proof.
  induction count as [|count IH]; intros i buf d Hg Hsize Hlaid Hsecs Hd Hi Hend;
    cbn [openfile.write_sectors]; [exists d; auto|].
  assert (HS : 0 < SectorSize) by (unfold ints_fit in Hg; lia).
  destruct (laid_out_ByteToSector h size (i * SectorSize)) as (s & Es & Hs);
    try assumption; [nia|].
  apply list_elem_of_lookup_2 in Hs.
  pose proof Hsecs as Hsecs'. rewrite Forall_forall in Hsecs'.
  pose proof (Hsecs' s Hs) as Hrange.
  destruct (IH (i + 1) (drop (Z.to_nat SectorSize) buf)
              (<[Z.to_nat s := take (Z.to_nat SectorSize) buf]> d))
    as (d' & E & Hd' & Hframe); try assumption; try lia.
  { now apply disk_ok_insert. }
  exists d'. split_and!; [|assumption|].
  - unfold bind at 1. unfold lift at 1. rewrite Es.
    now rewrite (bind_eq _ _ _ _ _ (WriteSector_ok s _ d Hd Hrange)).
  - intros k Hk. rewrite Hframe by assumption.
    apply list_lookup_insert_ne. intros <-. apply Hk. now rewrite Z2Nat.id by lia.
Qed.

Lemma WriteAt_ok f size from n d :
  ints_fit -> 0 <= size < 2 ^ 31 -> laid_out (openfile.hdr f) size ->
  Forall (fun s => 0 <= s < NumSectors) (data_held (openfile.hdr f)) -> disk_ok d ->
  n <= size ->
  exists r d', openfile.WriteAt f from n 0 d = Ret (r, d') /\ disk_ok d' /\
               forall k, Z.of_nat k ∉ data_held (openfile.hdr f) -> d' !! k = d !! k.
Proof.
  intros Hg Hsize Hlaid Hsecs Hd Hn. unfold openfile.WriteAt.
  assert (HS : 0 < SectorSize) by (unfold ints_fit in Hg; lia).
  rewrite (laid_out_FileLength _ size) by assumption.
  destruct ((n <=? 0) || (0 >=? size) || (0 <? 0)) eqn:Eguard;
    [exists 0, d; auto|].
  assert (Hn0 : 0 < n) by lia.
  replace (if 0 + n >? size then size - 0 else n) with n
    by (destruct (0 + n >? size) eqn:E; lia).
  unfold divRoundDown. rewrite Z.quot_0_l by lia.
  rewrite (Z.quot_div_nonneg (0 + n - 1)) by lia.
  set (last := (0 + n - 1) / SectorSize).
  assert (Hlast : 0 <= last /\ last * SectorSize <= n - 1).
  { subst last. split; [apply Z.div_pos; lia|].
    rewrite Z.mul_comm. replace (0 + n - 1) with (n - 1) by lia.
    apply Z.mul_div_le. lia. }
  replace (1 + last - 0) with (last + 1) by lia.
  destruct (read_sectors_ok (openfile.hdr f) size (Z.to_nat (last + 1)) 0 d)
    as (buf & Eread); try assumption; try lia.
  destruct (write_sectors_ok (openfile.hdr f) size (Z.to_nat (last + 1)) 0
              (memcpy buf (Z.to_nat (0 - 0 * SectorSize)) (take (Z.to_nat n) from)) d)
    as (d' & Ewrite & Hd' & Hframe); try assumption; try lia.
  exists n, d'. split_and!; try assumption.
  rewrite (bind_eq _ _ _ _ _ Eread). now rewrite (bind_eq _ _ _ _ _ Ewrite).
Qed.

End Files.

(** ** Files: what is written is read *)

Lemma concat_chunks (buf : list Z) n count :
  concat ((fun j => take n (drop (j * n) buf)) <$> seq 0 count) = take (count * n) buf.
Proof.
  induction count as [|count IH]; [reflexivity|].
  rewrite seq_S, fmap_app, concat_app, IH. cbn [fmap list_fmap concat].
  rewrite app_nil_r, Nat.add_0_l.
  replace (S count * n)%nat with (count * n + n)%nat by lia.
  now rewrite take_take_drop.
Qed.

Lemma concat_length_const {A} (f : nat -> list A) n count :
  (forall j, (j < count)%nat -> length (f j) = n) ->
  length (concat (f <$> seq 0 count)) = (count * n)%nat.
Proof.
  induction count as [|count IH]; intros Hall; [reflexivity|].
  rewrite seq_S, fmap_app, concat_app, length_app, IH by (intros; apply Hall; lia).
  cbn. rewrite app_nil_r, Hall by lia. lia.
Qed.

Section ReadWrite.
Context `{G : Geometry}.
Variable h : filehdr.FileHeader.
Variable size : Z.
Hypothesis Hg : ints_fit.
Hypothesis Hsize : size < 2 ^ 31.
Hypothesis Hlaid : laid_out h size.
Hypothesis Hsecs : Forall (fun s => 0 <= s < NumSectors) (data_held h).
Hypothesis Hnd : NoDup (data_held h).

(* The cell of block [j] of the file. *)
Lemma held_cell j :
  0 <= j -> j * SectorSize < size ->
  exists s, data_held h !! Z.to_nat j = Some s /\
            filehdr.ByteToSector h (j * SectorSize) = Ret s /\ 0 <= s < NumSectors.
Proof.
  intros Hj Hin. assert (HS : 0 < SectorSize) by (unfold ints_fit in Hg; lia).
  destruct (laid_out_ByteToSector h size (j * SectorSize)) as (s & Es & Hs);
    try assumption; [nia|].
  rewrite Z.div_mul in Hs by lia. exists s. split_and!; auto;
    rewrite Forall_forall in Hsecs; apply Hsecs; eapply list_elem_of_lookup_2; eauto.
Qed.

Lemma read_sectors_spec count : forall i d,
  disk_ok d -> 0 <= i -> (i + Z.of_nat count) * SectorSize < size + SectorSize ->
  openfile.read_sectors count i h d =
  Ret (concat ((fun j => default [] (d !! Z.to_nat
                  (default 0 (data_held h !! (Z.to_nat i + j)%nat))))
               <$> seq 0 count), d).
Proof.
  induction count as [|count IH]; intros i d Hd Hi Hend;
    cbn [openfile.read_sectors]; [reflexivity|].
  assert (HS : 0 < SectorSize) by (unfold ints_fit in Hg; lia).
  destruct (held_cell i Hi) as (s & Hcell & Es & Hrange); [nia|].
  destruct (lookup_lt_is_Some_2 d (Z.to_nat s)) as [data Hdata];
    [unfold disk_ok in Hd; lia|].
  unfold bind at 1. unfold lift at 1. rewrite Es.
  rewrite (bind_eq _ _ _ _ _ (ReadSector_ok s d data Hrange Hdata)).
  rewrite (bind_eq _ _ _ _ _ (IH (i + 1) d Hd ltac:(lia) ltac:(lia))).
  unfold ret. do 2 f_equal.
  cbn [seq fmap list_fmap concat]. rewrite Nat.add_0_r, Hcell. cbn [from_option id].
  rewrite Hdata. cbn [from_option id]. f_equal.
  rewrite <- fmap_S_seq, <- list_fmap_compose. f_equal.
  apply list_fmap_ext. intros _ j _. cbn.
  now replace (Z.to_nat (i + 1) + j)%nat with (Z.to_nat i + S j)%nat by lia.
Qed.

Lemma write_sectors_spec count : forall i buf d,
  disk_ok d -> 0 <= i -> (i + Z.of_nat count) * SectorSize < size + SectorSize ->
  exists d',
    openfile.write_sectors count i h buf d = Ret (tt, d') /\ disk_ok d' /\
    (forall k,
       (forall j, (j < count)%nat ->
                  data_held h !! (Z.to_nat i + j)%nat <> Some (Z.of_nat k)) ->
       d' !! k = d !! k) /\
    (forall j s, (j < count)%nat -> data_held h !! (Z.to_nat i + j)%nat = Some s ->
       d' !! Z.to_nat s
       = Some (take (Z.to_nat SectorSize) (drop (j * Z.to_nat SectorSize) buf))).
Proof.
  induction count as [|count IH]; intros i buf d Hd Hi Hend;
    cbn [openfile.write_sectors].
  { exists d. split_and!; auto. intros j s Hj. lia. }
  assert (HS : 0 < SectorSize) by (unfold ints_fit in Hg; lia).
  destruct (held_cell i Hi) as (s0 & Hcell & Es & Hrange); [nia|].
  destruct (IH (i + 1) (drop (Z.to_nat SectorSize) buf)
              (<[Z.to_nat s0 := take (Z.to_nat SectorSize) buf]> d))
    as (d' & E & Hd' & Hframe & Hdata); try lia.
  { now apply disk_ok_insert. }
  assert (Hlater : forall j, (j < count)%nat ->
            data_held h !! (Z.to_nat (i + 1) + j)%nat <> Some s0).
  { intros j Hj Hsame.
    pose proof (NoDup_lookup _ _ _ _ Hnd Hcell Hsame). lia. }
  exists d'. split_and!; [|assumption| |].
  - unfold bind at 1. unfold lift at 1. rewrite Es.
    now rewrite (bind_eq _ _ _ _ _ (WriteSector_ok s0 _ d Hd Hrange)).
  - intros k Hk. rewrite Hframe.
    + apply list_lookup_insert_ne. intros Heq.
      apply (Hk O); [lia|]. rewrite Nat.add_0_r, Hcell. f_equal. lia.
    + intros j Hj. replace (Z.to_nat (i + 1) + j)%nat with (Z.to_nat i + S j)%nat by lia.
      apply Hk. lia.
  - intros [|j] s Hj Hs.
    + rewrite Nat.add_0_r, Hcell in Hs. injection Hs as <-.
      rewrite Hframe.
      * rewrite list_lookup_insert_eq by (unfold disk_ok in Hd; lia).
        now rewrite Nat.mul_0_l, drop_0.
      * intros j Hj'. rewrite Z2Nat.id by lia. now apply Hlater.
    + rewrite (Hdata j s); [|lia|].
      * rewrite drop_drop. do 3 f_equal.
      * now replace (Z.to_nat (i + 1) + j)%nat with (Z.to_nat i + S j)%nat by lia.
Qed.

(* A file written from its first byte on, then read on a disk that still
   holds its data sectors. *)
Lemma WriteAt_ReadAt from n d :
  0 <= size -> disk_ok d -> 0 < n <= size -> (Z.to_nat n <= length from)%nat ->
  Forall (fun s => exists data, d !! Z.to_nat s = Some data /\
                                length data = Z.to_nat SectorSize) (data_held h) ->
  exists d',
    openfile.WriteAt (openfile.mkOpenFile h 0) from n 0 d = Ret (n, d') /\
    disk_ok d' /\
    (forall k, Z.of_nat k ∉ data_held h -> d' !! k = d !! k) /\
    Forall (fun s => exists data, d' !! Z.to_nat s = Some data /\
                                  length data = Z.to_nat SectorSize) (data_held h) /\
    forall d'', disk_ok d'' ->
      (forall s, s ∈ data_held h -> d'' !! Z.to_nat s = d' !! Z.to_nat s) ->
      openfile.ReadAt (openfile.mkOpenFile h 0) n 0 d''
        = Ret (take (Z.to_nat n) from, d'').
Proof.
  intros Hsize0 Hd Hn Hfrom Hsized.
  assert (HS : 0 < SectorSize) by (unfold ints_fit in Hg; lia).
  assert (Hlen : filehdr.FileLength h = size)
    by (apply laid_out_FileLength; [assumption | lia | assumption]).
  assert (Eguard : (n <=? 0) || (0 >=? size) || (0 <? 0) = false).
  { destruct (n <=? 0) eqn:E1; [lia|]. destruct (0 >=? size) eqn:E2; [lia|].
    reflexivity. }
  assert (Enb : (if 0 + n >? size then size - 0 else n) = n)
    by (destruct (0 + n >? size) eqn:E; lia).
  set (last := (0 + n - 1) / SectorSize).
  assert (Hlast : 0 <= last /\ last * SectorSize <= n - 1 /\ n <= (last + 1) * SectorSize).
  { subst last. replace (0 + n - 1) with (n - 1) by lia.
    assert (Hnz : SectorSize <> 0) by lia.
    pose proof (Z.div_mod (n - 1) SectorSize Hnz).
    pose proof (Z.mod_pos_bound (n - 1) SectorSize HS).
    split; [apply Z.div_pos; lia | nia]. }
  set (count := Z.to_nat (last + 1)).
  assert (Hend : (0 + Z.of_nat count) * SectorSize < size + SectorSize)
    by (subst count; nia).
  assert (Hcells : forall j, (j < count)%nat ->
            exists s, data_held h !! j = Some s /\ 0 <= s < NumSectors).
  { intros j Hj. destruct (held_cell (Z.of_nat j)) as (s & Hs & _ & Hr);
      [lia | subst count; nia|].
    rewrite Nat2Z.id in Hs. eauto. }
  pose proof (read_sectors_spec count 0 d Hd ltac:(lia) Hend) as Eread.
  set (old := concat _) in Eread.
  assert (Hold : length old = (count * Z.to_nat SectorSize)%nat).
  { subst old. apply concat_length_const. intros j Hj.
    destruct (Hcells j Hj) as (s & Hs & _). cbv beta.
    change (Z.to_nat 0 + j)%nat with j. rewrite Hs.
    cbn [from_option id]. rewrite Forall_forall in Hsized.
    destruct (Hsized s (list_elem_of_lookup_2 _ _ _ Hs)) as (data & -> & Hdata).
    exact Hdata. }
  set (buf := memcpy old O (take (Z.to_nat n) from)).
  assert (Hsrc : length (take (Z.to_nat n) from) = Z.to_nat n)
    by (rewrite length_take; lia).
  assert (Hbuf : length buf = (count * Z.to_nat SectorSize)%nat).
  { subst buf. rewrite memcpy_length; [exact Hold|]. rewrite Hsrc, Hold.
    subst count. nia. }
  destruct (write_sectors_spec count 0 buf d Hd ltac:(lia) Hend)
    as (d' & Ewrite & Hd' & Hframe & Hdata).
  exists d'. split_and!; try assumption.
  - unfold openfile.WriteAt. cbn [openfile.hdr].
    rewrite Hlen, Eguard, Enb. unfold divRoundDown.
    rewrite Z.quot_0_l, (Z.quot_div_nonneg (0 + n - 1)) by lia. fold last.
    replace (1 + last - 0) with (last + 1) by lia. fold count.
    rewrite (bind_eq _ _ _ _ _ Eread).
    replace (0 - 0 * SectorSize) with 0 by lia. change (Z.to_nat 0) with O.
    fold buf. now rewrite (bind_eq _ _ _ _ _ Ewrite).
  - intros k Hk. apply Hframe. intros j Hj Hcell.
    apply Hk. eapply list_elem_of_lookup_2. exact Hcell.
  - apply Forall_forall. intros s Hs.
    apply list_elem_of_lookup_1 in Hs as [j Hj].
    destruct (decide (j < count)%nat) as [Hlt|Hge].
    + eexists. split; [exact (Hdata j s Hlt Hj)|].
      rewrite length_take, length_drop, Hbuf. nia.
    + rewrite Forall_forall in Hsized.
      destruct (Hsized s (list_elem_of_lookup_2 _ _ _ Hj)) as (data & Es & Hdata').
      assert (Hs0 : 0 <= s).
      { rewrite Forall_forall in Hsecs.
        apply (Hsecs s (list_elem_of_lookup_2 _ _ _ Hj)). }
      exists data. split; [|exact Hdata'].
      rewrite Hframe; [exact Es|]. intros j' Hj' Hcell.
      rewrite Z2Nat.id in Hcell by lia. change (Z.to_nat 0 + j')%nat with j' in Hcell.
      pose proof (NoDup_lookup _ _ _ _ Hnd Hj Hcell). lia.
  - intros d'' Hd'' Hsame.
    unfold openfile.ReadAt. cbn [openfile.hdr].
    rewrite Hlen, Eguard, Enb. unfold divRoundDown.
    rewrite Z.quot_0_l, (Z.quot_div_nonneg (0 + n - 1)) by lia. fold last.
    replace (1 + last - 0) with (last + 1) by lia. fold count.
    rewrite (bind_eq _ _ _ _ _ (read_sectors_spec count 0 d'' Hd'' ltac:(lia) Hend)).
    unfold ret. do 2 f_equal.
    assert (Eback :
      (fun j => default [] (d'' !! Z.to_nat
                 (default 0 (data_held h !! (Z.to_nat 0 + j)%nat)))) <$> seq 0 count
      = (fun j => take (Z.to_nat SectorSize) (drop (j * Z.to_nat SectorSize) buf))
          <$> seq 0 count).
    { apply list_fmap_ext. intros i j Hj.
      apply list_elem_of_lookup_2, elem_of_seq in Hj.
      destruct (Hcells j ltac:(lia)) as (s & Hs & _).
      cbv beta. change (Z.to_nat 0 + j)%nat with j. rewrite Hs. cbn [from_option id].
      rewrite Hsame by (eapply list_elem_of_lookup_2; exact Hs).
      now rewrite (Hdata j s ltac:(lia) Hs). }
    rewrite Eback, concat_chunks, (take_ge buf) by lia.
    replace (0 - 0 * SectorSize) with 0 by lia. change (Z.to_nat 0) with O.
    rewrite drop_0.
    subst buf. unfold memcpy. rewrite take_0, app_nil_l.
    now rewrite take_app_length' by (symmetry; exact Hsrc).
Qed.

End ReadWrite.

(** ** The free map and the directory as bytes *)

Lemma memcpy_whole (buf src : list Z) :
  length src = length buf -> memcpy buf 0 src = src.
Proof.
  intros Hlen. unfold memcpy. rewrite take_0, app_nil_l, Nat.add_0_l.
  rewrite drop_ge by lia. apply app_nil_r.
Qed.

Lemma testbit_pack_byte bits : forall r,
  Z.testbit (pbitmap.pack_byte bits) (Z.of_nat r) = default false (bits !! r).
Proof.
  induction bits as [|b bits IH]; intros r; cbn [pbitmap.pack_byte].
  - now rewrite Z.testbit_0_l.
  - rewrite Z.add_comm. destruct r as [|r].
    + now rewrite Z.testbit_0_r.
    + rewrite Nat2Z.inj_succ, Z.testbit_succ_r by lia. apply IH.
Qed.

Lemma pack_length b : length (pbitmap.pack b) = pbitmap.num_bytes (length b).
Proof. unfold pbitmap.pack. now rewrite length_fmap, length_seq. Qed.

Lemma unpack_pack b : pbitmap.unpack (pbitmap.pack b) (length b) = b.
Proof.
  apply list_eq. intros i. unfold pbitmap.unpack.
  rewrite list_lookup_fmap.
  destruct (decide (i < length b)%nat) as [Hi|Hi].
  - rewrite lookup_seq_lt by assumption. cbn [fmap option_fmap option_map Nat.add].
    destruct (lookup_lt_is_Some_2 b i Hi) as [x Hx]. rewrite Hx. f_equal.
    assert (Hq : (i / 8 < pbitmap.num_bytes (length b))%nat).
    { unfold pbitmap.num_bytes. apply Nat.Div0.div_lt_upper_bound.
      pose proof (Nat.Div0.mul_div_le (length b + 7) 8).
      pose proof (Nat.Div0.mod_le (length b + 7) 8).
      pose proof (Nat.div_mod_eq (length b + 7) 8).
      pose proof (Nat.mod_upper_bound (length b + 7) 8). lia. }
    unfold byte_at, pbitmap.pack. rewrite list_lookup_fmap, lookup_seq_lt by assumption.
    cbn [fmap option_fmap option_map Nat.add from_option id].
    rewrite testbit_pack_byte.
    rewrite lookup_take_lt by (apply Nat.mod_upper_bound; lia).
    rewrite lookup_drop.
    replace (8 * (i / 8) + i mod 8)%nat with i by (apply Nat.div_mod_eq).
    now rewrite Hx.
  - rewrite lookup_seq_ge by lia. cbn. symmetry. apply lookup_ge_None. lia.
Qed.

Lemma byte_at_zero (l : list Z) i : Forall (fun x => x = 0) l -> byte_at l i = 0.
Proof.
  intros Hall. unfold byte_at. destruct (l !! i) as [x|] eqn:E; [|reflexivity].
  rewrite Forall_forall in Hall. apply (Hall x). eapply list_elem_of_lookup_2. exact E.
Qed.

Lemma concat_zeros n m : concat (replicate n (replicate m 0)) = replicate (n * m) 0.
Proof.
  induction n as [|n IH]; [reflexivity|]. cbn. rewrite IH. now rewrite replicate_add.
Qed.

Section Empty.
Context `{G : Geometry}.

Lemma truncate_empty : directory.truncate EmptyString = EmptyString.
Proof. unfold directory.truncate. now destruct (Z.to_nat FileNameMaxLen). Qed.

Lemma encode_table_new n :
  directory.encode_table (directory.new n)
  = replicate (Z.to_nat n * directory.entry_size) 0.
Proof.
  unfold directory.encode_table, directory.new. rewrite fmap_replicate.
  rewrite <- concat_zeros. do 2 f_equal.
  unfold directory.encode_entry, directory.encode_name, directory.entry_size.
  cbn [directory.inUse directory.isDir directory.sector directory.name].
  rewrite truncate_empty. cbn [directory.string_bytes list_ascii_of_string fmap
    list_fmap length app]. rewrite Nat.sub_0_r.
  change (encode_int 0) with [0; 0; 0; 0].
  change (Z.b2z false) with 0. cbn [app].
  replace (6 + Z.to_nat FileNameMaxLen + 1)%nat
    with (6 + (Z.to_nat FileNameMaxLen + 1))%nat by lia.
  reflexivity.
Qed.

Lemma FindIndex_unused table name : forall i,
  Forall (fun e => directory.inUse e = false) table ->
  directory.FindIndex table name i = -1.
Proof.
  induction table as [|e table IH]; intros i Hall; [reflexivity|].
  apply Forall_cons in Hall as [He Hall]. cbn [directory.FindIndex].
  rewrite He. cbn [andb]. now apply IH.
Qed.

Lemma decode_table_zeros buf n name :
  Forall (fun x => x = 0) buf ->
  directory.Find (directory.decode_table buf n) name = -1.
Proof.
  intros Hz. unfold directory.Find. rewrite FindIndex_unused; [reflexivity|].
  unfold directory.decode_table. apply Forall_fmap, Forall_forall. intros i _.
  cbn. now rewrite byte_at_zero.
Qed.

End Empty.

(** ** Formatting *)

Lemma data_held_elem h x : x ∈ data_held h -> 0 <= x /\ x ∈ all_data h.
Proof.
  induction h as [nb ns ds s|nb ns ds next s IH] using filehdr.chain_ind; cbn.
  - rewrite !app_nil_r. apply named_elem.
  - rewrite !elem_of_app, named_elem. intros [[? ?]|Hx]; [auto|].
    apply IH in Hx as [? ?]. auto.
Qed.

Section Format.
Context `{G : Geometry}.

Lemma segments_le_sectors size :
  ints_fit -> 0 <= size -> segments_for size - 1 <= sectors_for size.
Proof.
  intros Hg Hsize. assert (HS : 0 < SectorSize) by (unfold ints_fit in Hg; lia).
  unfold sectors_for.
  assert (0 <= (size + SectorSize - 1) / SectorSize) by (apply Z.div_pos; lia). lia.
Qed.

(* What is known of a chain Allocate has built, its sectors and the map. *)
Lemma Allocate_rec_facts fuel fm size d r h fm' d' :
  ints_fit -> Z.of_nat (length fm) <= NumSectors ->
  int_range size -> int_range (size - filehdr.MaxFileSize) ->
  filehdr.Allocate_rec fuel filehdr.new fm size d = Ret ((r, h, fm'), d') ->
  chain_ok h /\ length fm' = length fm /\
  (forall k, fm !! k = Some true -> fm' !! k = Some true) /\
  NoDup (successor_sectors h) /\
  Forall (fun s => 0 <= s < NumSectors /\ fm !! Z.to_nat s = Some false /\
                   fm' !! Z.to_nat s = Some true /\ s ∉ data_held h)
    (successor_sectors h) /\
  Forall (fun s => 0 <= s < NumSectors /\ fm !! Z.to_nat s = Some false /\
                   fm' !! Z.to_nat s = Some true)
    (data_held h).
Proof.
  intros Hg Hfm Hsize Hsub E.
  pose proof (Allocate_rec_chain _ _ _ _ _ _ _ _ Hg Hfm Hsize Hsub E)
    as (Hok & Hmono & Hlen & _ & Hnd & Hrange).
  pose proof (Allocate_rec_taken _ _ _ _ _ _ _ _ E) as (_ & _ & Hdata & Hsucc & Hsep).
  split_and!; try assumption.
  - rewrite Forall_forall in *. intros s Hs.
    destruct (Hrange s Hs) as [Hr Hf]. destruct (Hsucc s Hs) as (_ & _ & Ht).
    split_and!; try lia; auto. intros Hin. apply data_held_elem in Hin as [_ Hin].
    now apply (Hsep s Hs).
  - rewrite Forall_forall in *. intros s Hs.
    apply data_held_elem in Hs as [Hs0 Hs].
    destruct (Hdata s Hs) as [->|(_ & Hf & Ht)]; [lia|].
    apply lookup_lt_Some in Ht as Hlt. split_and!; auto; lia.
Qed.

Lemma Mark_ok fm s :
  0 <= s < Z.of_nat (length fm) -> bitmap.Mark fm s = Ret (<[Z.to_nat s := true]> fm).
Proof.
  intros Hs. unfold bitmap.Mark, bitmap.valid.
  destruct (0 <=? s) eqn:E0; [|lia].
  destruct (s <? Z.of_nat (length fm)) eqn:E1; [reflexivity | lia].
Qed.

Lemma OpenFile_ok sector d h :
  filehdr.FetchFrom filehdr.new sector d = Ret (h, d) ->
  openfile.new sector d = Ret (openfile.mkOpenFile h 0, d).
Proof. intros E. unfold openfile.new. now rewrite (bind_eq _ _ _ _ _ E). Qed.

(* FileSystem::FileSystem(TRUE), step by step: the headers [h1] and [h2]
   of the two system files and the free map [fm2] that is stored. *)
Lemma format_steps d :
  ints_fit -> header_fits -> disk_ok d ->
  0 < NumDirEntries -> filesys.DirectoryFileSize < 2 ^ 31 ->
  2 + sectors_for filesys.FreeMapFileSize + sectors_for filesys.DirectoryFileSize
    <= NumSectors ->
  exists h1 h2 fm2 d',
    filesys.FileSystem_new true d
      = Ret (filesys.mkFileSystem (openfile.mkOpenFile h1 0) (openfile.mkOpenFile h2 0)
               (replicate (Z.to_nat MAXFILENUM) None) 0, d') /\
    disk_ok d' /\
    filehdr.FetchFrom filehdr.new 0 d' = Ret (h1, d') /\
    filehdr.FetchFrom filehdr.new 1 d' = Ret (h2, d') /\
    laid_out h1 filesys.FreeMapFileSize /\ laid_out h2 filesys.DirectoryFileSize /\
    length fm2 = Z.to_nat NumSectors /\
    fm2 !! O = Some true /\ fm2 !! 1%nat = Some true /\
    bitmap.NumClear fm2
      = NumSectors - 2 - sectors_for filesys.FreeMapFileSize
        - sectors_for filesys.DirectoryFileSize /\
    openfile.ReadAt (openfile.mkOpenFile h1 0) filesys.FreeMapFileSize 0 d'
      = Ret (pbitmap.pack fm2, d') /\
    openfile.ReadAt (openfile.mkOpenFile h2 0) filesys.DirectoryFileSize 0 d'
      = Ret (directory.encode_table (directory.new NumDirEntries), d') /\
    NoDup (data_held h1 ++ data_held h2) /\
    Forall (fun s => 0 <= s /\ fm2 !! Z.to_nat s = Some true /\
              exists data, d' !! Z.to_nat s = Some data /\
                           length data = Z.to_nat SectorSize)
      (data_held h1 ++ data_held h2).
Proof.
  intros Hg Hfit Hd HNDE HDFS Hroom.
  pose proof (MaxFileSize_pos Hg) as Hmax.
  assert (HS : 0 < SectorSize) by (unfold ints_fit in Hg; lia).
  assert (HND : 0 <= NumDirect) by (unfold ints_fit in Hg; lia).
  assert (HN : 0 <= NumSectors /\ NumSectors + 1 < 2 ^ 31)
    by (unfold ints_fit in Hg; nia).
  assert (HDFS0 : 0 < filesys.DirectoryFileSize).
  { unfold filesys.DirectoryFileSize, directory.entry_size. nia. }
  assert (Hneed2 : 0 <= sectors_for filesys.DirectoryFileSize)
    by (apply sectors_for_nonneg; [assumption | lia]).
  assert (HFMFS : 0 <= filesys.FreeMapFileSize < 2 ^ 31).
  { unfold filesys.FreeMapFileSize, pbitmap.num_bytes.
    rewrite Nat2Z.inj_div, Nat2Z.inj_add, Z2Nat.id by lia.
    change (Z.of_nat 7) with 7. change (Z.of_nat 8) with 8.
    split; [apply Z.div_pos; lia|].
    apply Z.div_lt_upper_bound; lia. }
  pose proof (sectors_for_nonneg _ Hg (proj1 HFMFS)) as Hneed1.
  assert (HFMFS0 : 0 < filesys.FreeMapFileSize).
  { unfold filesys.FreeMapFileSize, pbitmap.num_bytes.
    rewrite Nat2Z.inj_div, Nat2Z.inj_add, Z2Nat.id by lia.
    change (Z.of_nat 7) with 7. change (Z.of_nat 8) with 8.
    assert (1 <= (NumSectors + 7) / 8) by (apply Z.div_le_lower_bound; lia). lia. }
  (* the map, sectors 0 and 1 marked *)
  set (fmA := <[O := true]> (replicate (Z.to_nat NumSectors) false)).
  set (fmB := <[1%nat := true]> fmA).
  assert (HlenB : length fmB = Z.to_nat NumSectors)
    by (subst fmB fmA; now rewrite !length_insert, length_replicate).
  assert (HB0 : fmB !! O = Some true).
  { subst fmB fmA. rewrite list_lookup_insert_ne by lia.
    apply list_lookup_insert_eq. rewrite length_replicate. lia. }
  assert (HB1 : fmB !! 1%nat = Some true).
  { subst fmB fmA. apply list_lookup_insert_eq.
    rewrite length_insert, length_replicate. lia. }
  assert (HcB : Z.of_nat (bitmap.count_clear fmB) = NumSectors - 2).
  { pose proof (count_clear_fresh (Z.to_nat NumSectors)) as Hc0.
    rewrite (count_clear_Mark _ O) in Hc0
      by (apply lookup_replicate_2; lia).
    fold fmA in Hc0. rewrite (count_clear_Mark _ 1%nat) in Hc0.
    - fold fmB in Hc0. lia.
    - subst fmA. rewrite list_lookup_insert_ne by lia.
      apply lookup_replicate_2. lia. }
  (* the two headers *)
  destruct (Allocate_rec_enough_room (S (bitmap.count_clear fmB)) fmB
              filesys.FreeMapFileSize d)
    as (h1 & fm1 & d1 & E1 & Hlaid1 & Hd1); try assumption; try lia.
  { unfold bitmap.NumClear. lia. }
  { pose proof (segments_le_sectors _ Hg (proj1 HFMFS)). lia. }
  assert (HfmB : Z.of_nat (length fmB) <= NumSectors) by lia.
  assert (Hint1 : int_range filesys.FreeMapFileSize) by (unfold int_range; lia).
  assert (Hsub1 : int_range (filesys.FreeMapFileSize - filehdr.MaxFileSize))
    by (unfold int_range; lia).
  pose proof (Allocate_rec_facts _ _ _ _ _ _ _ _ Hg HfmB Hint1 Hsub1 E1)
    as (Hok1 & Hlen1 & Hmono1 & Hnd1 & Hsucc1 & Hdata1).
  pose proof (laid_out_lengths _ _ Hg (proj1 HFMFS) Hlaid1) as (Hheld1 & _ & _).
  pose proof (Allocate_rec_held _ _ _ _ _ _ _ _ E1) as (Hndh1 & _ & _ & Hz1 & Hc1).
  apply sectors_held_NoDup_data in Hndh1.
  destruct (Allocate_rec_enough_room (S (bitmap.count_clear fm1)) fm1
              filesys.DirectoryFileSize d1)
    as (h2 & fm2 & d2 & E2 & Hlaid2 & Hd2); try assumption; try lia.
  { unfold bitmap.NumClear. lia. }
  { assert (0 <= filesys.DirectoryFileSize) by lia.
    pose proof (segments_le_sectors _ Hg H). lia. }
  assert (Hfm1 : Z.of_nat (length fm1) <= NumSectors) by lia.
  assert (Hint2 : int_range filesys.DirectoryFileSize) by (unfold int_range; lia).
  assert (Hsub2 : int_range (filesys.DirectoryFileSize - filehdr.MaxFileSize))
    by (unfold int_range; lia).
  pose proof (Allocate_rec_facts _ _ _ _ _ _ _ _ Hg Hfm1 Hint2 Hsub2 E2)
    as (Hok2 & Hlen2 & Hmono2 & Hnd2 & Hsucc2 & Hdata2).
  assert (HDFS0' : 0 <= filesys.DirectoryFileSize) by lia.
  pose proof (laid_out_lengths _ _ Hg HDFS0' Hlaid2) as (Hheld2 & _ & _).
  pose proof (Allocate_rec_held _ _ _ _ _ _ _ _ E2) as (Hndh2 & _ & Hdf2 & Hz2 & Hc2).
  apply sectors_held_NoDup_data in Hndh2.
  rewrite Forall_forall in Hsucc1, Hdata1, Hsucc2, Hdata2, Hz1, Hz2.
  (* the headers are written at sectors 0 and 1 *)
  destruct (WriteBack_FetchFrom_rec h1 0 d2 (S (Z.to_nat NumSectors)))
    as (d3 & Ew1 & Hd3 & Ef1 & Hframe3); try assumption.
  { split.
    - apply NoDup_cons. split; [|assumption].
      intros Hin. destruct (Hsucc1 _ Hin) as (_ & Hf & _).
      change (Z.to_nat 0) with O in Hf. congruence.
    - constructor; [lia|]. apply Forall_forall. intros s Hs.
      now destruct (Hsucc1 s Hs). }
  { assert (length (successor_sectors h1) <= Z.to_nat NumSectors)%nat; [|lia].
    apply NoDup_bounded_length; [assumption|].
    apply Forall_forall. intros s Hs. now destruct (Hsucc1 s Hs). }
  destruct (WriteBack_FetchFrom_rec h2 1 d3 (S (Z.to_nat NumSectors)))
    as (d4 & Ew2 & Hd4 & Ef2 & Hframe4); try assumption.
  { split.
    - apply NoDup_cons. split; [|assumption].
      intros Hin. destruct (Hsucc2 _ Hin) as (_ & Hf & _).
      apply Hmono1 in HB1. change (Z.to_nat 1) with 1%nat in Hf. congruence.
    - constructor; [lia|]. apply Forall_forall. intros s Hs.
      now destruct (Hsucc2 s Hs). }
  { assert (length (successor_sectors h2) <= Z.to_nat NumSectors)%nat; [|lia].
    apply NoDup_bounded_length; [assumption|].
    apply Forall_forall. intros s Hs. now destruct (Hsucc2 s Hs). }
  (* where the header sectors are *)
  assert (Hhdr1 : forall s, s ∈ 0 :: successor_sectors h1 ->
            0 <= s /\ (s ∉ data_held h1) /\ (s ∉ data_held h2) /\
            (s ∉ 1 :: successor_sectors h2)).
  { intros s Hs.
    assert (Hs' : 0 <= s /\ fm1 !! Z.to_nat s = Some true /\ (s ∉ data_held h1) /\
                  s <> 1).
    { apply elem_of_cons in Hs as [->|Hs].
      - split_and!; [lia | now apply Hmono1 | | lia].
        intros Hin. destruct (Hdata1 _ Hin) as (_ & Hf & _).
        change (Z.to_nat 0) with O in Hf. congruence.
      - destruct (Hsucc1 s Hs) as (Hr & Hf & Ht & Hsep). split_and!; auto; [lia|].
        intros ->. change (Z.to_nat 1) with 1%nat in Hf. congruence. }
    destruct Hs' as (Hs0 & Ht & Hsep & Hne). split_and!; auto.
    - intros Hin. destruct (Hdata2 _ Hin) as (_ & Hf & _). congruence.
    - intros Hin. apply elem_of_cons in Hin as [->|Hin]; [lia|].
      destruct (Hsucc2 s Hin) as (_ & Hf & _). congruence. }
  assert (Hhdr2 : forall s, s ∈ 1 :: successor_sectors h2 ->
            0 <= s /\ (s ∉ data_held h1) /\ (s ∉ data_held h2)).
  { intros s Hs. apply elem_of_cons in Hs as [->|Hs].
    - split_and!; [lia | |].
      + intros Hin. destruct (Hdata1 _ Hin) as (_ & Hf & _).
        change (Z.to_nat 1) with 1%nat in Hf. congruence.
      + intros Hin. destruct (Hdata2 _ Hin) as (_ & Hf & _).
        apply Hmono1 in HB1. change (Z.to_nat 1) with 1%nat in Hf. congruence.
    - destruct (Hsucc2 s Hs) as (Hr & Hf & Ht & Hsep). split_and!; auto; [lia|].
      intros Hin. destruct (Hdata1 _ Hin) as (_ & _ & Ht1). congruence. }
  assert (Hdd : forall s, s ∈ data_held h1 -> s ∉ data_held h2).
  { intros s H1 H2. destruct (Hdata1 s H1) as (_ & _ & Ht).
    destruct (Hdata2 s H2) as (_ & Hf & _). congruence. }
  assert (Ef1' : filehdr.FetchFrom_rec (S (Z.to_nat NumSectors)) filehdr.new 0 d4
                 = Ret (h1, d4)).
  { eapply FetchFrom_rec_local; [reflexivity | exact Ef1|].
    intros s Hs. destruct (Hhdr1 s Hs) as (Hs0 & _ & _ & Hout).
    now apply Hframe4. }
  (* the data sectors still hold the zeros Allocate put there *)
  assert (Hheaders : forall s, 0 <= s -> (s ∉ 0 :: successor_sectors h1) ->
            (s ∉ 1 :: successor_sectors h2) -> d4 !! Z.to_nat s = d2 !! Z.to_nat s).
  { intros s Hs H1 H2. now rewrite Hframe4, Hframe3. }
  assert (Hclean1 : forall s, s ∈ data_held h1 ->
            d4 !! Z.to_nat s = Some filehdr.clean).
  { intros s Hs. destruct (Hdata1 s Hs) as (Hr & _).
    rewrite Hheaders; [| lia | |].
    - rewrite Hdf2; [now apply Hz1|]. rewrite Z2Nat.id by lia. now apply Hdd.
    - intros Hin. destruct (Hhdr1 s Hin) as (_ & Hout & _). contradiction.
    - intros Hin. destruct (Hhdr2 s Hin) as (_ & Hout & _). contradiction. }
  assert (Hclean2 : forall s, s ∈ data_held h2 ->
            d4 !! Z.to_nat s = Some filehdr.clean).
  { intros s Hs. destruct (Hdata2 s Hs) as (Hr & _).
    rewrite Hheaders; [now apply Hz2 | lia | |].
    - intros Hin. destruct (Hhdr1 s Hin) as (_ & _ & Hout & _). contradiction.
    - intros Hin. destruct (Hhdr2 s Hin) as (_ & _ & Hout). contradiction. }
  assert (Hsized : length filehdr.clean = Z.to_nat SectorSize)
    by apply length_replicate.
  (* the two files are opened and written *)
  pose proof (OpenFile_ok 0 d4 h1 Ef1') as Eo1.
  pose proof (OpenFile_ok 1 d4 h2 Ef2) as Eo2.
  assert (Hpack : length (pbitmap.pack fm2) = Z.to_nat filesys.FreeMapFileSize).
  { rewrite pack_length, Hlen2, Hlen1, HlenB. unfold filesys.FreeMapFileSize.
    now rewrite Nat2Z.id. }
  destruct (WriteAt_ReadAt h1 filesys.FreeMapFileSize Hg (proj2 HFMFS) Hlaid1
              ltac:(apply Forall_forall; intros s Hs; now destruct (Hdata1 s Hs))
              Hndh1 (pbitmap.pack fm2) filesys.FreeMapFileSize d4)
    as (d5 & Ew5 & Hd5 & Hframe5 & Hsized5 & Hread5); try assumption; try lia.
  { apply Forall_forall. intros s Hs. exists filehdr.clean. split; [|assumption].
    now apply Hclean1. }
  assert (Hzeros : length (directory.encode_table (directory.new NumDirEntries))
                   = Z.to_nat filesys.DirectoryFileSize).
  { rewrite encode_table_new, length_replicate. unfold filesys.DirectoryFileSize. lia. }
  destruct (WriteAt_ReadAt h2 filesys.DirectoryFileSize Hg HDFS Hlaid2
              ltac:(apply Forall_forall; intros s Hs; now destruct (Hdata2 s Hs))
              Hndh2 (directory.encode_table (directory.new NumDirEntries))
              filesys.DirectoryFileSize d5)
    as (d6 & Ew6 & Hd6 & Hframe6 & Hsized6 & Hread6); try assumption; try lia.
  { apply Forall_forall. intros s Hs. exists filehdr.clean. split; [|assumption].
    destruct (Hdata2 s Hs) as (Hr & _).
    rewrite <- (Hclean2 s Hs). rewrite <- (Z2Nat.id s) in Hs by lia.
    apply Hframe5. intros Hin. now apply (Hdd _ Hin). }
  (* the result, and the same disk mounted *)
  assert (Esame : forall s, 0 <= s -> s ∉ data_held h1 -> s ∉ data_held h2 ->
            d6 !! Z.to_nat s = d4 !! Z.to_nat s).
  { intros s Hs H1 H2. rewrite Hframe6, Hframe5; [reflexivity| |];
      now rewrite Z2Nat.id by lia. }
  assert (Em1 : filehdr.FetchFrom filehdr.new 0 d6 = Ret (h1, d6)).
  { unfold filehdr.FetchFrom.
    eapply FetchFrom_rec_local; [reflexivity | exact Ef1'|].
    intros s Hs. destruct (Hhdr1 s Hs) as (Hs0 & Hsep1 & Hsep2 & _).
    now apply Esame. }
  assert (Em2 : filehdr.FetchFrom filehdr.new 1 d6 = Ret (h2, d6)).
  { unfold filehdr.FetchFrom.
    eapply FetchFrom_rec_local; [reflexivity | exact Ef2|].
    intros s Hs. destruct (Hhdr2 s Hs) as (Hs0 & Hsep1 & Hsep2).
    now apply Esame. }
  exists h1, h2, fm2, d6. split_and!; try assumption.
  - unfold filesys.FileSystem_new.
    unfold bind at 1. unfold lift at 1.
    rewrite Mark_ok by (unfold bitmap.new; rewrite length_replicate;
                        unfold filesys.FreeMapSector; lia).
    unfold bind at 1. unfold lift at 1.
    rewrite Mark_ok by (unfold bitmap.new; rewrite length_insert, length_replicate;
                        unfold filesys.DirectorySector; lia).
    change (<[Z.to_nat filesys.DirectorySector:=true]>
              (<[Z.to_nat filesys.FreeMapSector:=true]> (bitmap.new NumSectors)))
      with fmB.
    unfold filehdr.Allocate. rewrite (bind_eq _ _ _ _ _ E1).
    assert (Hr : forall size, negb (SectorSize * segments_for size =? 0) = true).
    { intros size. pose proof (segments_for_pos size).
      destruct (SectorSize * segments_for size =? 0) eqn:E; [nia | reflexivity]. }
    rewrite Hr. unfold bind at 1. cbn [ASSERT ret].
    rewrite (bind_eq _ _ _ _ _ E2).
    rewrite Hr. unfold bind at 1. cbn [ASSERT ret].
    rewrite (bind_eq _ _ _ _ _ Ew1). rewrite (bind_eq _ _ _ _ _ Ew2).
    unfold filesys.FreeMapSector, filesys.DirectorySector.
    rewrite (bind_eq _ _ _ _ _ Eo1). rewrite (bind_eq _ _ _ _ _ Eo2).
    unfold pbitmap.WriteBack. unfold bind at 1.
    replace (Z.of_nat (pbitmap.num_bytes (length fm2))) with filesys.FreeMapFileSize
      by (rewrite <- pack_length, Hpack; lia).
    rewrite (bind_eq _ _ _ _ _ Ew5). cbn [ret].
    unfold directory.WriteBack. unfold bind at 1.
    replace (Z.of_nat (length (directory.new NumDirEntries) * directory.entry_size))
      with filesys.DirectoryFileSize
      by (unfold filesys.DirectoryFileSize, directory.new;
          rewrite length_replicate; lia).
    rewrite (bind_eq _ _ _ _ _ Ew6). reflexivity.
  - rewrite Hlen2, Hlen1. exact HlenB.
  - now apply Hmono2, Hmono1.
  - now apply Hmono2, Hmono1.
  - unfold bitmap.NumClear. lia.
  - rewrite (Hread5 d6 Hd6).
    + now rewrite take_ge by lia.
    + intros s Hs. destruct (Hdata1 s Hs) as (Hr & _).
      rewrite <- (Z2Nat.id s) in Hs by lia. apply Hframe6.
      intros Hin. now apply (Hdd _ Hs).
  - rewrite (Hread6 d6 Hd6) by reflexivity. now rewrite take_ge by lia.
  - apply NoDup_app. split_and!; assumption.
  - rewrite Forall_forall in Hsized5. apply Forall_app. split.
    + apply Forall_forall. intros s Hs. destruct (Hdata1 s Hs) as (Hr & _ & Ht).
      split_and!; [lia | now apply Hmono2 |].
      destruct (Hsized5 s Hs) as (data & Es & Hlen). exists data. split; [|exact Hlen].
      rewrite <- Es. apply Hframe6. rewrite Z2Nat.id by lia. now apply Hdd.
    + apply Forall_forall. intros s Hs. destruct (Hdata2 s Hs) as (Hr & _ & Ht).
      split_and!; [lia | assumption |].
      rewrite Forall_forall in Hsized6. now apply Hsized6.
Qed.

(** X28. On a disk with room for the two system files the constructor
    formats without a failed assertion, and the disk it leaves can be
    mounted: the constructor called on it with format = FALSE returns the
    same file system, whose free-map file and directory file have the
    lengths FreeMapFileSize and DirectoryFileSize. *)
Theorem format_then_mount d :
  ints_fit -> header_fits -> disk_ok d ->
  0 < NumDirEntries -> filesys.DirectoryFileSize < 2 ^ 31 ->
  2 + sectors_for filesys.FreeMapFileSize + sectors_for filesys.DirectoryFileSize
    <= NumSectors ->
  exists fs d',
    filesys.FileSystem_new true d = Ret (fs, d') /\
    filesys.FileSystem_new false d' = Ret (fs, d') /\
    filehdr.FileLength (openfile.hdr (filesys.freeMapFile fs))
      = filesys.FreeMapFileSize /\
    filehdr.FileLength (openfile.hdr (filesys.directoryFile fs))
      = filesys.DirectoryFileSize.
Proof.
  intros Hg Hfit Hd HNDE HDFS Hroom.
  destruct (format_steps d Hg Hfit Hd HNDE HDFS Hroom)
    as (h1 & h2 & fm2 & d' & E & _ & Em1 & Em2 & Hlaid1 & Hlaid2 & _).
  assert (HN : 0 <= NumSectors /\ NumSectors + 1 < 2 ^ 31)
    by (unfold ints_fit in Hg; nia).
  eexists _, d'. split; [exact E|]. split_and!.
  - unfold filesys.FileSystem_new, filesys.FreeMapSector, filesys.DirectorySector.
    rewrite (bind_eq _ _ _ _ _ (OpenFile_ok 0 d' h1 Em1)).
    rewrite (bind_eq _ _ _ _ _ (OpenFile_ok 1 d' h2 Em2)). reflexivity.
  - cbn. apply laid_out_FileLength; [assumption | | assumption].
    unfold filesys.FreeMapFileSize, pbitmap.num_bytes.
    rewrite Nat2Z.inj_div, Nat2Z.inj_add, Z2Nat.id by lia.
    change (Z.of_nat 7) with 7. change (Z.of_nat 8) with 8.
    split; [apply Z.div_pos; lia|]. apply Z.div_lt_upper_bound; lia.
  - cbn. apply laid_out_FileLength; [assumption | | assumption].
    unfold filesys.DirectoryFileSize in *. nia.
Qed.

(** X29. After formatting, the free map stored on the disk has sectors 0
    and 1 in use and NumSectors - 2 clear bits less the sectors of the two
    system files, and the root directory stored on the disk holds no
    name: Find answers -1 for every name. *)
Theorem format_leaves_consistent_disk d :
  ints_fit -> header_fits -> disk_ok d ->
  0 < NumDirEntries -> filesys.DirectoryFileSize < 2 ^ 31 ->
  2 + sectors_for filesys.FreeMapFileSize + sectors_for filesys.DirectoryFileSize
    <= NumSectors ->
  exists fs d' freeMap root,
    filesys.FileSystem_new true d = Ret (fs, d') /\
    pbitmap.load (filesys.freeMapFile fs) NumSectors d' = Ret (freeMap, d') /\
    bitmap.NumClear freeMap
      = NumSectors - 2 - sectors_for filesys.FreeMapFileSize
        - sectors_for filesys.DirectoryFileSize /\
    freeMap !! O = Some true /\ freeMap !! 1%nat = Some true /\
    directory.FetchFrom (directory.new NumDirEntries) (filesys.directoryFile fs) d'
      = Ret (root, d') /\
    forall name, directory.Find root name = -1.
Proof.
  intros Hg Hfit Hd HNDE HDFS Hroom.
  destruct (format_steps d Hg Hfit Hd HNDE HDFS Hroom)
    as (h1 & h2 & fm2 & d' & E & _ & _ & _ & _ & _ & Hlen & H0 & H1 & Hc & Er1 & Er2 & _).
  eexists _, d', fm2, _. split; [exact E|]. cbn [filesys.freeMapFile filesys.directoryFile].
  split_and!; try assumption.
  - unfold pbitmap.load, pbitmap.FetchFrom, bitmap.new.
    rewrite length_replicate.
    change (Z.of_nat (pbitmap.num_bytes (Z.to_nat NumSectors)))
      with filesys.FreeMapFileSize.
    rewrite (bind_eq _ _ _ _ _ Er1). unfold ret. do 2 f_equal.
    rewrite memcpy_whole by (now rewrite !pack_length, length_replicate, Hlen).
    rewrite <- Hlen. apply unpack_pack.
  - unfold directory.FetchFrom.
    replace (Z.of_nat (length (directory.new NumDirEntries) * directory.entry_size))
      with filesys.DirectoryFileSize
      by (unfold filesys.DirectoryFileSize, directory.new;
          rewrite length_replicate; lia).
    rewrite (bind_eq _ _ _ _ _ Er2). reflexivity.
  - intros name. apply decode_table_zeros.
    rewrite memcpy_whole by reflexivity.
    rewrite encode_table_new. now apply Forall_replicate.
Qed.

End Format.

(** ** The concrete build, continued *)

Section ConcreteRuns.
#[local] Existing Instance nachos.

Lemma allocated_5000_is_Allocate :
  filehdr.Allocate filehdr.new map_01 5000 (blank_disk 64)
    = Ret ((256, hdr_5000, map_5000), disk_5000).
Proof. vm_compute. reflexivity. Qed.

Lemma map_01_fits : Z.of_nat (length map_01) <= NumSectors.
Proof. vm_compute. discriminate. Qed.

Lemma root_a_is_FetchFrom :
  directory.FetchFrom (directory.new NumDirEntries) (filesys.directoryFile fs0) disk_a
    = Ret (root_a, disk_a).
Proof. vm_compute. reflexivity. Qed.

(* One clear bit and a request of 200 bytes, which needs two sectors. *)
Lemma Allocate_refuses_at_entry_only_witness :
  filehdr.Allocate filehdr.new (map_with_clear 1) 200 (blank_disk 64)
    = Ret ((0, filehdr.mkFileHeader 200 2 (replicate 29 (-1)) None (-1),
            map_with_clear 1), blank_disk 64) /\
  (0 = 0 <-> bitmap.NumClear (map_with_clear 1)
             < divRoundUp (Z.min 200 filehdr.MaxFileSize) SectorSize) /\
  (0 = 0 -> map_with_clear 1 = map_with_clear 1 /\ blank_disk 64 = blank_disk 64).
Proof.
  split; [vm_compute; reflexivity|].
  apply (Allocate_refuses_at_entry_only filehdr.new (map_with_clear 1) 200
           (blank_disk 64) 0 (filehdr.mkFileHeader 200 2 (replicate 29 (-1)) None (-1))
           (map_with_clear 1) (blank_disk 64)).
  - exact nachos_ints_fit.
  - vm_compute. discriminate.
  - vm_compute. reflexivity.
Defined.

(* Requests of 0 and of -5 bytes. *)
Lemma Allocate_nonpositive_size_witness :
  filehdr.Allocate filehdr.new map_01 0 (blank_disk 64)
    = Ret ((128, filehdr.mkFileHeader 0 0 (replicate 29 (-1)) None (-1), map_01),
           blank_disk 64) /\
  filehdr.Allocate filehdr.new map_01 (-5) (blank_disk 64)
    = Ret ((128, filehdr.mkFileHeader (-5) 0 (replicate 29 (-1)) None (-1), map_01),
           blank_disk 64).
Proof.
  split.
  - refine (Allocate_nonpositive_size filehdr.new map_01 0 (blank_disk 64)
              nachos_ints_fit _ _ _).
    + unfold int_range. lia.
    + vm_compute. split; [discriminate | reflexivity].
    + lia.
  - refine (Allocate_nonpositive_size filehdr.new map_01 (-5) (blank_disk 64)
              nachos_ints_fit _ _ _).
    + unfold int_range. lia.
    + vm_compute. split; [discriminate | reflexivity].
    + lia.
Defined.

(* 5000 bytes out of a map with 62 clear bits: sectors 2 to 30 for the
   data of the first segment, 31 for the second header, 32 to 42 for its
   data. *)
Lemma Allocate_takes_free_sectors_witness :
  filehdr.Allocate filehdr.new map_01 5000 (blank_disk 64)
    = Ret ((256, hdr_5000, map_5000), disk_5000) /\
  sectors_held hdr_5000 = seqZ 2 41 /\
  NoDup (sectors_held hdr_5000) /\
  Forall (taken map_01 map_5000) (sectors_held hdr_5000) /\
  (forall k, Z.of_nat k ∉ sectors_held hdr_5000 -> map_5000 !! k = map_01 !! k) /\
  bitmap.NumClear map_5000
    = bitmap.NumClear map_01 - Z.of_nat (length (sectors_held hdr_5000)).
Proof.
  split; [exact allocated_5000_is_Allocate|].
  split; [vm_compute; reflexivity|].
  exact (Allocate_takes_free_sectors map_01 5000 (blank_disk 64) 256 hdr_5000
           map_5000 disk_5000 allocated_5000_is_Allocate).
Defined.

Lemma Allocate_zeroes_data_sectors_witness :
  filehdr.Allocate filehdr.new map_01 5000 (blank_disk 64)
    = Ret ((256, hdr_5000, map_5000), disk_5000) /\
  data_held hdr_5000 = seqZ 2 29 ++ seqZ 32 11 /\
  Forall (fun s => disk_5000 !! Z.to_nat s = Some (replicate (Z.to_nat SectorSize) 0))
    (data_held hdr_5000) /\
  (forall k, Z.of_nat k ∉ data_held hdr_5000 -> disk_5000 !! k = blank_disk 64 !! k).
Proof.
  split; [exact allocated_5000_is_Allocate|].
  split; [vm_compute; reflexivity|].
  exact (Allocate_zeroes_data_sectors map_01 5000 (blank_disk 64) 256 hdr_5000
           map_5000 disk_5000 allocated_5000_is_Allocate).
Defined.

Lemma Allocate_with_enough_room_witness :
  segments_for 5000 = 2 /\ sectors_for 5000 = 41 /\
  exists h fm' d',
    filehdr.Allocate filehdr.new map_01 5000 (blank_disk 64)
      = Ret ((SectorSize * segments_for 5000, h, fm'), d') /\
    filehdr.FileLength h = 5000 /\
    Z.of_nat (length (successor_sectors h)) = segments_for 5000 - 1 /\
    Z.of_nat (length (data_held h)) = (5000 + SectorSize - 1) / SectorSize /\
    bitmap.NumClear fm' = bitmap.NumClear map_01 - sectors_for 5000.
Proof.
  split; [vm_compute; reflexivity|].
  split; [vm_compute; reflexivity|].
  apply (Allocate_with_enough_room map_01 5000 (blank_disk 64)).
  - exact nachos_ints_fit.
  - exact blank_disk_ok.
  - exact map_01_fits.
  - lia.
  - vm_compute. discriminate.
Defined.

(* Byte 4000 of the file lies in block 31, the third of the second
   segment. *)
Lemma ByteToSector_of_allocated_file_witness :
  filehdr.ByteToSector hdr_5000 4000 = Ret 34 /\
  exists s,
    filehdr.ByteToSector hdr_5000 4000 = Ret s /\
    data_held hdr_5000 !! Z.to_nat (4000 / SectorSize) = Some s /\
    taken map_01 map_5000 s /\
    disk_5000 !! Z.to_nat s = Some (replicate (Z.to_nat SectorSize) 0).
Proof.
  split; [vm_compute; reflexivity|].
  apply (ByteToSector_of_allocated_file map_01 5000 (blank_disk 64) 256 hdr_5000
           map_5000 disk_5000 4000).
  - exact nachos_ints_fit.
  - exact blank_disk_ok.
  - exact map_01_fits.
  - lia.
  - lia.
  - vm_compute. discriminate.
  - exact allocated_5000_is_Allocate.
Defined.

Lemma ByteToSector_separates_blocks_witness :
  filehdr.ByteToSector hdr_5000 127 = Ret 2 /\
  filehdr.ByteToSector hdr_5000 128 = Ret 3 /\
  filehdr.ByteToSector hdr_5000 127 <> filehdr.ByteToSector hdr_5000 128.
Proof.
  split; [vm_compute; reflexivity|].
  split; [vm_compute; reflexivity|].
  apply (ByteToSector_separates_blocks map_01 5000 (blank_disk 64) 256 hdr_5000
           map_5000 disk_5000 127 128).
  - exact nachos_ints_fit.
  - exact blank_disk_ok.
  - exact map_01_fits.
  - lia.
  - lia.
  - lia.
  - vm_compute. discriminate.
  - exact allocated_5000_is_Allocate.
  - vm_compute. discriminate.
Defined.

(* The chain has two segments, room for 7424 bytes. *)
Lemma ByteToSector_beyond_chain_witness :
  successor_sectors hdr_5000 = [31] /\
  filehdr.ByteToSector hdr_5000 7424 = Stop NullDereference.
Proof.
  split; [vm_compute; reflexivity|].
  apply (ByteToSector_beyond_chain hdr_5000 7424).
  - exact nachos_ints_fit.
  - lia.
  - vm_compute. discriminate.
Defined.

Lemma Deallocate_after_Allocate_witness :
  bitmap.NumClear map_01 = 62 /\ bitmap.NumClear map_5000 = 21 /\
  exists fm2,
    filehdr.Deallocate hdr_5000 map_5000 disk_5000 = Ret (fm2, disk_5000) /\
    Forall (fun s => fm2 !! Z.to_nat s = Some false) (data_held hdr_5000) /\
    (forall k, Z.of_nat k ∉ data_held hdr_5000 -> fm2 !! k = map_5000 !! k) /\
    bitmap.NumClear fm2 = bitmap.NumClear map_01 - (segments_for 5000 - 1).
Proof.
  split; [vm_compute; reflexivity|].
  split; [vm_compute; reflexivity|].
  apply (Deallocate_after_Allocate map_01 5000 (blank_disk 64) 256 hdr_5000
           map_5000 disk_5000).
  - exact nachos_ints_fit.
  - exact blank_disk_ok.
  - exact map_01_fits.
  - lia.
  - vm_compute. discriminate.
  - exact allocated_5000_is_Allocate.
Defined.

Lemma Deallocate_twice_fails_witness :
  filehdr.Deallocate hdr_5000 map_5000 disk_5000 = Ret (map_freed, disk_5000) /\
  filehdr.Deallocate hdr_5000 map_freed disk_5000 = Stop AssertionFailed.
Proof.
  split; [vm_compute; reflexivity|].
  apply (Deallocate_twice_fails hdr_5000 map_5000 disk_5000 map_freed disk_5000).
  - vm_compute. reflexivity.
  - vm_compute. reflexivity.
Defined.

Lemma FetchFrom_loops_on_a_cycle_witness :
  follow looping_disk 1 5 = Some 5 /\
  forall fuel, filehdr.FetchFrom_rec fuel filehdr.new 5 looping_disk = Stop Diverges.
Proof.
  split; [vm_compute; reflexivity|].
  apply (FetchFrom_loops_on_a_cycle filehdr.new 5 looping_disk 0).
  vm_compute. reflexivity.
Defined.

Lemma WriteBack_writes_headers_only_witness :
  filehdr.WriteBack two_segments 1 (blank_disk 64) = Ret (tt, disk_two) /\
  successor_sectors two_segments = [31] /\
  length disk_two = length (blank_disk 64) /\
  forall k, Z.of_nat k ∉ 1 :: successor_sectors two_segments ->
            disk_two !! k = blank_disk 64 !! k.
Proof.
  split; [vm_compute; reflexivity|].
  split; [vm_compute; reflexivity|].
  apply (WriteBack_writes_headers_only two_segments 1 (blank_disk 64) disk_two).
  vm_compute. reflexivity.
Defined.

Lemma FetchFrom_chain_ok_witness :
  filehdr.FetchFrom filehdr.new 1 disk_two = Ret (two_segments, disk_two) /\
  disk_two = disk_two /\ chain_ok two_segments.
Proof.
  split; [vm_compute; reflexivity|].
  apply (FetchFrom_chain_ok 1 disk_two two_segments disk_two).
  vm_compute. reflexivity.
Defined.

Lemma FindSubDir_without_component_witness :
  filesys.FindSubDir fs0 "" disk_a = Ret (None, disk_a) /\
  filesys.FindSubDir fs0 "//" disk_a = Ret (None, disk_a).
Proof.
  split.
  - apply (FindSubDir_without_component fs0 "" disk_a root_a disk_a).
    + exact root_a_is_FetchFrom.
    + constructor.
  - apply (FindSubDir_without_component fs0 "//" disk_a root_a disk_a).
    + exact root_a_is_FetchFrom.
    + repeat constructor.
Defined.


Lemma Create_adds_new_names_only_witness :
  filesys.Create fs0 "/a" 100 false disk0 = Ret (true, disk_a) /\
  exists curDirFile name dir freeMap,
    filesys.FindSubDir fs0 "/a" disk0 = Ret (Some (curDirFile, name), disk0) /\
    directory.FetchFrom (directory.new NumDirEntries) curDirFile disk0
      = Ret (dir, disk0) /\
    directory.Find dir name = -1 /\
    pbitmap.load (filesys.freeMapFile fs0) NumSectors disk0 = Ret (freeMap, disk0) /\
    0 < bitmap.NumClear freeMap.
Proof.
  split; [exact disk_a_is_Create|].
  exact (Create_adds_new_names_only fs0 "/a" 100 false disk0 disk_a disk_a_is_Create).
Defined.

Lemma Open_takes_the_lowest_free_descriptor_witness :
  filesys.Open fs0 "/a" disk_a = Ret ((fs_1, (Some file_a, 1)), disk_a) /\
  disk_a = disk_a /\ 1 <= 1 <= MAXFILENUM /\
  filesys.fileDescriptorTable fs0 !! Z.to_nat 1 = Some None /\
  (forall j, 1 <= j < 1 ->
     exists f, filesys.fileDescriptorTable fs0 !! Z.to_nat j = Some (Some f)) /\
  filesys.fileDescriptorTable fs_1
    = <[Z.to_nat 1 := Some file_a]> (filesys.fileDescriptorTable fs0) /\
  filesys.openedNum fs_1 = to_int (filesys.openedNum fs0 + 1) /\
  filesys.openedNum fs0 <> MAXFILENUM /\
  filesys.freeMapFile fs_1 = filesys.freeMapFile fs0 /\
  filesys.directoryFile fs_1 = filesys.directoryFile fs0.
Proof.
  split; [vm_compute; reflexivity|].
  apply (Open_takes_the_lowest_free_descriptor fs0 "/a" disk_a fs_1 file_a 1 disk_a).
  vm_compute. reflexivity.
Defined.

Lemma Open_failure_changes_nothing_witness :
  filesys.Open fs0 "/nofile" disk_a = Ret ((fs0, (None, -1)), disk_a) /\
  fs0 = fs0 /\ -1 = -1 /\ disk_a = disk_a.
Proof.
  split; [vm_compute; reflexivity|].
  apply (Open_failure_changes_nothing fs0 "/nofile" disk_a fs0 (-1) disk_a).
  vm_compute. reflexivity.
Defined.

Lemma Remove_of_missing_name_witness :
  directory.Find root_a "nofile" = -1 /\
  filesys.Remove 1 fs0 false "/nofile" disk_a = Ret (false, disk_a).
Proof.
  split; [vm_compute; reflexivity|].
  apply (Remove_of_missing_name 0 fs0 false "/nofile" disk_a
           (filesys.directoryFile fs0) "nofile" root_a).
  - apply Nat.ltb_lt. vm_compute. reflexivity.
  - vm_compute. reflexivity.
  - exact root_a_is_FetchFrom.
  - vm_compute. reflexivity.
Defined.

Lemma List_of_missing_name_aborts_witness :
  directory.Find root_a "nofile" = -1 /\
  filesys.List 1 fs0 false "/nofile" disk_a = Stop AssertionFailed.
Proof.
  split; [vm_compute; reflexivity|].
  apply (List_of_missing_name_aborts 1 fs0 false "/nofile" disk_a
           (filesys.directoryFile fs0) "nofile" root_a).
  - discriminate.
  - apply Nat.ltb_lt. vm_compute. reflexivity.
  - vm_compute. reflexivity.
  - exact root_a_is_FetchFrom.
  - vm_compute. reflexivity.
Defined.

Lemma List_only_reads_witness :
  filesys.List 1 fs0 true "/" disk_a = Ret (Some [(0, "a"%string)], disk_a) /\
  disk_a = disk_a.
Proof.
  split; [vm_compute; reflexivity|].
  apply (List_only_reads 1 fs0 true "/" disk_a (Some [(0, "a"%string)]) disk_a).
  vm_compute. reflexivity.
Defined.

Lemma long_path_overruns_targetPath_witness :
  String.length long_path = 500%nat /\
  filesys.Create fs0 long_path 100 false disk_a = Stop (WildIndex 500) /\
  filesys.Open fs0 long_path disk_a = Stop (WildIndex 500) /\
  filesys.Remove 1 fs0 false long_path disk_a = Stop (WildIndex 500) /\
  filesys.List 1 fs0 false long_path disk_a = Stop (WildIndex 500).
Proof.
  split; [vm_compute; reflexivity|].
  apply (long_path_overruns_targetPath 0 fs0 false long_path 100 false disk_a).
  apply Nat.leb_le. vm_compute. reflexivity.
Defined.

(* Mounting the disk that was just formatted. *)
Lemma FileSystem_new_without_format_witness :
  filesys.FileSystem_new false disk0 = Ret (fs0, disk0) /\
  disk0 = disk0 /\
  filesys.fileDescriptorTable fs0 = replicate (Z.to_nat MAXFILENUM) None /\
  filesys.openedNum fs0 = 0 /\
  filehdr.FetchFrom filehdr.new 0 disk0
    = Ret (openfile.hdr (filesys.freeMapFile fs0), disk0) /\
  filehdr.FetchFrom filehdr.new 1 disk0
    = Ret (openfile.hdr (filesys.directoryFile fs0), disk0).
Proof.
  split; [vm_compute; reflexivity|].
  apply (FileSystem_new_without_format disk0 fs0 disk0).
  vm_compute. reflexivity.
Defined.


Lemma Open_keeps_descriptors_witness :
  filesys.Open fs0 "/a" disk_a = Ret ((fs_1, (Some file_a, 1)), disk_a) /\
  filesys.openedNum fs_1 = 1 /\
  descriptors_ok fs_1 /\ filesys.openedNum fs_1 < MAXFILENUM.
Proof.
  split; [vm_compute; reflexivity|].
  split; [vm_compute; reflexivity|].
  apply (Open_keeps_descriptors fs0 "/a" disk_a fs_1 (Some file_a, 1) disk_a).
  - vm_compute. split; reflexivity.
  - split_and!; vm_compute; reflexivity.
  - vm_compute. reflexivity.
Defined.

(* The chain written at sectors 1 and 31 is read alike from a disk that
   differs in sector 40. *)
Lemma FetchFrom_reads_the_chain_only_witness :
  filehdr.FetchFrom filehdr.new 1 disk_two = Ret (two_segments, disk_two) /\
  filehdr.FetchFrom filehdr.new 1 (<[40%nat := [1; 2; 3]]> disk_two)
    = Ret (two_segments, <[40%nat := [1; 2; 3]]> disk_two).
Proof.
  split; [vm_compute; reflexivity|].
  apply (FetchFrom_reads_the_chain_only 1 disk_two two_segments disk_two).
  - vm_compute. reflexivity.
  - intros s Hs. apply list_lookup_insert_ne.
    assert (Hs' : s = 1 \/ s = 31).
    { change (successor_sectors two_segments) with [31] in Hs.
      apply elem_of_cons in Hs as [->|Hs]; [auto|].
      apply elem_of_cons in Hs as [->|Hs]; [auto | inversion Hs]. }
    destruct Hs' as [->| ->]; discriminate.
Defined.

Lemma Deallocate_only_clears_its_cells_witness :
  filehdr.Deallocate hdr_5000 map_5000 disk_5000 = Ret (map_freed, disk_5000) /\
  disk_5000 = disk_5000 /\ length map_freed = length map_5000 /\
  (forall k, map_5000 !! k = Some false -> map_freed !! k = Some false) /\
  (forall s, 0 <= s -> s ∉ all_data hdr_5000 ->
             map_freed !! Z.to_nat s = map_5000 !! Z.to_nat s).
Proof.
  split; [vm_compute; reflexivity|].
  apply (Deallocate_only_clears_its_cells hdr_5000 map_5000 disk_5000 map_freed
           disk_5000).
  vm_compute. reflexivity.
Defined.

(* One sector for the 8 bytes of the free map, two for the 160 bytes of the
   directory. *)
Lemma format_then_mount_witness :
  sectors_for filesys.FreeMapFileSize = 1 /\
  sectors_for filesys.DirectoryFileSize = 2 /\
  filesys.FileSystem_new true (blank_disk 64) = Ret (fs0, disk0) /\
  exists fs d',
    filesys.FileSystem_new true (blank_disk 64) = Ret (fs, d') /\
    filesys.FileSystem_new false d' = Ret (fs, d') /\
    filehdr.FileLength (openfile.hdr (filesys.freeMapFile fs))
      = filesys.FreeMapFileSize /\
    filehdr.FileLength (openfile.hdr (filesys.directoryFile fs))
      = filesys.DirectoryFileSize.
Proof.
  split; [vm_compute; reflexivity|].
  split; [vm_compute; reflexivity|].
  split; [exact formatted_is_Format|].
  apply (format_then_mount (blank_disk 64)).
  - exact nachos_ints_fit.
  - exact nachos_header_fits.
  - exact blank_disk_ok.
  - vm_compute. reflexivity.
  - vm_compute. reflexivity.
  - vm_compute. discriminate.
Defined.

Lemma format_leaves_consistent_disk_witness :
  free_on_disk fs0 disk0 = Some 59 /\
  exists fs d' freeMap root,
    filesys.FileSystem_new true (blank_disk 64) = Ret (fs, d') /\
    pbitmap.load (filesys.freeMapFile fs) NumSectors d' = Ret (freeMap, d') /\
    bitmap.NumClear freeMap
      = NumSectors - 2 - sectors_for filesys.FreeMapFileSize
        - sectors_for filesys.DirectoryFileSize /\
    freeMap !! O = Some true /\ freeMap !! 1%nat = Some true /\
    directory.FetchFrom (directory.new NumDirEntries) (filesys.directoryFile fs) d'
      = Ret (root, d') /\
    forall name, directory.Find root name = -1.
Proof.
  split; [vm_compute; reflexivity|].
  apply (format_leaves_consistent_disk (blank_disk 64)).
  - exact nachos_ints_fit.
  - exact nachos_header_fits.
  - exact blank_disk_ok.
  - vm_compute. reflexivity.
  - vm_compute. reflexivity.
  - vm_compute. discriminate.
Defined.

End ConcreteRuns.
